(** * Syscall test programs of starry-mix: [mmap.c] and [shm.c]

    The two C programs under [apps/libc/c] are straight-line drivers of
    kernel calls with inline assertions.  They are embedded here as
    interaction trees of finite depth: a node is a call made by the
    program, its children are indexed by the value the kernel gives back.
    The trees are then read in three ways: over every possible answer of
    the kernel (what the program does whatever the kernel says), over a
    memory model (what [test_memory_rw] does to mapped memory), and over a
    reference model of System V shared memory with two interleaved
    processes. *)

From Stdlib Require Import ZArith List String Bool Lia.
From stdpp Require Import gmap.
Import ListNotations.
Local Open Scope Z_scope.

(** ** Calls, answers and programs *)

(** The fields of [struct shmid_ds] that [shm.c] reads. *)
Record shmid_ds : Type := mk_shmid_ds {
  shm_perm_key : Z;
  shm_segsz : Z;
  shm_cpid : Z;
  shm_nattch : Z
}.

(** An argument of [printf]: a pointer for [%p], a string for [%s]. *)
Inductive printf_arg : Type :=
| APtr (p : Z)
| AStr (s : string).

(** The calls of the two programs, indexed by the type of the answer.
    A memory access through a pointer is a call too: it is the kernel that
    decides what lies behind a mapped or attached address, and an access
    may fault ([None]).  [Shmctl] answers with the return value and the
    content of the caller's buffer after the call. *)
Inductive sys : Type -> Type :=
| Printf (fmt : string) (args : list printf_arg) : sys unit
| Perror (msg : string) : sys unit
| Mmap (addr length prot flags fd offset : Z) : sys Z
| Munmap (addr length : Z) : sys Z
| Open (path : string) (flags mode : Z) : sys Z
| Write (fd : Z) (buf : list Z) (count : Z) : sys Z
| Lseek (fd offset whence : Z) : sys Z
| Close (fd : Z) : sys Z
| Unlink (path : string) : sys Z
| Store8 (addr byte : Z) : sys (option unit)
| Load8 (addr : Z) : sys (option Z)
| Ftok (path : string) (proj : Z) : sys Z
| Shmget (key size shmflg : Z) : sys Z
| Shmctl (shmid cmd : Z) : sys (Z * shmid_ds)
| Shmat (shmid addr shmflg : Z) : sys Z
| Shmdt (addr : Z) : sys Z
| Getpid : sys Z
| Fork : sys Z
| Wait : sys Z
| Store32 (addr val : Z) : sys (option unit)
| Load32 (addr : Z) : sys (option Z).

(** How a process ends.  [StatusUnspecified] is the status of a [return;]
    without a value in [main]. *)
Inductive status : Type :=
| Status (n : Z)
| StatusUnspecified.

Inductive outcome : Type :=
| Exit (s : status)
| Abort
| Segv
| OutOfFuel.

Inductive prog (R : Type) : Type :=
| Ret (r : R)
| Halt (o : outcome)
| Vis {X : Type} (e : sys X) (k : X -> prog R).

Arguments Ret {R} r.
Arguments Halt {R} o.
Arguments Vis {R X} e k.

Fixpoint bind {A B : Type} (p : prog A) (f : A -> prog B) : prog B :=
  match p with
  | Ret r => f r
  | Halt o => Halt o
  | Vis e k => Vis e (fun x => bind (k x) f)
  end.

Definition call {X : Type} (e : sys X) : prog X := Vis e Ret.

Notation "x <- p ;; q" := (bind p (fun x => q))
  (at level 100, p at next level, right associativity).
Notation "p ;; q" := (bind p (fun _ => q))
  (at level 100, right associativity).

(** [assert(c)]: the process aborts when [c] is false. *)
Definition assert (c : bool) : prog unit :=
  if c then Ret tt else Halt Abort.

(** A [for] loop with counter [i]: [cond] is tested before each round and
    [next] is the increment.  [fuel] bounds the number of rounds; a loop
    whose condition still holds when the fuel is spent ends in
    [OutOfFuel]. *)
Fixpoint for_loop (fuel : nat) (cond : Z -> bool) (next : Z -> Z)
    (body : Z -> prog unit) (i : Z) : prog unit :=
  if cond i then
    match fuel with
    | O => Halt OutOfFuel
    | S n => body i ;; for_loop n cond next body (next i)
    end
  else Ret tt.

Arguments for_loop : simpl never.

(** An access that faults kills the process. *)
Definition access {A : Type} (e : sys (option A)) : prog A :=
  r <- call e ;;
  match r with
  | Some a => Ret a
  | None => Halt Segv
  end.

(** ** Runs

    An event is a call together with the answer it got.  [runs p t res]
    holds when [t] is the sequence of events of one complete execution of
    [p], for some choice of answers, and [res] is how it ends. *)

Inductive event : Type :=
| Ev {X : Type} (e : sys X) (r : X).

Inductive result (R : Type) : Type :=
| Returned (r : R)
| Halted (o : outcome).

Arguments Returned {R} r.
Arguments Halted {R} o.

Fixpoint runs {R : Type} (p : prog R) (t : list event) (res : result R) : Prop :=
  match p with
  | Ret r => t = [] /\ res = Returned r
  | Halt o => t = [] /\ res = Halted o
  | Vis e k => exists r t', t = Ev e r :: t' /\ runs (k r) t' res
  end.

(** [wp step p s Q]: on every execution of [p], an observer that starts
    in state [s] and moves by [step] at each event ends in a state that
    satisfies [Q] together with the way the execution ends. *)
Fixpoint wp {R S : Type} (step : S -> event -> S) (p : prog R) (s : S)
    (Q : result R -> S -> Prop) : Prop :=
  match p with
  | Ret r => Q (Returned r) s
  | Halt o => Q (Halted o) s
  | Vis e k => forall r, wp step (k r) (step s (Ev e r)) Q
  end.

(** A handler answers calls from a state; [None] means that the model
    behind the handler does not cover the call. *)
Definition handler (S : Type) : Type := forall X : Type, sys X -> S -> option (X * S).

(** The execution of [p] against a handler: its events, its end and the
    final state of the handler. *)
Fixpoint exec {R S : Type} (h : handler S) (p : prog R) (s : S)
    : option (list event * result R * S) :=
  match p with
  | Ret r => Some ([], Returned r, s)
  | Halt o => Some ([], Halted o, s)
  | Vis e k =>
      match h _ e s with
      | None => None
      | Some (r, s') =>
          match exec h (k r) s' with
          | None => None
          | Some (t, res, s'') => Some (Ev e r :: t, res, s'')
          end
      end
  end.

(** ** Machine integers *)

(** Arithmetic on [size_t], 64 bits without sign. *)
Definition size_t_wrap (z : Z) : Z := z mod 2 ^ 64.

(** Arithmetic on [int], 32 bits with sign. *)
Definition int_wrap (z : Z) : Z := (z + 2 ^ 31) mod 2 ^ 32 - 2 ^ 31.

(** [(char) z]: whether plain [char] is signed is left to the platform. *)
Definition to_char (char_signed : bool) (z : Z) : Z :=
  if char_signed then (z + 128) mod 256 - 128 else z mod 256.

(** The byte that holds a [char] in memory. *)
Definition byte_of_char (c : Z) : Z := c mod 256.

(** ** Constants of the system headers

    [mmap.c] defines only [MAP_HUGE_2MB] and [MAP_HUGE_1GB]; the others are
    the values of the Linux headers. *)

(** [MAP_FAILED] is [(void * ) -1]; pointers are kept as integers. *)
Definition MAP_FAILED : Z := -1.
Definition NULL : Z := 0.
Definition PROT_READ : Z := 1.
Definition PROT_WRITE : Z := 2.
Definition MAP_SHARED : Z := 1.
Definition MAP_PRIVATE : Z := 2.
Definition MAP_FIXED : Z := 16.
Definition MAP_ANONYMOUS : Z := 32.
Definition MAP_POPULATE : Z := 32768.
Definition MAP_HUGETLB : Z := 262144.
Definition MAP_HUGE_SHIFT : Z := 26.
Definition MAP_HUGE_2MB : Z := Z.shiftl 21 MAP_HUGE_SHIFT.
Definition MAP_HUGE_1GB : Z := Z.shiftl 30 MAP_HUGE_SHIFT.
Definition O_RDWR : Z := 2.
Definition O_CREAT : Z := 64.
Definition SEEK_SET : Z := 0.
Definition IPC_CREAT : Z := 512.
Definition IPC_RMID : Z := 0.
Definition IPC_STAT : Z := 2.
Definition sizeof_int : Z := 4.

Definition SZ_4K : Z := 4096.
Definition SZ_2M : Z := 2 * 1024 * 1024.
Definition SZ_1G : Z := 1024 * 1024 * 1024.

Infix ".|." := Z.lor (at level 50, left associativity).

(** ** mmap.c

    The format strings are those of the source, character for character:
    a backslash followed by [n] stands where the source has its newline
    escape. *)

Module Mmap.

Section Program.

Variable char_signed : bool.

(** The two loops of [test_memory_rw] run
    [for (size_t i = 0; i < size && i < 1024; i++)]. *)
Definition rw_cond (size : Z) (i : Z) : bool := (i <? size) && (i <? 1024).

Definition rw_next (i : Z) : Z := size_t_wrap (i + 1).

(** [mem[i] = (char)(i % 256)] *)
Definition rw_write (ptr : Z) (i : Z) : prog unit :=
  access (Store8 (ptr + i) (byte_of_char (to_char char_signed (i mod 256)))).

(** [assert(mem[i] == (char)(i % 256))] *)
Definition rw_check (ptr : Z) (i : Z) : prog unit :=
  b <- access (Load8 (ptr + i)) ;;
  assert (to_char char_signed b =? to_char char_signed (i mod 256)).

Definition test_memory_rw (ptr size : Z) (page_type : string) : prog unit :=
  call (Printf "Testing %s memory read/write...\n" [AStr page_type]) ;;
  for_loop 1024 (rw_cond size) rw_next (rw_write ptr) 0 ;;
  for_loop 1024 (rw_cond size) rw_next (rw_check ptr) 0 ;;
  call (Printf "%s memory read/write test passed\n" [AStr page_type]).

(** The protection and the flags that the calls of [mmap] share. *)
Definition rw : Z := PROT_READ .|. PROT_WRITE.
Definition anon : Z := MAP_PRIVATE .|. MAP_ANONYMOUS.
Definition huge_2m : Z := anon .|. MAP_HUGETLB .|. MAP_HUGE_2MB.
Definition huge_1g : Z := anon .|. MAP_HUGETLB .|. MAP_HUGE_1GB.

Definition say (s : string) : prog unit := call (Printf s []).
Definition say_ptr (s : string) (p : Z) : prog unit := call (Printf s [APtr p]).

Definition test_individual_alloc_rw_free : prog unit :=
  say "========== START test_individual_alloc_rw_free ==========\n" ;;
  ptr_4k <- call (Mmap NULL SZ_4K rw anon (-1) 0) ;;
  assert (negb (ptr_4k =? MAP_FAILED)) ;;
  say_ptr "4KB page allocated at %p\n" ptr_4k ;;
  test_memory_rw ptr_4k SZ_4K "4KB" ;;
  r <- call (Munmap ptr_4k SZ_4K) ;;
  assert (r =? 0) ;;
  say "4KB page freed\n" ;;
  ptr_2m <- call (Mmap NULL SZ_2M rw huge_2m (-1) 0) ;;
  assert (negb (ptr_2m =? MAP_FAILED)) ;;
  say_ptr "2MB page allocated at %p\n" ptr_2m ;;
  test_memory_rw ptr_2m SZ_2M "2MB" ;;
  r <- call (Munmap ptr_2m SZ_2M) ;;
  assert (r =? 0) ;;
  say "2MB page freed\n" ;;
  ptr_1g <- call (Mmap NULL SZ_1G rw huge_1g (-1) 0) ;;
  assert (negb (ptr_1g =? MAP_FAILED)) ;;
  say_ptr "1GB page allocated at %p\n" ptr_1g ;;
  test_memory_rw ptr_1g SZ_1G "1GB" ;;
  r <- call (Munmap ptr_1g SZ_1G) ;;
  assert (r =? 0) ;;
  say "1GB page freed\n" ;;
  say "========== END test_individual_alloc_rw_free ==========\n".

Definition test_batch_alloc_rw_free : prog unit :=
  say "========== START test_batch_alloc_rw_free ==========\n" ;;
  ptr_4k <- call (Mmap NULL SZ_4K rw anon (-1) 0) ;;
  assert (negb (ptr_4k =? MAP_FAILED)) ;;
  say_ptr "Batch allocated 4KB page at %p\n" ptr_4k ;;
  ptr_2m <- call (Mmap NULL SZ_2M rw huge_2m (-1) 0) ;;
  assert (negb (ptr_2m =? MAP_FAILED)) ;;
  say_ptr "Batch allocated 2MB page at %p\n" ptr_2m ;;
  ptr_1g <- call (Mmap NULL SZ_1G rw huge_1g (-1) 0) ;;
  assert (negb (ptr_1g =? MAP_FAILED)) ;;
  say_ptr "Batch allocated 1GB page at %p\n" ptr_1g ;;
  test_memory_rw ptr_4k SZ_4K "4KB batch" ;;
  test_memory_rw ptr_2m SZ_2M "2MB batch" ;;
  test_memory_rw ptr_1g SZ_1G "1GB batch" ;;
  r <- call (Munmap ptr_4k SZ_4K) ;;
  assert (r =? 0) ;;
  say "Batch freed 4KB page\n" ;;
  r <- call (Munmap ptr_2m SZ_2M) ;;
  assert (r =? 0) ;;
  say "Batch freed 2MB page\n" ;;
  r <- call (Munmap ptr_1g SZ_1G) ;;
  assert (r =? 0) ;;
  say "Batch freed 1GB page\n" ;;
  say "========== END test_batch_alloc_rw_free ==========\n".

Definition test_interleaved_alloc_rw_free : prog unit :=
  say "========== START test_interleaved_alloc_rw_free ==========\n" ;;
  ptr_4k <- call (Mmap NULL SZ_4K rw anon (-1) 0) ;;
  assert (negb (ptr_4k =? MAP_FAILED)) ;;
  say "Interleaved: allocated 4KB page\n" ;;
  test_memory_rw ptr_4k SZ_4K "4KB interleaved" ;;
  ptr_2m <- call (Mmap NULL SZ_2M rw huge_2m (-1) 0) ;;
  assert (negb (ptr_2m =? MAP_FAILED)) ;;
  say "Interleaved: allocated 2MB page\n" ;;
  test_memory_rw ptr_2m SZ_2M "2MB interleaved" ;;
  r <- call (Munmap ptr_4k SZ_4K) ;;
  assert (r =? 0) ;;
  say "Interleaved: freed 4KB page\n" ;;
  ptr_1g <- call (Mmap NULL SZ_1G rw huge_1g (-1) 0) ;;
  assert (negb (ptr_1g =? MAP_FAILED)) ;;
  say "Interleaved: allocated 1GB page\n" ;;
  test_memory_rw ptr_1g SZ_1G "1GB interleaved" ;;
  r <- call (Munmap ptr_2m SZ_2M) ;;
  assert (r =? 0) ;;
  say "Interleaved: freed 2MB page\n" ;;
  r <- call (Munmap ptr_1g SZ_1G) ;;
  assert (r =? 0) ;;
  say "Interleaved: freed 1GB page\n" ;;
  say "========== END test_interleaved_alloc_rw_free ==========\n".

(** One round of [test_eager_vs_lazy_allocation]: map, report, exercise,
    unmap.  The source writes the six rounds out one after the other. *)
Definition alloc_round (size flags : Z) (done_msg : string) (page_type : string)
    : prog unit :=
  p <- call (Mmap NULL size rw flags (-1) 0) ;;
  assert (negb (p =? MAP_FAILED)) ;;
  say done_msg ;;
  test_memory_rw p size page_type ;;
  r <- call (Munmap p size) ;;
  assert (r =? 0).

Definition test_eager_vs_lazy_allocation : prog unit :=
  say "========== START test_eager_vs_lazy_allocation ==========\n" ;;
  alloc_round SZ_4K (anon .|. MAP_POPULATE)
    "4KB eager allocation completed\n" "4KB eager" ;;
  alloc_round SZ_4K anon
    "4KB lazy allocation completed\n" "4KB lazy" ;;
  alloc_round SZ_2M (huge_2m .|. MAP_POPULATE)
    "2MB eager allocation completed\n" "2MB eager" ;;
  alloc_round SZ_2M huge_2m
    "2MB lazy allocation completed\n" "2MB lazy" ;;
  alloc_round SZ_1G (huge_1g .|. MAP_POPULATE)
    "1GB eager allocation completed\n" "1GB eager" ;;
  alloc_round SZ_1G huge_1g
    "1GB lazy allocation completed\n" "1GB lazy" ;;
  say "All eager/lazy allocations freed\n" ;;
  say "========== END test_eager_vs_lazy_allocation ==========\n".

(** [char test_data[4096]] after [memset(test_data, 'A', sizeof(test_data))]. *)
Definition test_data : list Z := repeat 65 4096.

Definition test_file_mapping_hugepages : prog unit :=
  say "========== START test_file_mapping_hugepages ==========\n" ;;
  fd <- call (Open "/tmp/test_file" (O_CREAT .|. O_RDWR) 420) ;;
  assert (0 <=? fd) ;;
  call (Write fd test_data 4096) ;;
  ptr_4k <- call (Mmap NULL SZ_4K rw MAP_SHARED fd 0) ;;
  assert (negb (ptr_4k =? MAP_FAILED)) ;;
  say_ptr "4KB file mapping at %p\n" ptr_4k ;;
  test_memory_rw ptr_4k SZ_4K "4KB file" ;;
  r <- call (Munmap ptr_4k SZ_4K) ;;
  assert (r =? 0) ;;
  call (Lseek fd (SZ_2M - 1) SEEK_SET) ;;
  call (Write fd [0] 1) ;;
  ptr_2m <- call (Mmap NULL SZ_2M rw
                    (MAP_SHARED .|. MAP_HUGETLB .|. MAP_HUGE_2MB) fd 0) ;;
  (if negb (ptr_2m =? MAP_FAILED) then
     say_ptr "2MB file mapping at %p\n" ptr_2m ;;
     test_memory_rw ptr_2m SZ_2M "2MB file" ;;
     r <- call (Munmap ptr_2m SZ_2M) ;;
     assert (r =? 0)
   else
     say "2MB file mapping failed, skipping\n") ;;
  call (Close fd) ;;
  call (Unlink "/tmp/test_file") ;;
  say "========== END test_file_mapping_hugepages ==========\n".

(** [(void * )0x08000000] *)
Definition base_addr : Z := 134217728.

Definition test_linear_mapping : prog unit :=
  say "========== START test_linear_mapping ==========\n" ;;
  ptr_4k <- call (Mmap base_addr SZ_4K rw (anon .|. MAP_FIXED) (-1) 0) ;;
  (if negb (ptr_4k =? MAP_FAILED) then
     say_ptr "4KB linear mapping at %p\n" ptr_4k ;;
     test_memory_rw ptr_4k SZ_4K "4KB linear" ;;
     r <- call (Munmap ptr_4k SZ_4K) ;;
     assert (r =? 0) ;;
     say "4KB linear mapping freed\n"
   else
     say "4KB linear mapping failed\n") ;;
  ptr_2m <- call (Mmap (base_addr + 16777216) SZ_2M rw
                    (anon .|. MAP_FIXED .|. MAP_HUGETLB .|. MAP_HUGE_2MB)
                    (-1) 0) ;;
  (if negb (ptr_2m =? MAP_FAILED) then
     say_ptr "2MB linear mapping at %p\n" ptr_2m ;;
     test_memory_rw ptr_2m SZ_2M "2MB linear" ;;
     r <- call (Munmap ptr_2m SZ_2M) ;;
     assert (r =? 0) ;;
     say "2MB linear mapping freed\n"
   else
     say "2MB linear mapping failed\n") ;;
  ptr_1g <- call (Mmap (base_addr + 536870912) SZ_1G rw
                    (anon .|. MAP_FIXED .|. MAP_HUGETLB .|. MAP_HUGE_1GB)
                    (-1) 0) ;;
  (if negb (ptr_1g =? MAP_FAILED) && (ptr_1g =? base_addr + 536870912) then
     say_ptr "1GB linear mapping at %p\n" ptr_1g ;;
     test_memory_rw ptr_1g SZ_1G "1GB linear" ;;
     r <- call (Munmap ptr_1g SZ_1G) ;;
     assert (r =? 0) ;;
     say "1GB linear mapping freed\n"
   else
     say "1GB linear mapping failed\n") ;;
  say "========== END test_linear_mapping ==========\n".

Definition main : prog unit :=
  say "Starting comprehensive hugepage tests\n" ;;
  test_individual_alloc_rw_free ;;
  test_batch_alloc_rw_free ;;
  test_interleaved_alloc_rw_free ;;
  test_eager_vs_lazy_allocation ;;
  test_file_mapping_hugepages ;;
  test_linear_mapping ;;
  say "All hugepage tests completed successfully!\n" ;;
  Halt (Exit (Status 0)).

End Program.

Arguments test_memory_rw : simpl never.
Arguments alloc_round : simpl never.

End Mmap.

(** ** shm.c *)

Module Shm.

Definition NUM : Z := 10000.

(** [NUM * sizeof(int)], a [size_t]. *)
Definition segment_size : Z := size_t_wrap (NUM * sizeof_int).

(** The two loops run [for (int i = 0; i < 10; i++)]. *)
Definition loop_cond (i : Z) : bool := i <? 10.

Definition loop_next (i : Z) : Z := int_wrap (i + 1).

(** [shm_ptr[i]] for an [int *shm_ptr]. *)
Definition elem (shm_ptr i : Z) : Z := shm_ptr + sizeof_int * i.

(** [shm_ptr[i] = i * i] *)
Definition write_square (shm_ptr i : Z) : prog unit :=
  access (Store32 (elem shm_ptr i) (int_wrap (i * i))).

(** [assert(shm_ptr[i] == i * i)] *)
Definition check_square (shm_ptr i : Z) : prog unit :=
  v <- access (Load32 (elem shm_ptr i)) ;;
  assert (v =? int_wrap (i * i)).

Definition nattch_1_or_2 (buf : shmid_ds) : bool :=
  (shm_nattch buf =? 1) || (shm_nattch buf =? 2).

(** The branch [pid == 0]. *)
Definition child (shm_id : Z) : prog unit :=
  shm_ptr <- call (Shmat shm_id NULL 0) ;;
  st <- call (Shmctl shm_id IPC_STAT) ;;
  let buf1 := snd st in
  assert (nattch_1_or_2 buf1) ;;
  for_loop 10 loop_cond loop_next (write_square shm_ptr) 0 ;;
  r <- call (Shmdt shm_ptr) ;;
  if negb (r =? 0) then
    call (Perror "shmdt failed in child") ;;
    Halt (Exit (Status 1))
  else
    st <- call (Shmctl shm_id IPC_STAT) ;;
    let buf1 := snd st in
    assert (shm_nattch buf1 =? 1) ;;
    Halt (Exit (Status 0)).

(** The branch [pid != 0]. *)
Definition parent (shm_id : Z) : prog unit :=
  shm_ptr <- call (Shmat shm_id NULL 0) ;;
  st <- call (Shmctl shm_id IPC_STAT) ;;
  let buf2 := snd st in
  assert (nattch_1_or_2 buf2) ;;
  call Wait ;;
  st <- call (Shmctl shm_id IPC_STAT) ;;
  let buf2 := snd st in
  assert (shm_nattch buf2 =? 1) ;;
  for_loop 10 loop_cond loop_next (check_square shm_ptr) 0 ;;
  r <- call (Shmdt shm_ptr) ;;
  if negb (r =? 0) then
    call (Perror "shmdt failed in parent") ;;
    Halt (Exit (Status 1))
  else
    st <- call (Shmctl shm_id IPC_STAT) ;;
    let buf2 := snd st in
    assert (shm_nattch buf2 =? 0) ;;
    st <- call (Shmctl shm_id IPC_RMID) ;;
    if fst st =? -1 then
      call (Perror "shmctl failed") ;;
      Halt (Exit (Status 1))
    else
      call (Printf "shm check passed!\n" []) ;;
      Halt (Exit (Status 0)).

(** [buf.shm_cpid = getpid()] inside [assert]: the field is overwritten
    and the value tested is the one just stored. *)
Definition assign_cpid (buf : shmid_ds) : prog shmid_ds :=
  pid <- call Getpid ;;
  let buf := mk_shmid_ds (shm_perm_key buf) (shm_segsz buf) pid (shm_nattch buf) in
  assert (negb (shm_cpid buf =? 0)) ;;
  Ret buf.

(** [main] from [fork] on. *)
Definition fork_and_run (shm_id : Z) : prog unit :=
  pid <- call Fork ;;
  if pid =? -1 then
    call (Perror "fork failed") ;;
    Halt (Exit (Status 1))
  else
    (if pid =? 0 then child shm_id else parent shm_id) ;;
    Halt (Exit (Status 0)).

(** What [main] does once [IPC_STAT] has filled [buf]. *)
Definition after_stat (key shm_id : Z) (buf : shmid_ds) : prog unit :=
  assert (shm_perm_key buf =? key) ;;
  buf <- assign_cpid buf ;;
  assert (shm_nattch buf =? 0) ;;
  assert (shm_segsz buf =? segment_size) ;;
  fork_and_run shm_id.

(** [main]; its [return;] after a failed [IPC_STAT] gives no status. *)
Definition main : prog unit :=
  key <- call (Ftok "/tmp" 65) ;;
  shm_id <- call (Shmget key segment_size (IPC_CREAT .|. 438)) ;;
  if shm_id =? -1 then
    call (Perror "shmget failed") ;;
    Halt (Exit (Status 1))
  else
    st <- call (Shmctl shm_id IPC_STAT) ;;
    if fst st =? -1 then
      call (Perror "shmctl IPC_STAT failed") ;;
      Halt (Exit StatusUnspecified)
    else
      after_stat key shm_id (snd st).

End Shm.

(** ** Mapped memory

    The memory behind the mappings of one process: a finite map from the
    mapped addresses to the bytes they hold.  A store to or a load from an
    address that is not mapped faults. *)

Definition mem_handler : handler (gmap Z Z) :=
  fun X e =>
    match e in sys X return gmap Z Z -> option (X * gmap Z Z) with
    | Printf _ _ => fun m => Some (tt, m)
    | Store8 a b => fun m =>
        match m !! a with
        | Some _ => Some (Some tt, <[a := b]> m)
        | None => Some (None, m)
        end
    | Load8 a => fun m => Some (m !! a, m)
    | _ => fun _ => None
    end.

(** The addresses [ptr], ..., [ptr + len - 1] mapped and zero-filled. *)
Fixpoint map_zero (ptr : Z) (len : nat) (m : gmap Z Z) : gmap Z Z :=
  match len with
  | O => m
  | S n => <[ptr := 0]> (map_zero (ptr + 1) n m)
  end.

(** Whether an event is an access to the byte at [a]. *)
Definition touches (a : Z) (ev : event) : Prop :=
  match ev with
  | Ev (Store8 a' _) _ => a' = a
  | Ev (Load8 a') _ => a' = a
  | _ => False
  end.

(** The events [test_memory_rw ptr size _] may produce: output, and
    accesses to the first [min size 1024] bytes at [ptr]. *)
Definition rw_eventb (ptr size : Z) (ev : event) : bool :=
  match ev with
  | Ev (Printf _ _) _ => true
  | Ev (Store8 a _) _ => (ptr <=? a) && (a <? ptr + Z.min size 1024)
  | Ev (Load8 a) _ => (ptr <=? a) && (a <? ptr + Z.min size 1024)
  | _ => false
  end.

(** A kernel by script, for [mmap.c]: the [mmap] calls are counted from
    0, and those whose number [fails] picks return [MAP_FAILED]; every
    other call succeeds, an [mmap] without a requested address at a fresh
    page-aligned address, and a load returns the byte that
    [test_memory_rw] stored at its address. *)
Definition scripted (fails : nat -> bool) : handler nat :=
  fun X e =>
    match e in sys X return nat -> option (X * nat) with
    | Printf _ _ => fun n => Some (tt, n)
    | Mmap addr _ _ _ _ _ => fun n =>
        Some (if fails n then MAP_FAILED
              else if addr =? NULL then (Z.of_nat n + 1) * 2147483648 else addr,
              Datatypes.S n)
    | Munmap _ _ => fun n => Some (0, n)
    | Open _ _ _ => fun n => Some (3, n)
    | Write _ _ count => fun n => Some (count, n)
    | Lseek _ offset _ => fun n => Some (offset, n)
    | Close _ => fun n => Some (0, n)
    | Unlink _ => fun n => Some (0, n)
    | Store8 _ _ => fun n => Some (Some tt, n)
    | Load8 a => fun n => Some (Some (a mod 256), n)
    | _ => fun _ => None
    end.

(** ** A reference model of the kernel for [shm.c]

    The sources hold the two test programs only.  What the kernel does
    with the calls of [shm.c] is modelled here from the spec, which asks
    of it "attach-count bookkeeping and data visibility between
    processes" over "a kernel-managed memory segment shared by unrelated
    processes", for "a single parent/child process pair synchronized by
    fork/wait". *)

Inductive proc : Type := Parent | Child.

Record per_proc (A : Type) : Type := mk_per_proc {
  of_parent : A;
  of_child : A
}.

Arguments mk_per_proc {A} _ _.
Arguments of_parent {A} _.
Arguments of_child {A} _.

Definition sel {A : Type} (who : proc) (x : per_proc A) : A :=
  match who with
  | Parent => of_parent x
  | Child => of_child x
  end.

Definition upd {A : Type} (who : proc) (a : A) (x : per_proc A) : per_proc A :=
  match who with
  | Parent => mk_per_proc a (of_child x)
  | Child => mk_per_proc (of_parent x) a
  end.

(** A segment: what [IPC_STAT] reports of it, whether it is marked for
    removal, and its content as 32-bit words by index. *)
Record segment : Type := mk_segment {
  seg_key : Z;
  seg_cpid : Z;
  seg_segsz : Z;
  seg_nattch : Z;
  seg_dest : bool;
  seg_data : gmap Z Z
}.

Inductive child_state : Type := NotForked | Running | Zombie | Reaped.

Record kernel : Type := mk_kernel {
  k_ftok : Z;
  k_pid : per_proc Z;
  k_segs : gmap Z segment;
  k_att : per_proc (list (Z * Z));
  k_child : child_state
}.

Definition stat_of (sg : segment) : shmid_ds :=
  mk_shmid_ds (seg_key sg) (seg_segsz sg) (seg_cpid sg) (seg_nattch sg).

Definition no_stat : shmid_ds := mk_shmid_ds 0 0 0 0.

Definition SHMMAX : Z := 4294967296.

Definition shm_base : Z := 139637976727552.

Definition find_key (key : Z) (segs : gmap Z segment) : option (Z * segment) :=
  List.find (fun x => seg_key (snd x) =? key) (map_to_list segs).

Definition attached_at (a : Z) (att : list (Z * Z)) : option Z :=
  match List.find (fun x => fst x =? a) att with
  | Some x => Some (snd x)
  | None => None
  end.

(** The lowest free slot of the attach area, among the first [n]. *)
Fixpoint free_slot (n : nat) (a : Z) (att : list (Z * Z)) : Z :=
  match n with
  | O => a
  | S n' =>
      match attached_at a att with
      | Some _ => free_slot n' (a + SHMMAX) att
      | None => a
      end
  end.

Definition with_segs (k : kernel) (segs : gmap Z segment) : kernel :=
  mk_kernel (k_ftok k) (k_pid k) segs (k_att k) (k_child k).

Definition with_att (k : kernel) (who : proc) (att : list (Z * Z)) : kernel :=
  mk_kernel (k_ftok k) (k_pid k) (k_segs k) (upd who att (k_att k)) (k_child k).

Definition with_child (k : kernel) (c : child_state) : kernel :=
  mk_kernel (k_ftok k) (k_pid k) (k_segs k) (k_att k) c.

Definition add_nattch (d : Z) (sg : segment) : segment :=
  mk_segment (seg_key sg) (seg_cpid sg) (seg_segsz sg) (seg_nattch sg + d)
    (seg_dest sg) (seg_data sg).

Definition mark_dest (sg : segment) : segment :=
  mk_segment (seg_key sg) (seg_cpid sg) (seg_segsz sg) (seg_nattch sg)
    true (seg_data sg).

Definition put_word (i v : Z) (sg : segment) : segment :=
  mk_segment (seg_key sg) (seg_cpid sg) (seg_segsz sg) (seg_nattch sg)
    (seg_dest sg) (<[i := v]> (seg_data sg)).

(** One attachment less on segment [id]; a segment marked for removal goes
    with its last attachment. *)
Definition detach_seg (id : Z) (segs : gmap Z segment) : gmap Z segment :=
  match segs !! id with
  | Some sg =>
      let sg' := add_nattch (-1) sg in
      if seg_dest sg' && (seg_nattch sg' =? 0) then delete id segs
      else <[id := sg']> segs
  | None => segs
  end.

(** The attachment of [att] that covers the aligned word at [a], with the
    index of the word in the segment. *)
Fixpoint locate (a : Z) (att : list (Z * Z)) (segs : gmap Z segment)
    : option (Z * Z) :=
  match att with
  | [] => None
  | (base, id) :: rest =>
      match segs !! id with
      | Some sg =>
          if (base <=? a) && (a + 4 <=? base + seg_segsz sg)
             && ((a - base) mod 4 =? 0)
          then Some (id, (a - base) / 4)
          else locate a rest segs
      | None => locate a rest segs
      end
  end.

(** Modelled from the spec: the kernel's [shmget], [shmat], [shmdt],
    [shmctl], [fork] and [wait] are missing from the sources.  A segment
    is created with attach count 0 and records its key, its size and the
    pid of its creator; [IPC_STAT] reports them; each [shmat] adds one to
    the count and each [shmdt] takes one off; loads and stores through an
    attachment act on the one content of the segment, whichever process
    makes them; [IPC_RMID] removes the segment, at once or with its last
    attachment; [wait] blocks while the child runs. *)
Definition kernel_handler (who : proc) : handler kernel :=
  fun X e =>
    match e in sys X return kernel -> option (X * kernel) with
    | Printf _ _ => fun k => Some (tt, k)
    | Perror _ => fun k => Some (tt, k)
    | Ftok _ _ => fun k => Some (k_ftok k, k)
    | Getpid => fun k => Some (sel who (k_pid k), k)
    | Shmget key sz shmflg => fun k =>
        match find_key key (k_segs k) with
        | Some (id, sg) =>
            Some (if sz <=? seg_segsz sg then id else -1, k)
        | None =>
            if (Z.land shmflg IPC_CREAT =? 0) || (sz <? 1) || (SHMMAX <? sz)
            then Some (-1, k)
            else
              let id := Z.of_nat (size (k_segs k)) in
              let sg := mk_segment key (sel who (k_pid k)) sz 0 false ∅ in
              Some (id, with_segs k (<[id := sg]> (k_segs k)))
        end
    | Shmctl id cmd => fun k =>
        match k_segs k !! id with
        | Some sg =>
            if cmd =? IPC_STAT then Some ((0, stat_of sg), k)
            else if cmd =? IPC_RMID then
              Some ((0, no_stat),
                    with_segs k (if seg_nattch sg =? 0 then delete id (k_segs k)
                                 else <[id := mark_dest sg]> (k_segs k)))
            else None
        | None => Some ((-1, no_stat), k)
        end
    | Shmat id addr shmflg => fun k =>
        if negb (addr =? NULL) || negb (shmflg =? 0) then None
        else
          match k_segs k !! id with
          | Some sg =>
              let att := sel who (k_att k) in
              let a := free_slot (length att) shm_base att in
              Some (a, with_att (with_segs k (<[id := add_nattch 1 sg]> (k_segs k)))
                         who ((a, id) :: att))
          | None => Some (-1, k)
          end
    | Shmdt addr => fun k =>
        let att := sel who (k_att k) in
        match attached_at addr att with
        | Some id =>
            Some (0, with_att (with_segs k (detach_seg id (k_segs k))) who
                       (List.filter (fun x => negb (fst x =? addr)) att))
        | None => Some (-1, k)
        end
    | Store32 a v => fun k =>
        match locate a (sel who (k_att k)) (k_segs k) with
        | Some (id, i) =>
            match k_segs k !! id with
            | Some sg => Some (Some tt, with_segs k (<[id := put_word i v sg]> (k_segs k)))
            | None => Some (None, k)
            end
        | None => Some (None, k)
        end
    | Load32 a => fun k =>
        match locate a (sel who (k_att k)) (k_segs k) with
        | Some (id, i) =>
            match k_segs k !! id with
            | Some sg => Some (Some (default 0 (seg_data sg !! i)), k)
            | None => Some (None, k)
            end
        | None => Some (None, k)
        end
    | Fork => fun k =>
        match who, k_child k with
        | Parent, NotForked =>
            let att := sel Parent (k_att k) in
            let segs := fold_right
                          (fun x segs =>
                             match segs !! snd x with
                             | Some sg => <[snd x := add_nattch 1 sg]> segs
                             | None => segs
                             end) (k_segs k) att in
            Some (sel Child (k_pid k),
                  with_child (with_att (with_segs k segs) Child att) Running)
        | _, _ => None
        end
    | Wait => fun k =>
        match who, k_child k with
        | Parent, Running => None
        | Parent, Zombie => Some (sel Child (k_pid k), with_child k Reaped)
        | _, _ => Some (-1, k)
        end
    | _ => fun _ => None
    end.

(** Modelled from the spec: what the kernel does when a process ends is
    missing from the sources.  The attachments of the process go, and a
    child becomes a zombie for [wait] to reap. *)
Definition kernel_exit (who : proc) (k : kernel) : kernel :=
  let segs := fold_right (fun x segs => detach_seg (snd x) segs)
                (k_segs k) (sel who (k_att k)) in
  let k' := with_att (with_segs k segs) who [] in
  match who with
  | Child => with_child k' Zombie
  | Parent => k'
  end.

(** ** Two processes over the kernel model *)

Record system : Type := mk_system {
  sy_kernel : kernel;
  sy_prog : per_proc (option (prog unit));
  sy_gone : per_proc bool;
  sy_trace : per_proc (list event)
}.

(** What [fork] starts: the continuation of the call, resumed with 0. *)
Definition fork_child {X : Type} (e : sys X)
    : (X -> prog unit) -> option (prog unit) :=
  match e in sys X return (X -> prog unit) -> option (prog unit) with
  | Fork => fun k => Some (k 0)
  | _ => fun _ => None
  end.

(** Modelled from the spec: the scheduling of the parent/child pair is
    missing from the sources.  One step of process [who]: a pending call
    is answered by the kernel; a process that has reached its end leaves,
    and the kernel clears up after it.  [None] when [who] does not exist,
    has left, or is blocked.  Any process that can step may be the next
    one to do so. *)
Definition step_proc (who : proc) (s : system) : option system :=
  if sel who (sy_gone s) then None
  else
    match sel who (sy_prog s) with
    | Some (Vis e k) =>
        match kernel_handler who _ e (sy_kernel s) with
        | Some (r, kn) =>
            let progs := upd who (Some (k r)) (sy_prog s) in
            let progs' :=
              match fork_child e k with
              | Some c => upd Child (Some c) progs
              | None => progs
              end in
            Some (mk_system kn progs' (sy_gone s)
                    (upd who (sel who (sy_trace s) ++ [Ev e r]) (sy_trace s)))
        | None => None
        end
    | Some _ =>
        Some (mk_system (kernel_exit who (sy_kernel s)) (sy_prog s)
                (upd who true (sy_gone s)) (sy_trace s))
    | None => None
    end.

Fixpoint run (sched : list proc) (s : system) : option system :=
  match sched with
  | [] => Some s
  | who :: rest =>
      match step_proc who s with
      | Some s' => run rest s'
      | None => None
      end
  end.

Definition ended (who : proc) (s : system) : bool :=
  match sel who (sy_prog s) with
  | Some _ => sel who (sy_gone s)
  | None => true
  end.

Definition finished (s : system) : bool := ended Parent s && ended Child s.

(** How [who] has ended, once it has left. *)
Definition outcome_of (who : proc) (s : system) : option outcome :=
  match sel who (sy_prog s) with
  | Some (Halt o) => if sel who (sy_gone s) then Some o else None
  | _ => None
  end.

(** Exploration of every schedule from [s], at most [fuel] steps deep:
    [ok] holds in every state met, and no state short of the end is
    without a step. *)
Fixpoint explore (fuel : nat) (ok : system -> bool) (s : system) : bool :=
  ok s &&
  (finished s ||
   match fuel with
   | O => false
   | S n =>
       let next who :=
         match step_proc who s with
         | Some s' => Some (explore n ok s')
         | None => None
         end in
       match next Parent, next Child with
       | None, None => false
       | Some b, None => b
       | None, Some b => b
       | Some b1, Some b2 => b1 && b2
       end
   end).

Definition boot (key ppid cpid : Z) : system :=
  mk_system
    (mk_kernel key (mk_per_proc ppid cpid) ∅ (mk_per_proc [] []) NotForked)
    (mk_per_proc (Some Shm.main) None)
    (mk_per_proc false false)
    (mk_per_proc [] []).

(** The segment [shmget] creates for [shm.c]. *)
Definition created (key ppid : Z) : segment :=
  mk_segment key ppid Shm.segment_size 0 false ∅.

(** The events of [main] up to [fork], when every call succeeds. *)
Definition prologue (key ppid cpid : Z) : list event :=
  [Ev (Ftok "/tmp" 65) key;
   Ev (Shmget key Shm.segment_size (IPC_CREAT .|. 438)) 0;
   Ev (Shmctl 0 IPC_STAT) (0, stat_of (created key ppid));
   Ev Getpid ppid;
   Ev Fork cpid].

(** The system after the [k] first calls of [main], for [k] from 3 to 5:
    [IPC_STAT] answered, [getpid] answered, [fork] done. *)
Definition stat_done (key ppid cpid : Z) : system :=
  mk_system
    (mk_kernel key (mk_per_proc ppid cpid) {[ 0 := created key ppid ]}
       (mk_per_proc [] []) NotForked)
    (mk_per_proc (Some (Shm.after_stat key 0 (stat_of (created key ppid)))) None)
    (mk_per_proc false false)
    (mk_per_proc (firstn 3 (prologue key ppid cpid)) []).

Definition checks_done (key ppid cpid : Z) : system :=
  mk_system
    (mk_kernel key (mk_per_proc ppid cpid) {[ 0 := created key ppid ]}
       (mk_per_proc [] []) NotForked)
    (mk_per_proc (Some (Shm.fork_and_run 0)) None)
    (mk_per_proc false false)
    (mk_per_proc (firstn 4 (prologue key ppid cpid)) []).

Definition forked (key ppid cpid : Z) : system :=
  mk_system
    (mk_kernel key (mk_per_proc ppid cpid) {[ 0 := created key ppid ]}
       (mk_per_proc [] []) Running)
    (mk_per_proc (Some (Shm.parent 0 ;; Halt (Exit (Status 0))))
                 (Some (Shm.child 0 ;; Halt (Exit (Status 0)))))
    (mk_per_proc false false)
    (mk_per_proc (prologue key ppid cpid) []).

(** ** Observers of runs

    The path properties are stated over the events of a run, through
    observers that fold over them. *)

(** Both observers at once. *)
Definition both {A B : Type} (f : A -> event -> A) (g : B -> event -> B)
    (s : A * B) (ev : event) : A * B :=
  (f (fst s) ev, g (snd s) ev).

(** The six calls the spec names.  An access to memory is no call. *)
Definition named_call (ev : event) : bool :=
  match ev with
  | Ev (Mmap _ _ _ _ _ _) _ => true
  | Ev (Munmap _ _) _ => true
  | Ev (Shmget _ _ _) _ => true
  | Ev (Shmctl _ _) _ => true
  | Ev (Shmat _ _ _) _ => true
  | Ev (Shmdt _) _ => true
  | Ev (Store8 _ _) _ => true
  | Ev (Load8 _) _ => true
  | Ev (Store32 _ _) _ => true
  | Ev (Load32 _) _ => true
  | _ => false
  end.

(** The calls of [mmap.c]. *)
Definition mmap_call (ev : event) : bool :=
  match ev with
  | Ev (Printf _ _) _ => true
  | Ev (Mmap _ _ _ _ _ _) _ => true
  | Ev (Munmap _ _) _ => true
  | Ev (Open _ _ _) _ => true
  | Ev (Write _ _ _) _ => true
  | Ev (Lseek _ _ _) _ => true
  | Ev (Close _) _ => true
  | Ev (Unlink _) _ => true
  | Ev (Store8 _ _) _ => true
  | Ev (Load8 _) _ => true
  | _ => false
  end.

(** The calls of [shm.c]. *)
Definition shm_call (ev : event) : bool :=
  match ev with
  | Ev (Printf _ _) _ => true
  | Ev (Perror _) _ => true
  | Ev (Ftok _ _) _ => true
  | Ev (Shmget _ _ _) _ => true
  | Ev (Shmctl _ _) _ => true
  | Ev (Shmat _ _ _) _ => true
  | Ev (Shmdt _) _ => true
  | Ev Getpid _ => true
  | Ev Fork _ => true
  | Ev Wait _ => true
  | Ev (Store32 _ _) _ => true
  | Ev (Load32 _) _ => true
  | _ => false
  end.

Definition all_step (P : event -> bool) (ok : bool) (ev : event) : bool :=
  ok && P ev.

(** Whether a call came back with its error value. *)
Definition failed (ev : event) : bool :=
  match ev with
  | @Ev X e r =>
      match e in sys X return X -> bool with
      | Mmap _ _ _ _ _ _ => fun r => r =? MAP_FAILED
      | Munmap _ _ => fun r => negb (r =? 0)
      | Open _ _ _ => fun r => negb (0 <=? r)
      | Write _ _ _ => fun r => r <? 0
      | Lseek _ _ _ => fun r => r <? 0
      | Close _ => fun r => negb (r =? 0)
      | Unlink _ => fun r => negb (r =? 0)
      | Shmget _ _ _ => fun r => r =? -1
      | Shmctl _ _ => fun r => fst r =? -1
      | Shmat _ _ _ => fun r => r =? -1
      | Shmdt _ => fun r => negb (r =? 0)
      | Fork => fun r => r =? -1
      | Wait => fun r => r =? -1
      | _ => fun _ => false
      end r
  end.

Definition is_fork (ev : event) : bool :=
  match ev with
  | Ev Fork _ => true
  | _ => false
  end.

Definition is_perror (ev : event) : bool :=
  match ev with
  | Ev (Perror _) _ => true
  | _ => false
  end.

(** An [mmap] whose failure [mmap.c] reports and steps over: the
    fixed-address ones and the file-backed huge-page one. *)
Definition tolerated_mmap (flags fd : Z) : bool :=
  negb (Z.land flags MAP_FIXED =? 0)
  || (negb (Z.land flags MAP_HUGETLB =? 0) && negb (fd =? -1)).

(** A failed [mmap] of the one or the other tolerated kind. *)
Definition skipped_mmap (fixed : bool) (ev : event) : bool :=
  match ev with
  | Ev (Mmap _ _ _ flags fd _) _ =>
      failed ev
      && (if fixed then negb (Z.land flags MAP_FIXED =? 0)
          else (Z.land flags MAP_FIXED =? 0)
               && negb (Z.land flags MAP_HUGETLB =? 0) && negb (fd =? -1))
  | _ => false
  end.

(** The failures the programs look at, given whether [fork] is still to
    come: in [mmap.c] those of [open], [munmap] and the [mmap]s that are
    not tolerated; in [shm.c] those of [shmget], [fork], [shmdt], of
    [IPC_RMID] and of the [IPC_STAT] before [fork]. *)
Definition checked_failure (before_fork : bool) (ev : event) : bool :=
  match ev with
  | Ev (Mmap _ _ _ flags fd _) _ => negb (tolerated_mmap flags fd) && failed ev
  | Ev (Munmap _ _) _ => failed ev
  | Ev (Open _ _ _) _ => failed ev
  | Ev (Shmget _ _ _) _ => failed ev
  | Ev (Shmctl _ cmd) _ =>
      ((cmd =? IPC_RMID) || ((cmd =? IPC_STAT) && before_fork)) && failed ev
  | Ev (Shmdt _) _ => failed ev
  | Ev Fork _ => failed ev
  | _ => false
  end.

(** The observer of "a failure ends the process": whether [fork] is still
    to come, whether a failure counted by [bad_failure] has been seen, and
    whether a call other than [perror] was made after one. *)
Record stop_state : Type := mk_stop {
  st_before_fork : bool;
  st_pending : bool;
  st_went_on : bool
}.

Definition stop_step (bad_failure : bool -> event -> bool) (s : stop_state)
    (ev : event) : stop_state :=
  mk_stop (st_before_fork s && negb (is_fork ev))
          (st_pending s || bad_failure (st_before_fork s) ev)
          (st_went_on s || (st_pending s && negb (is_perror ev))).

Definition stop_init : stop_state := mk_stop true false false.

(** No call but [perror] follows a failure counted by [bad_failure]. *)
Definition stops_at (bad_failure : bool -> event -> bool) (t : list event) : bool :=
  negb (st_went_on (fold_left (stop_step bad_failure) t stop_init)).

(** Some failure counted by [bad_failure] occurs in [t]. *)
Definition has_failure (bad_failure : bool -> event -> bool) (t : list event) : bool :=
  st_pending (fold_left (stop_step bad_failure) t stop_init).

(** The failures of [shm.c] that lead to [return 1] or [exit(1)]. *)
Definition exit1_failure (before_fork : bool) (ev : event) : bool :=
  match ev with
  | Ev (Shmctl _ cmd) _ => (cmd =? IPC_RMID) && failed ev
  | _ => checked_failure before_fork ev
  end.

(** The failure of the [IPC_STAT] before [fork]. *)
Definition first_stat_failure (before_fork : bool) (ev : event) : bool :=
  match ev with
  | Ev (Shmctl _ cmd) _ => (cmd =? IPC_STAT) && before_fork && failed ev
  | _ => false
  end.

(** The regions mapped and not yet unmapped, most recent first.  An [mmap]
    that succeeds adds its region, but for the fixed-address 1GB request
    that lands elsewhere; a [munmap] takes away the latest region of its
    address and length.  [None] once a [munmap] has named a region that is
    not there. *)
Definition moved_1g (addr length flags r : Z) : bool :=
  negb (Z.land flags MAP_FIXED =? 0) && (length =? SZ_1G) && negb (r =? addr).

Definition same_region (a len : Z) (x : Z * Z) : bool :=
  (snd x =? len) && (fst x =? a).

Fixpoint take_region (a len : Z) (out : list (Z * Z)) : option (list (Z * Z)) :=
  match out with
  | [] => None
  | x :: rest =>
      if same_region a len x then Some rest
      else match take_region a len rest with
           | Some rest' => Some (x :: rest')
           | None => None
           end
  end.

Definition track (st : option (list (Z * Z))) (ev : event)
    : option (list (Z * Z)) :=
  match st with
  | None => None
  | Some out =>
      match ev with
      | Ev (Mmap addr length _ flags _ _) r =>
          if (r =? MAP_FAILED) || moved_1g addr length flags r then Some out
          else Some ((r, length) :: out)
      | Ev (Munmap a len) _ => take_region a len out
      | _ => Some out
      end
  end.

(** The three observers of [mmap.c] side by side. *)
Definition mmap_obs :
    (bool * stop_state) * option (list (Z * Z)) -> event ->
    (bool * stop_state) * option (list (Z * Z)) :=
  both (both (all_step mmap_call) (stop_step checked_failure)) track.

Definition mmap_obs_init (out : list (Z * Z))
    : (bool * stop_state) * option (list (Z * Z)) :=
  ((true, stop_init), Some out).

Definition outstanding (t : list event) : option (list (Z * Z)) :=
  fold_left track t (Some []).

(** Every [munmap] of the run returned 0. *)
Definition munmap_ok (ev : event) : bool :=
  match ev with
  | Ev (Munmap _ _) _ => negb (failed ev)
  | _ => true
  end.

(** What a test function of [mmap.c] leaves of the observers. *)
Definition test_post (out : list (Z * Z)) (res : result unit)
    (s : (bool * stop_state) * option (list (Z * Z))) : Prop :=
  match res with
  | Returned _ => s = mmap_obs_init out
  | Halted o =>
      (o = Abort \/ o = Segv) /\ fst (fst s) = true /\
      st_went_on (snd (fst s)) = false /\ snd s <> None
  end.

(** What [main] of [mmap.c] leaves of them. *)
Definition main_post (res : result unit)
    (s : (bool * stop_state) * option (list (Z * Z))) : Prop :=
  match res with
  | Returned _ => False
  | Halted o =>
      fst (fst s) = true /\ st_went_on (snd (fst s)) = false /\ snd s <> None /\
      (o = Exit (Status 0) /\ s = mmap_obs_init [] \/ o = Abort \/ o = Segv)
  end.


(** What a loop of accesses, or a function made of such loops, leaves of an
    observer that its events do not move: the state [s] it started in;
    and it returns, fails an assertion or faults. *)
Definition loop_post {S : Type} (s : S) (res : result unit) (s' : S) : Prop :=
  s' = s /\ (res = Returned tt \/ res = Halted Abort \/ res = Halted Segv).

(** The observers of [shm.c]: the calls made, and three copies of the
    failure observer, one per kind of failure. *)
Definition shm_obs :
    ((bool * stop_state) * stop_state) * stop_state -> event ->
    ((bool * stop_state) * stop_state) * stop_state :=
  both (both (both (all_step shm_call) (stop_step checked_failure))
             (stop_step exit1_failure))
       (stop_step first_stat_failure).

Definition shm_obs_init : ((bool * stop_state) * stop_state) * stop_state :=
  (((true, stop_init), stop_init), stop_init).

(** What [main] of [shm.c] leaves of them: every call was one of
    [shm_call]; nothing but [perror] followed a checked failure; and, the
    [IPC_STAT] before [fork] not having failed, the process ends with
    status 1 when one of [shmget], [fork], [shmdt], [IPC_RMID] failed, and
    with status 0, an abort or a fault when none did. *)
Definition shm_post (res : result unit)
    (s : ((bool * stop_state) * stop_state) * stop_state) : Prop :=
  match res with
  | Returned _ => False
  | Halted o =>
      fst (fst (fst s)) = true /\
      st_went_on (snd (fst (fst s))) = false /\
      (st_pending (snd s) = false ->
       o = Exit (Status 1) /\ st_pending (snd (fst s)) = true \/
       (o = Exit (Status 0) \/ o = Abort \/ o = Segv) /\
       st_pending (snd (fst s)) = false)
  end.

(** The observers of [shm.c] once [fork] is done and nothing has failed. *)
Definition forked_obs : ((bool * stop_state) * stop_state) * stop_state :=
  (((true, mk_stop false false false), mk_stop false false false),
   mk_stop false false false).

(** ** Reading executions *)

Definition trace_of {R S : Type} (x : option (list event * result R * S))
    : list event :=
  match x with
  | Some (t, _, _) => t
  | None => []
  end.

Definition result_of {R S : Type} (x : option (list event * result R * S))
    : option (result R) :=
  match x with
  | Some (_, res, _) => Some res
  | None => None
  end.

(** The attach counts that the [IPC_STAT] calls of a trace reported. *)
Definition stats (t : list event) : list Z :=
  flat_map
    (fun ev =>
       match ev with
       | @Ev X e r =>
           match e in sys X return X -> list Z with
           | Shmctl _ cmd => fun r =>
               if cmd =? IPC_STAT then [shm_nattch (snd r)] else []
           | _ => fun _ => []
           end r
       end) t.

(** The 32-bit loads of a trace, with what they returned, and its 32-bit
    stores that did not fault. *)
Definition loads (t : list event) : list (Z * option Z) :=
  flat_map
    (fun ev =>
       match ev with
       | @Ev X e r =>
           match e in sys X return X -> list (Z * option Z) with
           | Load32 a => fun r => [(a, r)]
           | _ => fun _ => []
           end r
       end) t.

Definition stores (t : list event) : list (Z * Z) :=
  flat_map
    (fun ev =>
       match ev with
       | @Ev X e r =>
           match e in sys X return X -> list (Z * Z) with
           | Store32 a v => fun r =>
               match r with
               | Some _ => [(a, v)]
               | None => []
               end
           | _ => fun _ => []
           end r
       end) t.

Definition indices : list Z := [0; 1; 2; 3; 4; 5; 6; 7; 8; 9].

(** The ten elements [shm_ptr[i]] with the value [i * i], as the child
    stores them and as the parent is to read them; both processes are
    attached at [shm_base] in the model. *)
Definition squares_written : list (Z * Z) :=
  List.map (fun i => (Shm.elem shm_base i, i * i)) indices.

Definition squares_read : list (Z * option Z) :=
  List.map (fun i => (Shm.elem shm_base i, Some (i * i))) indices.

Definition is_exit0 (o : option outcome) : bool :=
  match o with
  | Some (Exit (Status 0)) => true
  | _ => false
  end.

Definition is_abort (o : option outcome) : bool :=
  match o with
  | Some Abort => true
  | _ => false
  end.

(** What is to hold of the data in every state of the system: the loads
    the parent has made so far returned the squares, in order; and once
    both processes have left, the child has stored the ten squares, the
    parent has read all ten and has ended with status 0. *)
Definition data_ok (s : system) : bool :=
  let read := loads (sel Parent (sy_trace s)) in
  bool_decide (read = firstn (length read) squares_read)
  && (negb (finished s)
      || (bool_decide (read = squares_read)
          && bool_decide (stores (sel Child (sy_trace s)) = squares_written)
          && is_exit0 (outcome_of Parent s))).

(** What holds of the attach counts once both processes have left: the
    parent saw 0, then 1 or 2, then 1, then 0, and ended with status 0;
    the child saw 1 or 2 and then 1, or it saw 1 and then 0, in which case
    its last assertion failed. *)
Definition nattch_ok (s : system) : bool :=
  negb (finished s)
  || (let p := stats (sel Parent (sy_trace s)) in
      let c := stats (sel Child (sy_trace s)) in
      (bool_decide (p = [0; 1; 1; 0]) || bool_decide (p = [0; 2; 1; 0]))
      && is_exit0 (outcome_of Parent s)
      && ((bool_decide (c = [1; 1]) || bool_decide (c = [2; 1]))
             && is_exit0 (outcome_of Child s)
          || bool_decide (c = [1; 0]) && is_abort (outcome_of Child s))).

(** The schedule on which the child runs from its [shmat] to its end
    before the parent's [shmat]. *)
Definition child_first : list proc :=
  repeat Parent 5 ++ repeat Child 15 ++ repeat Parent 19.

(** The schedule on which the parent attaches and checks before the child
    starts. *)
Definition parent_first : list proc :=
  repeat Parent 7 ++ repeat Child 15 ++ repeat Parent 17.

(** ** The creator pid *)

(** The answer to a call, with the [shm_cpid] that [IPC_STAT] reports
    replaced by [c]. *)
Definition forge_resp (c : Z) {X : Type} (e : sys X) : X -> X :=
  match e in sys X return X -> X with
  | Shmctl _ _ => fun r =>
      (fst r, mk_shmid_ds (shm_perm_key (snd r)) (shm_segsz (snd r)) c
                (shm_nattch (snd r)))
  | _ => fun r => r
  end.

Definition forge_cpid (c : Z) (ev : event) : event :=
  match ev with
  | Ev e r => Ev e (forge_resp c e r)
  end.

(** A program that goes on in the same way whatever [shm_cpid] it is
    given. *)
Fixpoint blind (c : Z) {R : Type} (p : prog R) : Prop :=
  match p with
  | Vis e k => forall r, k (forge_resp c e r) = k r /\ blind c (k r)
  | _ => True
  end.

(** ** Particular runs *)

(** A run of [shm.c] on which [fork] fails. *)
Definition fork_fails : list event :=
  [Ev (Ftok "/tmp" 65) 1;
   Ev (Shmget 1 Shm.segment_size (IPC_CREAT .|. 438)) 0;
   Ev (Shmctl 0 IPC_STAT) (0, mk_shmid_ds 1 Shm.segment_size 7 0);
   Ev Getpid 7;
   Ev Fork (-1);
   Ev (Perror "fork failed") tt].

(** The run of [mmap.c] on which the file-backed 2MB [mmap], the 17th of the
    run, fails and every other call succeeds. *)
Definition skipped_run : option (list event * result unit * nat) :=
  exec (scripted (Nat.eqb 16)) (Mmap.main true) 0%nat.

(** The run of [mmap.c] on which the 2MB [mmap] of
    [test_batch_alloc_rw_free], the 5th of the run, fails. *)
Definition batch_failure_run : option (list event * result unit * nat) :=
  exec (scripted (Nat.eqb 4)) (Mmap.main true) 0%nat.

(** The run of [mmap.c] on which the three fixed-address [mmap]s of
    [test_linear_mapping], the last three of the run, fail. *)
Definition fixed_failure_run : option (list event * result unit * nat) :=
  exec (scripted (Nat.leb 17)) (Mmap.main true) 0%nat.

(** The run of [mmap.c] on which every call succeeds. *)
Definition full_run : option (list event * result unit * nat) :=
  exec (scripted (fun _ => false)) (Mmap.main true) 0%nat.

(** ** Executions compared and taken apart *)

(** Two programs with the same executions. *)
Definition same_runs {R : Type} (p q : prog R) : Prop :=
  forall t res, runs p t res <-> runs q t res.

(** The rounds [i], ..., [k - 1] of a loop with body [body], each run to
    its end. *)
Definition rounds (body : Z -> prog unit) (i k : Z) (ts : list (list event)) : Prop :=
  Forall2 (fun j tj => runs (body j) tj (Returned tt)) (seqZ i (k - i)) ts.

(** A program none of whose events satisfies [P], whatever the answers. *)
Fixpoint never (P : event -> bool) {R : Type} (p : prog R) : Prop :=
  match p with
  | Vis e k => forall r, P (Ev e r) = false /\ never P (k r)
  | _ => True
  end.

(** ** The events of [test_memory_rw] *)

(** The stores of the first loop at the offsets [js]: offset [j] gets the
    byte of [(char)(j % 256)], and the store does not fault. *)
Definition pattern_stores (ptr : Z) (js : list Z) : list event :=
  List.map (fun j => Ev (Store8 (ptr + j) (j mod 256)) (Some tt)) js.

(** The loads of the second loop at the offsets [js], returning [bs]. *)
Definition read_back (ptr : Z) (js bs : list Z) : list event :=
  zip_with (fun j b => Ev (Load8 (ptr + j)) (Some b)) js bs.

(** The bytes [bs] are those of the pattern at the offsets [js]. *)
Definition pattern_bytes (js bs : list Z) : Prop :=
  Forall2 (fun j b => b mod 256 = j mod 256) js bs.

(** A load that ends the read-back loop at offset [k]: it faults, or it
    returns a byte that is not the one of the pattern. *)
Definition bad_load (k : Z) (r : option Z) (o : outcome) : Prop :=
  match r with
  | None => o = Segv
  | Some b => b mod 256 <> k mod 256 /\ o = Abort
  end.

(** ** Regions held at once *)

(** The number of regions held, and their bytes. *)
Definition held (st : option (list (Z * Z))) : nat :=
  match st with
  | Some out => length out
  | None => 0%nat
  end.

Definition held_bytes (st : option (list (Z * Z))) : Z :=
  match st with
  | Some out => fold_right (fun x acc => snd x + acc) 0 out
  | None => 0
  end.

(** The regions held, with the largest number of regions and the largest
    number of bytes held at once so far. *)
Definition peak_step (s : option (list (Z * Z)) * (nat * Z)) (ev : event)
    : option (list (Z * Z)) * (nat * Z) :=
  (track (fst s) ev,
   (Nat.max (fst (snd s)) (held (track (fst s) ev)),
    Z.max (snd (snd s)) (held_bytes (track (fst s) ev)))).

Definition peak_init : option (list (Z * Z)) * (nat * Z) := (Some [], (0%nat, 0)).

Definition peak (t : list event) : nat * Z :=
  snd (fold_left peak_step t peak_init).

(** What a test function leaves of [peak_step]: the peaks are within [n]
    regions and [b] bytes; and, when it returns, they were reached and
    nothing is held any more. *)
Definition peak_post (n : nat) (b : Z) (res : result unit)
    (s : option (list (Z * Z)) * (nat * Z)) : Prop :=
  ((fst (snd s) <= n)%nat /\ snd (snd s) <= b) /\
  (res = Returned tt -> s = (Some [], (n, b))).

(** ** The fixed-address mappings that fail *)

(** An event other than an [mmap] that succeeded. *)
Definition mmap_failed (ev : event) : bool :=
  match ev with
  | Ev (Mmap _ _ _ _ _ _) _ => failed ev
  | _ => true
  end.

(** The events of [test_linear_mapping] when its three [mmap]s fail. *)
Definition linear_all_failed : list event :=
  [Ev (Printf "========== START test_linear_mapping ==========\n" []) tt;
   Ev (Mmap Mmap.base_addr SZ_4K Mmap.rw (Mmap.anon .|. MAP_FIXED) (-1) 0) MAP_FAILED;
   Ev (Printf "4KB linear mapping failed\n" []) tt;
   Ev (Mmap (Mmap.base_addr + 16777216) SZ_2M Mmap.rw
         (Mmap.anon .|. MAP_FIXED .|. MAP_HUGETLB .|. MAP_HUGE_2MB) (-1) 0) MAP_FAILED;
   Ev (Printf "2MB linear mapping failed\n" []) tt;
   Ev (Mmap (Mmap.base_addr + 536870912) SZ_1G Mmap.rw
         (Mmap.anon .|. MAP_FIXED .|. MAP_HUGETLB .|. MAP_HUGE_1GB) (-1) 0) MAP_FAILED;
   Ev (Printf "1GB linear mapping failed\n" []) tt;
   Ev (Printf "========== END test_linear_mapping ==========\n" []) tt].

(** ** The file of [test_file_mapping_hugepages] *)

(** The life of the file: the path given to [open] and the descriptor it
    returned, whether [close] has been called, whether [unlink] has been
    called, and whether every call so far was in order.  What [close] and
    [unlink] return is not recorded: the function does not look at it. *)
Record file_state : Type := mk_file {
  fs_path : option string;
  fs_fd : option Z;
  fs_close_called : bool;
  fs_unlink_called : bool;
  fs_ok : bool
}.

(** [fd] is the descriptor that [open] returned, [open] did not fail, and
    [close] has not been called on it. *)
Definition uses (s : file_state) (fd : Z) : bool :=
  match fs_fd s with
  | Some f => (0 <=? f) && (f =? fd) && negb (fs_close_called s)
  | None => false
  end.

(** [path] is the path that was given to [open]. *)
Definition opened_path (s : file_state) (path : string) : bool :=
  match fs_path s with
  | Some p => String.eqb p path
  | None => false
  end.

(** In order are: one [open]; [write], [lseek], [close] and a file-backed
    [mmap] on the descriptor it returned, which is not negative, before
    [close] is called; one [unlink], of the path that was opened, after
    [close] has been called. *)
Definition file_step (s : file_state) (ev : event) : file_state :=
  match ev with
  | Ev (Open path _ _) r =>
      mk_file (Some path) (Some r) (fs_close_called s) (fs_unlink_called s)
              (fs_ok s && match fs_fd s with None => true | Some _ => false end)
  | Ev (Write fd _ _) _ =>
      mk_file (fs_path s) (fs_fd s) (fs_close_called s) (fs_unlink_called s)
              (fs_ok s && uses s fd)
  | Ev (Lseek fd _ _) _ =>
      mk_file (fs_path s) (fs_fd s) (fs_close_called s) (fs_unlink_called s)
              (fs_ok s && uses s fd)
  | Ev (Mmap _ _ _ _ fd _) _ =>
      mk_file (fs_path s) (fs_fd s) (fs_close_called s) (fs_unlink_called s)
              (fs_ok s && (uses s fd || (fd =? -1)))
  | Ev (Close fd) _ =>
      mk_file (fs_path s) (fs_fd s) true (fs_unlink_called s) (fs_ok s && uses s fd)
  | Ev (Unlink path) _ =>
      mk_file (fs_path s) (fs_fd s) (fs_close_called s) true
              (fs_ok s && fs_close_called s && negb (fs_unlink_called s)
               && opened_path s path)
  | _ => s
  end.

Definition file_init : file_state := mk_file None None false false true.

(** Every call was in order; when the function returns, [close] and
    [unlink] have been called and the path is that of the source; when it
    does not, neither has been called. *)
Definition file_post (res : result unit) (s : file_state) : Prop :=
  fs_ok s = true /\
  match res with
  | Returned _ =>
      fs_close_called s = true /\ fs_unlink_called s = true /\
      fs_path s = Some "/tmp/test_file"%string
  | Halted _ => fs_close_called s = false /\ fs_unlink_called s = false
  end.

(** ** The last line of [mmap.c] *)

Definition is_completed (ev : event) : bool :=
  match ev with
  | Ev (Printf fmt _) _ =>
      String.eqb fmt "All hugepage tests completed successfully!\n"
  | _ => false
  end.

(** ** [main] of [shm.c] around [fork] *)

(** The calls of [main] before [fork], and [perror]. *)
Definition before_fork (ev : event) : bool :=
  match ev with
  | Ev (Ftok _ _) _ => true
  | Ev (Shmget _ _ _) _ => true
  | Ev (Shmctl _ _) _ => true
  | Ev Getpid _ => true
  | Ev (Perror _) _ => true
  | _ => false
  end.

(** The events of [main] up to and with [fork]. *)
Definition to_fork (key id : Z) (st : Z * shmid_ds) (pid r : Z) : list event :=
  [Ev (Ftok "/tmp" 65) key;
   Ev (Shmget key Shm.segment_size (IPC_CREAT .|. 438)) id;
   Ev (Shmctl id IPC_STAT) st;
   Ev Getpid pid;
   Ev Fork r].

(** What the tests between [shmget] and [fork] have established. *)
Definition checks_passed (key id : Z) (st : Z * shmid_ds) (pid : Z) : Prop :=
  id <> -1 /\ fst st <> -1 /\ shm_perm_key (snd st) = key /\ pid <> 0 /\
  shm_nattch (snd st) = 0 /\ shm_segsz (snd st) = Shm.segment_size.

(** What [Shm.fork_and_run] does once [fork] has returned [r]. *)
Definition after_fork (id r : Z) : prog unit :=
  if r =? -1 then
    call (Perror "fork failed") ;;
    Halt (Exit (Status 1))
  else
    (if r =? 0 then Shm.child id else Shm.parent id) ;;
    Halt (Exit (Status 0)).

(** What only the parent does: [wait], the removal of the segment, a load
    from it, [printf], and every [perror] but that of the child. *)
Definition parent_only (ev : event) : bool :=
  match ev with
  | Ev Wait _ => true
  | Ev (Shmctl _ cmd) _ => cmd =? IPC_RMID
  | Ev (Load32 _) _ => true
  | Ev (Printf _ _) _ => true
  | Ev (Perror msg) _ => negb (String.eqb msg "shmdt failed in child")
  | _ => false
  end.

(** What only the child does: a store to the segment, and the [perror]
    after its [shmdt]. *)
Definition child_only (ev : event) : bool :=
  match ev with
  | Ev (Store32 _ _) _ => true
  | Ev (Perror msg) _ => String.eqb msg "shmdt failed in child"
  | _ => false
  end.

(** ** The use of the segment *)

(** How a process of [shm.c] uses the segment: the address its [shmat]
    returned, until [shmdt]; whether [wait] has returned; and whether
    every access so far was in order. *)
Record use_state : Type := mk_use {
  us_ptr : option Z;
  us_waited : bool;
  us_ok : bool
}.

(** The [int] at [a] lies within the [NUM * sizeof(int)] bytes attached
    at [p]. *)
Definition in_segment (p : option Z) (a : Z) : bool :=
  match p with
  | Some p => (p <=? a) && (a + sizeof_int <=? p + Shm.segment_size)
  | None => false
  end.

(** In order are: a store within the segment while it is attached; a load
    within the segment while it is attached and after [wait]. *)
Definition use_step (s : use_state) (ev : event) : use_state :=
  match ev with
  | Ev (Shmat _ _ _) r => mk_use (Some r) (us_waited s) (us_ok s)
  | Ev (Shmdt _) _ => mk_use None (us_waited s) (us_ok s)
  | Ev Wait _ => mk_use (us_ptr s) true (us_ok s)
  | Ev (Store32 a _) _ =>
      mk_use (us_ptr s) (us_waited s) (us_ok s && in_segment (us_ptr s) a)
  | Ev (Load32 a) _ =>
      mk_use (us_ptr s) (us_waited s)
             (us_ok s && us_waited s && in_segment (us_ptr s) a)
  | _ => s
  end.

Definition use_init : use_state := mk_use None false true.

Definition segment_use_ok (t : list event) : bool :=
  us_ok (fold_left use_step t use_init).

(** ** The success message of [shm.c] *)

Definition is_passed (ev : event) : bool :=
  match ev with
  | Ev (Printf fmt _) _ => String.eqb fmt "shm check passed!\n"
  | _ => false
  end.

(** The calls of the parent after [fork] on the run that prints the
    message: [p] is what [shmat] returned, [w] what [wait] returned, and
    [s1], ..., [s4] are the answers to the four [shmctl]. *)
Definition parent_passed (id p w : Z) (s1 s2 s3 s4 : Z * shmid_ds) : list event :=
  [Ev (Shmat id NULL 0) p; Ev (Shmctl id IPC_STAT) s1; Ev Wait w;
   Ev (Shmctl id IPC_STAT) s2]
  ++ List.map (fun i => Ev (Load32 (Shm.elem p i)) (Some (i * i))) indices
  ++ [Ev (Shmdt p) 0; Ev (Shmctl id IPC_STAT) s3; Ev (Shmctl id IPC_RMID) s4;
      Ev (Printf "shm check passed!\n" []) tt].

(** ** What [shm.c] leaves in the kernel model *)

(** Nothing is left: no segment, no attachment, and the child has been
    reaped. *)
Definition nothing_left (k : kernel) : bool :=
  match map_to_list (k_segs k), sel Parent (k_att k), sel Child (k_att k), k_child k with
  | [], [], [], Reaped => true
  | _, _, _, _ => false
  end.

Definition cleaned_up (s : system) : bool :=
  negb (finished s) || nothing_left (sy_kernel s).

(** ** Results that are not looked at *)

(** The answer to a call whose result the programs do not look at
    ([write], [lseek], [close], [unlink], [wait]) replaced by [v]. *)
Definition forge_unchecked (v : Z) {X : Type} (e : sys X) : X -> X :=
  match e in sys X return X -> X with
  | Write _ _ _ => fun _ => v
  | Lseek _ _ _ => fun _ => v
  | Close _ => fun _ => v
  | Unlink _ => fun _ => v
  | Wait => fun _ => v
  | _ => fun r => r
  end.

Definition forge_event (forge : forall X : Type, sys X -> X -> X) (ev : event) : event :=
  match ev with
  | Ev e r => Ev e (forge _ e r)
  end.

(** A program that goes on in the same way when its answers are replaced
    by [forge]. *)
Fixpoint deaf (forge : forall X : Type, sys X -> X -> X) {R : Type} (p : prog R) : Prop :=
  match p with
  | Vis e k => forall r, k (forge _ e r) = k r /\ deaf forge (k r)
  | _ => True
  end.

(** ** The calls by name *)

(** The C function behind an event; an access to memory is no call. *)
Definition call_name (ev : event) : option string :=
  match ev with
  | Ev (Printf _ _) _ => Some "printf"
  | Ev (Perror _) _ => Some "perror"
  | Ev (Mmap _ _ _ _ _ _) _ => Some "mmap"
  | Ev (Munmap _ _) _ => Some "munmap"
  | Ev (Open _ _ _) _ => Some "open"
  | Ev (Write _ _ _) _ => Some "write"
  | Ev (Lseek _ _ _) _ => Some "lseek"
  | Ev (Close _) _ => Some "close"
  | Ev (Unlink _) _ => Some "unlink"
  | Ev (Ftok _ _) _ => Some "ftok"
  | Ev (Shmget _ _ _) _ => Some "shmget"
  | Ev (Shmctl _ _) _ => Some "shmctl"
  | Ev (Shmat _ _ _) _ => Some "shmat"
  | Ev (Shmdt _) _ => Some "shmdt"
  | Ev Getpid _ => Some "getpid"
  | Ev Fork _ => Some "fork"
  | Ev Wait _ => Some "wait"
  | _ => None
  end%string.

Definition is_call (name : string) (ev : event) : bool :=
  match call_name ev with
  | Some n => String.eqb n name
  | None => false
  end.

(** The function [name] is called in [t]. *)
Definition makes (name : string) (t : list event) : bool :=
  existsb (is_call name) t.

Definition mmap_names : list string :=
  ["mmap"; "munmap"; "open"; "write"; "lseek"; "close"; "unlink"; "printf"]%string.

Definition shm_names : list string :=
  ["shmget"; "shmat"; "shmdt"; "shmctl"; "ftok"; "getpid"; "fork"; "wait";
   "printf"; "perror"]%string.

(** The two functions of the sources that are not events.  [exit], and
    the [return] of [main], end the process: they are the [Exit] at which
    a program halts.  [memset] does not reach the kernel: it fills
    [test_data], and what it leaves there is the buffer of the first
    [write]. *)

(** How [mmap.c] may end: [return 0], a failed assertion, a fault. *)
Definition mmap_end (res : result unit) : bool :=
  match res with
  | Halted (Exit (Status 0)) => true
  | Halted Abort => true
  | Halted Segv => true
  | _ => false
  end.

(** How [shm.c] may end: [exit(0)] or [return 0], [exit(1)] or [return 1],
    [return;], a failed assertion, a fault. *)
Definition shm_end (res : result unit) : bool :=
  match res with
  | Halted (Exit (Status 0)) => true
  | Halted (Exit (Status 1)) => true
  | Halted (Exit StatusUnspecified) => true
  | Halted Abort => true
  | Halted Segv => true
  | _ => false
  end.

(** A [write] of something else than the sources write: the 4096 bytes
    ['A'] that [memset] left in [test_data], or the one byte of the empty
    string. *)
Definition foreign_write (ev : event) : bool :=
  match ev with
  | Ev (Write _ buf count) _ =>
      negb (((count =? 4096) && (Z.of_nat (length buf) =? 4096)
             && forallb (Z.eqb 65) buf)
            || ((count =? 1) && (Z.of_nat (length buf) =? 1)
                && forallb (Z.eqb 0) buf))
  | _ => false
  end.

(** ** Further particular runs *)

(** The runs of four test functions of [mmap.c] on which every call
    succeeds. *)
Definition individual_run : option (list event * result unit * nat) :=
  exec (scripted (fun _ => false)) (Mmap.test_individual_alloc_rw_free true) 0%nat.

Definition batch_run : option (list event * result unit * nat) :=
  exec (scripted (fun _ => false)) (Mmap.test_batch_alloc_rw_free true) 0%nat.

Definition interleaved_run : option (list event * result unit * nat) :=
  exec (scripted (fun _ => false)) (Mmap.test_interleaved_alloc_rw_free true) 0%nat.

Definition eager_lazy_run : option (list event * result unit * nat) :=
  exec (scripted (fun _ => false)) (Mmap.test_eager_vs_lazy_allocation true) 0%nat.

(** The run of [test_file_mapping_hugepages] on which the 2MB [mmap], its
    second, fails. *)
Definition file_mapping_run : option (list event * result unit * nat) :=
  exec (scripted (Nat.eqb 1)) (Mmap.test_file_mapping_hugepages true) 0%nat.

(** The run of [test_linear_mapping] on which every [mmap] fails. *)
Definition linear_failed_run : option (list event * result unit * nat) :=
  exec (scripted (fun _ => true)) (Mmap.test_linear_mapping true) 0%nat.

(** A kernel by script for one process of [shm.c]: [fork] returns
    [fork_answer], the [n]-th [shmctl] reports the [n]-th attach count of
    [counts], every call succeeds, and a load returns the square of the
    index of its word. *)
Definition scripted_shm (fork_answer : Z) (counts : list Z) : handler nat :=
  fun X e =>
    match e in sys X return nat -> option (X * nat) with
    | Printf _ _ => fun n => Some (tt, n)
    | Perror _ => fun n => Some (tt, n)
    | Ftok _ _ => fun n => Some (1090650114, n)
    | Shmget _ _ _ => fun n => Some (0, n)
    | Shmctl _ _ => fun n =>
        Some ((0, mk_shmid_ds 1090650114 Shm.segment_size 100 (nth n counts 0)),
              Datatypes.S n)
    | Shmat _ _ _ => fun n => Some (shm_base, n)
    | Shmdt _ => fun n => Some (0, n)
    | Getpid => fun n => Some (100, n)
    | Fork => fun n => Some (fork_answer, n)
    | Wait => fun n => Some (101, n)
    | Store32 _ _ => fun n => Some (Some tt, n)
    | Load32 a => fun n =>
        Some (Some (((a - shm_base) / sizeof_int) * ((a - shm_base) / sizeof_int)), n)
    | _ => fun _ => None
    end.

(** The run of the parent, and the run of the child, when all goes well. *)
Definition parent_run : option (list event * result unit * nat) :=
  exec (scripted_shm 101 [0; 2; 1; 0; 0]) Shm.main 0%nat.

Definition child_run : option (list event * result unit * nat) :=
  exec (scripted_shm 0 [0; 2; 1]) Shm.main 0%nat.

(** * Properties *)

Section ProgFacts.

Context {R : Type}.

Lemma exec_bind {A S : Type} (h : handler S) (p : prog A) (f : A -> prog R) (s : S) :
  exec h (bind p f) s =
  match exec h p s with
  | Some (t, Returned a, s') =>
      match exec h (f a) s' with
      | Some (t', res, s'') => Some (t ++ t', res, s'')
      | None => None
      end
  | Some (t, Halted o, s') => Some (t, Halted o, s')
  | None => None
  end.
Proof.
  revert s. induction p as [a | o | X e k IH]; intros s; simpl.
  - destruct (exec h (f a) s) as [[[t res] s'] |]; reflexivity.
  - reflexivity.
  - destruct (h X e s) as [[r s'] |]; [| reflexivity].
    rewrite IH. destruct (exec h (k r) s') as [[[t [a | o]] s''] |]; try reflexivity.
    destruct (exec h (f a) s'') as [[[t' res] s3] |]; reflexivity.
Qed.

Lemma exec_runs {S : Type} (h : handler S) (p : prog R) (s s' : S) t res :
  exec h p s = Some (t, res, s') -> runs p t res.
Proof.
  revert s t. induction p as [a | o | X e k IH]; intros s t; simpl.
  - intros [= <- <- _]. auto.
  - intros [= <- <- _]. auto.
  - destruct (h X e s) as [[r s1] |]; [| discriminate].
    destruct (exec h (k r) s1) as [[[t1 res1] s2] |] eqn:Hk; [| discriminate].
    intros [= <- <- <-]. exists r, t1. split; [reflexivity |]. eapply IH, Hk.
Qed.

Lemma wp_runs {S : Type} (step : S -> event -> S) (p : prog R) (s : S) Q :
  wp step p s Q <-> forall t res, runs p t res -> Q res (fold_left step t s).
Proof.
  revert s. induction p as [a | o | X e k IH]; intros s; simpl.
  - split.
    + intros HQ t res [-> ->]. exact HQ.
    + intros H. apply (H [] (Returned a)). auto.
  - split.
    + intros HQ t res [-> ->]. exact HQ.
    + intros H. apply (H [] (Halted o)). auto.
  - split.
    + intros H t res (r & t' & -> & Hr). simpl. apply (IH r); [apply H | exact Hr].
    + intros H r. apply IH. intros t res Hr.
      apply (H (Ev e r :: t) res). exists r, t. auto.
Qed.

Lemma wp_mono {S : Type} (step : S -> event -> S) (p : prog R) (s : S)
    (Q Q' : result R -> S -> Prop) :
  (forall res s', Q res s' -> Q' res s') -> wp step p s Q -> wp step p s Q'.
Proof.
  intros HQ. revert s. induction p as [a | o | X e k IH]; intros s; simpl; auto.
Qed.

Lemma wp_bind {A S : Type} (step : S -> event -> S) (p : prog A)
    (f : A -> prog R) (s : S) Q :
  wp step (bind p f) s Q <->
  wp step p s (fun res s' =>
    match res with
    | Returned a => wp step (f a) s' Q
    | Halted o => Q (Halted o) s'
    end).
Proof.
  revert s. induction p as [a | o | X e k IH]; intros s; simpl; try tauto.
  split; intros H r; apply IH, H.
Qed.

Lemma fold_left_andb (P : event -> bool) t acc :
  fold_left (fun (ok : bool) ev => ok && P ev) t acc = acc && forallb P t.
Proof.
  revert acc. induction t as [| ev t IH]; intros acc; simpl.
  - symmetry. apply andb_true_r.
  - rewrite IH. symmetry. apply andb_assoc.
Qed.

Lemma for_loop_unfold fuel cond next body i :
  for_loop fuel cond next body i =
  if cond i then
    match fuel with
    | O => Halt OutOfFuel
    | S n => body i ;; for_loop n cond next body (next i)
    end
  else Ret tt.
Proof. destruct fuel; reflexivity. Qed.

End ProgFacts.

(** ** [test_memory_rw] *)

Lemma to_char_byte cs z : byte_of_char (to_char cs z) = z mod 256.
Proof.
  unfold byte_of_char, to_char. destruct cs.
  - rewrite Zminus_mod, Zmod_mod, <- Zminus_mod.
    replace (z + 128 - 128) with z by lia. reflexivity.
  - apply Zmod_mod.
Qed.

Lemma rw_cond_spec size i : Mmap.rw_cond size i = true <-> i < Z.min size 1024.
Proof. unfold Mmap.rw_cond. rewrite andb_true_iff, !Z.ltb_lt. lia. Qed.

Lemma rw_next_small i : 0 <= i < 1024 -> Mmap.rw_next i = i + 1.
Proof. intros H. unfold Mmap.rw_next, size_t_wrap. apply Z.mod_small. lia. Qed.

Section CountedLoop.

Context {S : Type} (step : S -> event -> S) (s : S).
Variables (cond : Z -> bool) (next : Z -> Z) (body : Z -> prog unit) (bound : Z).

Hypothesis cond_bound : forall i, cond i = true -> i < bound.
Hypothesis next_succ : forall i, 0 <= i -> cond i = true -> next i = i + 1.
Hypothesis body_quiet :
  forall i, 0 <= i -> cond i = true -> wp step (body i) s (loop_post s).

(** A counted loop whose rounds leave the observer where it was does so
    as a whole, and does not run out of fuel. *)
Lemma wp_for_loop fuel i :
  0 <= i -> bound - i <= Z.of_nat fuel ->
  wp step (for_loop fuel cond next body i) s (loop_post s).
Proof.
  revert i. induction fuel as [| n IH]; intros i Hi Hfuel; rewrite for_loop_unfold.
  - destruct (cond i) eqn:Hc; simpl.
    + apply cond_bound in Hc. lia.
    + red. auto.
  - destruct (cond i) eqn:Hc; simpl.
    + apply wp_bind. eapply wp_mono; [| apply body_quiet; assumption].
      intros res s' [-> Hres]. destruct res as [[] | o].
      * rewrite next_succ by assumption. apply IH; [lia |].
        apply cond_bound in Hc. lia.
      * red. destruct Hres as [H | H]; [discriminate | auto].
    + red. auto.
Qed.

End CountedLoop.

Section RwAll.

Variable cs : bool.
Variables (ptr size : Z).
Context {S : Type} (step : S -> event -> S) (s : S).

(** The observer does not move on the events of [test_memory_rw]. *)
Hypothesis quiet : forall ev, rw_eventb ptr size ev = true -> step s ev = s.

Lemma wp_rw_loop (body : Z -> prog unit) :
  (forall i, 0 <= i < Z.min size 1024 -> wp step (body i) s (loop_post s)) ->
  forall fuel i, 0 <= i -> 1024 - i <= Z.of_nat fuel ->
    wp step (for_loop fuel (Mmap.rw_cond size) Mmap.rw_next body i) s (loop_post s).
Proof.
  intros Hbody fuel i Hi Hfuel.
  apply (wp_for_loop step s (Mmap.rw_cond size) Mmap.rw_next body 1024); try assumption.
  - intros j Hj. apply rw_cond_spec in Hj. lia.
  - intros j Hj Hc. apply rw_cond_spec in Hc. apply rw_next_small. lia.
  - intros j Hj Hc. apply rw_cond_spec in Hc. apply Hbody. lia.
Qed.

Lemma wp_rw_write i : 0 <= i < Z.min size 1024 -> wp step (Mmap.rw_write cs ptr i) s (loop_post s).
Proof.
  intros Hi. unfold Mmap.rw_write, access. simpl. intros r.
  rewrite quiet by (simpl; apply andb_true_iff; rewrite Z.leb_le, Z.ltb_lt; lia).
  destruct r as [[] |]; simpl; red; auto.
Qed.

Lemma wp_rw_check i : 0 <= i < Z.min size 1024 -> wp step (Mmap.rw_check cs ptr i) s (loop_post s).
Proof.
  intros Hi. unfold Mmap.rw_check, access. simpl. intros r.
  rewrite quiet by (simpl; apply andb_true_iff; rewrite Z.leb_le, Z.ltb_lt; lia).
  destruct r as [b |]; simpl; [| red; auto].
  unfold assert. destruct (_ =? _); simpl; red; auto.
Qed.

Lemma wp_test_memory_rw pt : wp step (Mmap.test_memory_rw cs ptr size pt) s (loop_post s).
Proof.
  unfold Mmap.test_memory_rw. simpl. intros []. rewrite quiet by reflexivity.
  apply wp_bind. eapply wp_mono; [| apply wp_rw_loop; [apply wp_rw_write | lia | simpl; lia]].
  intros res s' [-> Hres]. destruct res as [[] | o].
  2: { red. destruct Hres as [H | H]; [discriminate | auto]. }
  apply wp_bind. eapply wp_mono; [| apply wp_rw_loop; [apply wp_rw_check | lia | simpl; lia]].
  intros res s' [-> Hres']. destruct res as [[] | o].
  2: { red. destruct Hres' as [H | H]; [discriminate | auto]. }
  simpl. intros []. rewrite quiet by reflexivity. red. auto.
Qed.

End RwAll.

Lemma exec_mem_untouched {R : Type} (p : prog R) (m m' : gmap Z Z) t res a :
  exec mem_handler p m = Some (t, res, m') ->
  (forall ev, In ev t -> ~ touches a ev) ->
  m' !! a = m !! a.
Proof.
  revert m t. induction p as [r | o | X e k IH]; intros m t; simpl.
  - intros [= _ _ <-] _. reflexivity.
  - intros [= _ _ <-] _. reflexivity.
  - destruct (mem_handler X e m) as [[r m1] |] eqn:Hh; [| discriminate].
    destruct (exec mem_handler (k r) m1) as [[[t1 res1] m2] |] eqn:Hk; [| discriminate].
    intros [= <- <- <-] Hno.
    rewrite (IH r m1 t1 Hk) by (intros ev Hin; apply Hno; right; exact Hin).
    assert (Hhead : ~ touches a (Ev e r)) by (apply Hno; left; reflexivity).
    destruct e; simpl in Hh; try discriminate.
    + injection Hh as <- <-. reflexivity.
    + destruct (m !! addr) eqn:Hm; injection Hh as <- <-; [| reflexivity].
      simpl in Hhead. apply lookup_insert_ne. exact Hhead.
    + injection Hh as <- <-. reflexivity.
Qed.

Section RwMem.

Variable cs : bool.
Variables (ptr size : Z).

Let N : Z := Z.min size 1024.

Lemma exec_rw_write i (m : gmap Z Z) old :
  m !! (ptr + i) = Some old ->
  exec mem_handler (Mmap.rw_write cs ptr i) m
  = Some ([Ev (Store8 (ptr + i) (i mod 256)) (Some tt)], Returned tt,
          <[ptr + i := i mod 256]> m).
Proof.
  intros Hold. unfold Mmap.rw_write, access. simpl.
  rewrite Hold, to_char_byte, Zmod_mod. reflexivity.
Qed.

Lemma exec_rw_check i (m : gmap Z Z) :
  m !! (ptr + i) = Some (i mod 256) ->
  exec mem_handler (Mmap.rw_check cs ptr i) m
  = Some ([Ev (Load8 (ptr + i)) (Some (i mod 256))], Returned tt, m).
Proof.
  intros Hpat. unfold Mmap.rw_check, access. simpl.
  rewrite Hpat. simpl. rewrite Z.eqb_refl. reflexivity.
Qed.

Lemma exec_write_loop fuel i (m : gmap Z Z) :
  0 <= i -> 1024 - i <= Z.of_nat fuel ->
  (forall j, i <= j < N -> is_Some (m !! (ptr + j))) ->
  exists t m',
    exec mem_handler
      (for_loop fuel (Mmap.rw_cond size) Mmap.rw_next (Mmap.rw_write cs ptr) i) m
    = Some (t, Returned tt, m') /\
    (forall j, i <= j < N -> m' !! (ptr + j) = Some (j mod 256)) /\
    (forall j, j < i -> m' !! (ptr + j) = m !! (ptr + j)).
Proof.
  revert i m. induction fuel as [| n IH]; intros i m Hi Hfuel Hmap;
    rewrite for_loop_unfold; destruct (Mmap.rw_cond size i) eqn:Hc.
  - apply rw_cond_spec in Hc. lia.
  - exists [], m. simpl. split; [reflexivity | split; [| intros; reflexivity]].
    intros j Hj. assert (Hn : ~ i < Z.min size 1024)
      by (rewrite <- rw_cond_spec, Hc; discriminate). subst N. lia.
  - apply rw_cond_spec in Hc. fold N in Hc.
    destruct (Hmap i ltac:(lia)) as [old Hold].
    destruct (IH (i + 1) (<[ptr + i := i mod 256]> m)) as (t & m' & He & Hset & Hkeep).
    + lia.
    + lia.
    + intros j Hj. destruct (decide (j = i)) as [-> | Hne].
      * rewrite lookup_insert_eq. eauto.
      * rewrite lookup_insert_ne by lia. apply Hmap. lia.
    + rewrite exec_bind, (exec_rw_write i m old Hold).
      rewrite rw_next_small by (subst N; lia). rewrite He.
      eexists _, m'. split; [reflexivity |]. split.
      * intros j Hj. destruct (decide (j = i)) as [-> | Hne].
        -- rewrite Hkeep by lia. apply lookup_insert_eq.
        -- apply Hset. lia.
      * intros j Hj. rewrite Hkeep by lia. apply lookup_insert_ne. lia.
  - exists [], m. simpl. split; [reflexivity | split; [| intros; reflexivity]].
    intros j Hj. assert (Hn : ~ i < Z.min size 1024)
      by (rewrite <- rw_cond_spec, Hc; discriminate). subst N. lia.
Qed.

Lemma exec_check_loop fuel i (m : gmap Z Z) :
  0 <= i -> 1024 - i <= Z.of_nat fuel ->
  (forall j, i <= j < N -> m !! (ptr + j) = Some (j mod 256)) ->
  exists t,
    exec mem_handler
      (for_loop fuel (Mmap.rw_cond size) Mmap.rw_next (Mmap.rw_check cs ptr) i) m
    = Some (t, Returned tt, m) /\
    (forall j, i <= j < N -> In (Ev (Load8 (ptr + j)) (Some (j mod 256))) t).
Proof.
  revert i. induction fuel as [| n IH]; intros i Hi Hfuel Hpat;
    rewrite for_loop_unfold; destruct (Mmap.rw_cond size i) eqn:Hc.
  - apply rw_cond_spec in Hc. lia.
  - exists []. split; [reflexivity |].
    intros j Hj. assert (Hn : ~ i < Z.min size 1024)
      by (rewrite <- rw_cond_spec, Hc; discriminate). subst N. lia.
  - apply rw_cond_spec in Hc. fold N in Hc.
    destruct (IH (i + 1)) as (t & He & Hin); [lia | lia | intros; apply Hpat; lia |].
    rewrite exec_bind, exec_rw_check by (apply Hpat; lia).
    rewrite rw_next_small by (subst N; lia). rewrite He.
    eexists. split; [reflexivity |].
    intros j Hj. destruct (decide (j = i)) as [-> | Hne].
    + left. reflexivity.
    + right. apply Hin. lia.
  - exists []. split; [reflexivity |].
    intros j Hj. assert (Hn : ~ i < Z.min size 1024)
      by (rewrite <- rw_cond_spec, Hc; discriminate). subst N. lia.
Qed.

End RwMem.

(** C3.  Write-then-read round trip of [test_memory_rw] on mapped memory:
    when the first [min size 1024] bytes at [ptr] are mapped and [size] is
    at least 1, the function returns (no assertion of the read-back loop
    fails, no access faults), every offset [i] below [min size 1024] holds
    the byte of [(char)(i % 256)] afterwards, and the read-back loop has
    loaded exactly that byte from offset [i]. *)
Theorem test_memory_rw_round_trip (cs : bool) (m : gmap Z Z) (ptr size : Z)
    (page_type : string) :
  1 <= size ->
  (forall i, 0 <= i < Z.min size 1024 -> is_Some (m !! (ptr + i))) ->
  exists t m',
    exec mem_handler (Mmap.test_memory_rw cs ptr size page_type) m
    = Some (t, Returned tt, m') /\
    forall i, 0 <= i < Z.min size 1024 ->
      m' !! (ptr + i) = Some (byte_of_char (to_char cs (i mod 256))) /\
      In (Ev (Load8 (ptr + i)) (Some (byte_of_char (to_char cs (i mod 256))))) t.
Proof.
  intros Hsize Hmap.
  destruct (exec_write_loop cs ptr size 1024 0 m) as (t1 & m' & He1 & Hset & _);
    [lia | simpl; lia | intros; apply Hmap; lia |].
  destruct (exec_check_loop cs ptr size 1024 0 m') as (t2 & He2 & Hin);
    [lia | simpl; lia | intros; apply Hset; lia |].
  unfold Mmap.test_memory_rw. simpl.
  rewrite exec_bind, He1, exec_bind, He2. simpl.
  eexists _, m'. split; [reflexivity |].
  intros i Hi. rewrite to_char_byte, Zmod_mod. split.
  - apply Hset. lia.
  - right. apply in_or_app. right. apply in_or_app. left. apply Hin. lia.
Qed.

(** C3 at a mapping of three bytes at address 4096, with signed [char]. *)
Lemma test_memory_rw_round_trip_witness :
  exists t m',
    exec mem_handler (Mmap.test_memory_rw true 4096 3 "4KB") (map_zero 4096 3 ∅)
    = Some (t, Returned tt, m') /\
    forall i, 0 <= i < Z.min 3 1024 ->
      m' !! (4096 + i) = Some (byte_of_char (to_char true (i mod 256))) /\
      In (Ev (Load8 (4096 + i)) (Some (byte_of_char (to_char true (i mod 256))))) t.
Proof.
  apply (test_memory_rw_round_trip true (map_zero 4096 3 ∅) 4096 3 "4KB").
  - lia.
  - intros i Hi.
    assert (Hcases : i = 0 \/ i = 1 \/ i = 2) by lia.
    destruct Hcases as [-> | [-> | ->]]; vm_compute; eauto.
Defined.

(** C8.  [test_memory_rw] stays within the first [min size 1024] bytes of
    the mapping: on every execution, whatever the kernel answers, each
    byte it stores to or loads from lies at an offset below
    [min size 1024]; and over mapped memory every address outside that
    range (in particular every offset from 1024 on, for the 2MB and 1GB
    mappings) holds after the call what it held before. *)
Theorem test_memory_rw_frame (cs : bool) (ptr size : Z) (page_type : string) :
  (forall t res ev a,
     runs (Mmap.test_memory_rw cs ptr size page_type) t res ->
     In ev t -> touches a ev -> ptr <= a < ptr + Z.min size 1024) /\
  (forall (m m' : gmap Z Z) t res a,
     exec mem_handler (Mmap.test_memory_rw cs ptr size page_type) m = Some (t, res, m') ->
     ~ (ptr <= a < ptr + Z.min size 1024) ->
     m' !! a = m !! a).
Proof.
  assert (Hall : forall t res,
             runs (Mmap.test_memory_rw cs ptr size page_type) t res ->
             forall ev, In ev t -> rw_eventb ptr size ev = true).
  { intros t res Hr.
    pose proof (wp_test_memory_rw cs ptr size
                  (fun (ok : bool) ev => ok && rw_eventb ptr size ev) true
                  (fun ev H => H) page_type) as Hwp.
    rewrite wp_runs in Hwp. destruct (Hwp t res Hr) as [Hok _].
    rewrite fold_left_andb in Hok. simpl in Hok.
    intros ev Hin. eapply forallb_forall in Hok; eauto. }
  assert (Hrange : forall ev a, rw_eventb ptr size ev = true -> touches a ev ->
                                ptr <= a < ptr + Z.min size 1024).
  { intros [X e r] a Hev Ht. destruct e; simpl in Ht; try contradiction; subst;
      simpl in Hev; apply andb_true_iff in Hev; rewrite Z.leb_le, Z.ltb_lt in Hev; exact Hev. }
  split.
  - intros t res ev a Hr Hin Ht. eapply Hrange; eauto.
  - intros m m' t res a He Hout. eapply exec_mem_untouched; [exact He |].
    intros ev Hin Ht. apply Hout. eapply Hrange; [| exact Ht].
    eapply Hall; [eapply exec_runs, He | exact Hin].
Qed.


(** ** Every run of [mmap.c] under the observers *)

Lemma mmap_quiet ptr size out ev :
  rw_eventb ptr size ev = true -> mmap_obs (mmap_obs_init out) ev = mmap_obs_init out.
Proof.
  destruct ev as [X e r]. destruct e; simpl; intros; try discriminate; reflexivity.
Qed.

Lemma wp_rw_obs cs ptr size pt out (Q : result unit -> _ -> Prop) :
  Q (Returned tt) (mmap_obs_init out) ->
  Q (Halted Abort) (mmap_obs_init out) ->
  Q (Halted Segv) (mmap_obs_init out) ->
  wp mmap_obs (Mmap.test_memory_rw cs ptr size pt) (mmap_obs_init out) Q.
Proof.
  intros H1 H2 H3. eapply wp_mono; [| apply wp_test_memory_rw, mmap_quiet].
  intros res s' [-> [-> | [-> | ->]]]; assumption.
Qed.




Lemma wp_bind_call {R X S} (step : S -> event -> S) (e : sys X) (f : X -> prog R) s Q :
  (forall r, wp step (f r) (step s (Ev e r)) Q) -> wp step (bind (call e) f) s Q.
Proof. intros H. exact H. Qed.

Lemma wp_last_call {X S} (step : S -> event -> S) (e : sys X) s Q :
  (forall r, Q (Returned r) (step s (Ev e r))) -> wp step (call e) s Q.
Proof. intros H. exact H. Qed.

Lemma wp_bind_assert {R S} (step : S -> event -> S) (c : bool) (f : unit -> prog R) s Q :
  (if c then wp step (f tt) s Q else Q (Halted Abort) s) ->
  wp step (bind (assert c) f) s Q.
Proof. destruct c; intros H; exact H. Qed.

Lemma wp_last_assert {S} (step : S -> event -> S) (c : bool) s Q :
  (if c then Q (Returned tt) s else Q (Halted Abort) s) ->
  wp step (assert c) s Q.
Proof. destruct c; intros H; exact H. Qed.

Lemma same_region_refl a len : same_region a len (a, len) = true.
Proof. unfold same_region. simpl. rewrite !Z.eqb_refl. reflexivity. Qed.

Lemma same_region_len a b len len' :
  (len' =? len) = false -> same_region a len (b, len') = false.
Proof. unfold same_region. simpl. intros ->. reflexivity. Qed.

Lemma take_region_head a len out : take_region a len ((a, len) :: out) = Some out.
Proof. simpl. rewrite same_region_refl. reflexivity. Qed.

Lemma take_region_skip a b len len' out :
  (len' =? len) = false ->
  take_region a len ((b, len') :: out) =
  option_map (cons (b, len')) (take_region a len out).
Proof.
  intros H. simpl. rewrite same_region_len by exact H.
  destruct (take_region a len out); reflexivity.
Qed.

Lemma mmap_obs_init_eq out :
  (true, mk_stop true false false, Some out) = mmap_obs_init out.
Proof. reflexivity. Qed.

Lemma mmap_obs_event out X (e : sys X) (r : X) :
  mmap_obs (mmap_obs_init out) (Ev e r) =
  (mmap_call (Ev e r),
   mk_stop (negb (is_fork (Ev e r))) (checked_failure true (Ev e r)) false,
   track (Some out) (Ev e r)).
Proof. reflexivity. Qed.

Lemma moved_1g_closed addr len flags r :
  moved_1g addr len flags r =
  (negb (Z.land flags MAP_FIXED =? 0) && (len =? SZ_1G)) && negb (r =? addr).
Proof. reflexivity. Qed.

Lemma tolerated_mmap_closed flags fd :
  tolerated_mmap flags fd =
  negb (Z.land flags MAP_FIXED =? 0)
  || (negb (Z.land flags MAP_HUGETLB =? 0) && negb (fd =? -1)).
Proof. reflexivity. Qed.

Ltac closed_term t :=
  match t with
  | context [?v] => is_var v; fail 1
  | _ => idtac
  end.

(* comparisons of closed terms are replaced by their value *)
Ltac eval_closed :=
  repeat match goal with
    | |- context [?a =? ?b] =>
        closed_term a; closed_term b;
        let v := eval vm_compute in (a =? b) in
        change (a =? b) with v
    end.

Ltac nonneg_fd :=
  repeat match goal with
    | H : (0 <=? ?x) = true |- _ =>
        lazymatch goal with
        | H' : (x =? -1) = false |- _ => fail
        | _ => assert ((x =? -1) = false) by (apply Z.eqb_neq; apply Z.leb_le in H; lia)
        end
    end.

Ltac use_hyps :=
  repeat match goal with
    | H : ?c = true |- context [?c] => rewrite H
    | H : ?c = false |- context [?c] => rewrite H
    end.

Ltac simp_state :=
  nonneg_fd; rewrite ?moved_1g_closed, ?tolerated_mmap_closed; use_hyps; eval_closed;
  cbn [andb orb negb];
  repeat first [ rewrite take_region_head
               | rewrite take_region_skip by reflexivity ];
  cbn [option_map];
  rewrite ?mmap_obs_init_eq.

Ltac norm_state :=
  simp_state;
  repeat (rewrite mmap_obs_event;
          cbn [mmap_call is_fork checked_failure failed track negb];
          simp_state).

Ltac leaf :=
  solve [ norm_state; unfold test_post, mmap_obs_init, stop_init; cbn [fst snd st_went_on];
          repeat split; auto; try discriminate; try congruence ].

Ltac case_on c :=
  lazymatch c with
  | negb ?c' => case_on c'
  | andb ?c1 ?c2 => case_on c1
  | _ => destruct c eqn:?
  end.

Ltac wp_step :=
  lazymatch goal with
  | |- wp _ (bind (call _) _) _ _ => apply wp_bind_call; intros ?; cbv beta; norm_state
  | |- wp _ (call _) _ _ => apply wp_last_call; intros ?; cbv beta iota; norm_state
  | |- wp _ (bind (assert ?c) _) _ _ =>
      apply wp_bind_assert; case_on c; cbn [negb andb]; cbv beta iota; norm_state
  | |- wp _ (assert ?c) _ _ =>
      apply wp_last_assert; case_on c; cbn [negb andb]; cbv beta iota; norm_state
  | |- wp _ (bind (Mmap.test_memory_rw _ _ _ _) _) _ _ =>
      apply wp_bind; apply wp_rw_obs; cbv beta iota
  | |- wp _ (Halt _) _ _ => cbn [wp]
  | |- wp _ (bind (Halt _) _) _ _ => cbn [wp bind]
  | |- wp _ (bind (if ?c then _ else _) _) _ _ =>
      case_on c; cbn [negb andb]; cbv beta iota; norm_state
  | |- wp _ (if ?c then _ else _) _ _ =>
      case_on c; cbn [negb andb]; cbv beta iota; norm_state
  | |- wp _ (bind (bind _ _) _) _ _ => apply wp_bind
  end.

Ltac wp_run :=
  repeat (lazymatch goal with |- wp _ _ _ _ => wp_step | |- _ => leaf end).


Lemma wp_seq {R : Type} (p : prog unit) (f : unit -> prog R) out
    (Q : result R -> _ -> Prop) :
  wp mmap_obs p (mmap_obs_init out) (test_post out) ->
  wp mmap_obs (f tt) (mmap_obs_init out) Q ->
  (forall o s, test_post out (Halted o) s -> Q (Halted o) s) ->
  wp mmap_obs (bind p f) (mmap_obs_init out) Q.
Proof.
  intros Hp Hf HQ. apply wp_bind. eapply wp_mono; [| exact Hp].
  intros [[] | o] s' Hpost; [| apply HQ, Hpost].
  simpl in Hpost. subst s'. exact Hf.
Qed.

Lemma test_individual_obs cs out :
  wp mmap_obs (Mmap.test_individual_alloc_rw_free cs) (mmap_obs_init out) (test_post out).
Proof.
  unfold Mmap.test_individual_alloc_rw_free, Mmap.say, Mmap.say_ptr.
  wp_run.
Qed.

Lemma test_batch_obs cs out :
  wp mmap_obs (Mmap.test_batch_alloc_rw_free cs) (mmap_obs_init out) (test_post out).
Proof.
  unfold Mmap.test_batch_alloc_rw_free, Mmap.say, Mmap.say_ptr.
  wp_run.
Qed.

Lemma test_interleaved_obs cs out :
  wp mmap_obs (Mmap.test_interleaved_alloc_rw_free cs) (mmap_obs_init out) (test_post out).
Proof.
  unfold Mmap.test_interleaved_alloc_rw_free, Mmap.say, Mmap.say_ptr.
  wp_run.
Qed.

Lemma test_eager_vs_lazy_obs cs out :
  wp mmap_obs (Mmap.test_eager_vs_lazy_allocation cs) (mmap_obs_init out) (test_post out).
Proof.
  unfold Mmap.test_eager_vs_lazy_allocation, Mmap.alloc_round, Mmap.say.
  wp_run.
Qed.

Lemma test_file_mapping_obs cs out :
  wp mmap_obs (Mmap.test_file_mapping_hugepages cs) (mmap_obs_init out) (test_post out).
Proof.
  unfold Mmap.test_file_mapping_hugepages, Mmap.say, Mmap.say_ptr.
  wp_run.
Qed.

Lemma test_linear_obs cs out :
  wp mmap_obs (Mmap.test_linear_mapping cs) (mmap_obs_init out) (test_post out).
Proof.
  unfold Mmap.test_linear_mapping, Mmap.say, Mmap.say_ptr.
  wp_run.
Qed.

Lemma main_obs cs :
  wp mmap_obs (Mmap.main cs) (mmap_obs_init []) main_post.
Proof.
  unfold Mmap.main, Mmap.say.
  wp_step.
  apply wp_seq; [apply test_individual_obs | | intros o s H; unfold main_post; simpl in H; tauto].
  apply wp_seq; [apply test_batch_obs | | intros o s H; unfold main_post; simpl in H; tauto].
  apply wp_seq; [apply test_interleaved_obs | | intros o s H; unfold main_post; simpl in H; tauto].
  apply wp_seq; [apply test_eager_vs_lazy_obs | | intros o s H; unfold main_post; simpl in H; tauto].
  apply wp_seq; [apply test_file_mapping_obs | | intros o s H; unfold main_post; simpl in H; tauto].
  apply wp_seq; [apply test_linear_obs | | intros o s H; unfold main_post; simpl in H; tauto].
  wp_step. wp_step.
  unfold main_post, mmap_obs_init, stop_init. cbn [fst snd st_went_on].
  split; [reflexivity |]. split; [reflexivity |]. split; [discriminate |].
  left. split; reflexivity.
Qed.

(** ** Every run of [shm.c] under the observers *)

Ltac shm_norm :=
  repeat match goal with
    | |- context [shm_obs ?s (Ev ?e ?r)] =>
        let v := eval cbv [shm_obs both all_step stop_step fst snd] in (shm_obs s (Ev e r)) in
        change (shm_obs s (Ev e r)) with v
    end;
  cbn [st_before_fork st_pending st_went_on shm_call is_fork is_perror
       checked_failure exit1_failure first_stat_failure failed fst snd];
  use_hyps; eval_closed; cbn [andb orb negb].

Ltac shm_leaf :=
  solve [ shm_norm; unfold shm_post, loop_post; cbn [fst snd st_went_on st_pending];
          repeat split; auto; try discriminate; try congruence; intros;
          try discriminate; tauto ].

Lemma shm_loop_post_cases (s : ((bool * stop_state) * stop_state) * stop_state)
    (Q : result unit -> _ -> Prop) (p : prog unit) :
  wp shm_obs p s (loop_post s) ->
  Q (Returned tt) s -> Q (Halted Abort) s -> Q (Halted Segv) s ->
  wp shm_obs p s Q.
Proof.
  intros Hp H1 H2 H3. eapply wp_mono; [| exact Hp].
  intros res s' [-> [-> | [-> | ->]]]; assumption.
Qed.

Lemma shm_loop_cond i : Shm.loop_cond i = true -> i < 10.
Proof. unfold Shm.loop_cond. apply Z.ltb_lt. Qed.

Lemma shm_loop_next i : 0 <= i -> Shm.loop_cond i = true -> Shm.loop_next i = i + 1.
Proof.
  intros Hi Hc. apply shm_loop_cond in Hc. unfold Shm.loop_next, int_wrap.
  rewrite Z.mod_small by lia. lia.
Qed.

Lemma write_loop_obs ptr :
  wp shm_obs (for_loop 10 Shm.loop_cond Shm.loop_next (Shm.write_square ptr) 0)
     forked_obs (loop_post forked_obs).
Proof.
  apply (wp_for_loop shm_obs forked_obs _ _ _ 10);
    [exact shm_loop_cond | exact shm_loop_next | | lia | simpl; lia].
  intros i _ _. unfold Shm.write_square, access. simpl.
  intros [[] |]; (split; [reflexivity | auto]).
Qed.

Lemma check_loop_obs ptr :
  wp shm_obs (for_loop 10 Shm.loop_cond Shm.loop_next (Shm.check_square ptr) 0)
     forked_obs (loop_post forked_obs).
Proof.
  apply (wp_for_loop shm_obs forked_obs _ _ _ 10);
    [exact shm_loop_cond | exact shm_loop_next | | lia | simpl; lia].
  intros i _ _. unfold Shm.check_square, access, assert. simpl.
  intros [v |]; simpl; [destruct (v =? int_wrap (i * i)); simpl |];
    (split; [reflexivity | auto]).
Qed.

Ltac shm_step :=
  lazymatch goal with
  | |- wp _ (bind (call _) _) _ _ => apply wp_bind_call; intros ?; cbv beta zeta; shm_norm
  | |- wp _ (call _) _ _ => apply wp_last_call; intros ?; cbv beta iota zeta; shm_norm
  | |- wp _ (bind (assert ?c) _) _ _ =>
      apply wp_bind_assert; case_on c; cbn [negb andb orb]; cbv beta iota zeta; shm_norm
  | |- wp _ (assert ?c) _ _ =>
      apply wp_last_assert; case_on c; cbn [negb andb orb]; cbv beta iota zeta; shm_norm
  | |- wp _ (bind (for_loop _ _ _ (Shm.write_square _) _) _) _ _ =>
      apply wp_bind; apply shm_loop_post_cases; [apply write_loop_obs | | |]; cbv beta iota
  | |- wp _ (bind (for_loop _ _ _ (Shm.check_square _) _) _) _ _ =>
      apply wp_bind; apply shm_loop_post_cases; [apply check_loop_obs | | |]; cbv beta iota
  | |- wp _ (Halt _) _ _ => cbn [wp]
  | |- wp _ (Ret _) _ _ => cbn [wp]
  | |- wp _ (bind (Halt _) _) _ _ => cbn [wp bind]
  | |- wp _ (bind (Ret _) _) _ _ => cbn [bind]
  | |- wp _ (bind (if ?c then _ else _) _) _ _ =>
      case_on c; cbn [negb andb orb]; cbv beta iota; shm_norm
  | |- wp _ (if ?c then _ else _) _ _ =>
      case_on c; cbn [negb andb orb]; cbv beta iota; shm_norm
  | |- wp _ (bind (bind _ _) _) _ _ => apply wp_bind
  end.

Ltac shm_run :=
  repeat (lazymatch goal with |- wp _ _ _ _ => shm_step | |- _ => shm_leaf end).

Lemma shm_main_obs : wp shm_obs Shm.main shm_obs_init shm_post.
Proof.
  unfold Shm.main, Shm.after_stat, Shm.assign_cpid, Shm.fork_and_run, Shm.child,
    Shm.parent, Shm.nattch_1_or_2, shm_obs_init, stop_init.
  shm_run.
Qed.

(** ** From observers to traces *)

Lemma fold_left_both {A B : Type} (f : A -> event -> A) (g : B -> event -> B) t a b :
  fold_left (both f g) t (a, b) = (fold_left f t a, fold_left g t b).
Proof.
  revert a b. induction t as [| ev t IH]; intros a b; simpl; [reflexivity |].
  unfold both at 2. simpl. apply IH.
Qed.

Lemma fold_all_step P t :
  fold_left (all_step P) t true = forallb P t.
Proof. unfold all_step. rewrite fold_left_andb. reflexivity. Qed.

Lemma mmap_obs_fold t out :
  fold_left mmap_obs t (mmap_obs_init out) =
  (forallb mmap_call t, fold_left (stop_step checked_failure) t stop_init,
   fold_left track t (Some out)).
Proof.
  unfold mmap_obs, mmap_obs_init. rewrite !fold_left_both, fold_all_step. reflexivity.
Qed.

Lemma shm_obs_fold t :
  fold_left shm_obs t shm_obs_init =
  (forallb shm_call t, fold_left (stop_step checked_failure) t stop_init,
   fold_left (stop_step exit1_failure) t stop_init,
   fold_left (stop_step first_stat_failure) t stop_init).
Proof.
  unfold shm_obs, shm_obs_init. rewrite !fold_left_both, fold_all_step. reflexivity.
Qed.

Lemma mmap_main_runs cs t res :
  runs (Mmap.main cs) t res ->
  main_post res (forallb mmap_call t,
                 fold_left (stop_step checked_failure) t stop_init,
                 outstanding t).
Proof.
  intros Hr. pose proof (main_obs cs) as Hwp. rewrite wp_runs in Hwp.
  specialize (Hwp t res Hr). rewrite mmap_obs_fold in Hwp. exact Hwp.
Qed.

Lemma shm_main_runs t res :
  runs Shm.main t res ->
  shm_post res (forallb shm_call t,
                fold_left (stop_step checked_failure) t stop_init,
                fold_left (stop_step exit1_failure) t stop_init,
                fold_left (stop_step first_stat_failure) t stop_init).
Proof.
  intros Hr. pose proof shm_main_obs as Hwp. rewrite wp_runs in Hwp.
  specialize (Hwp t res Hr). rewrite shm_obs_fold in Hwp. exact Hwp.
Qed.

(** A failure that the observer never saw did not happen. *)
Lemma stop_pending_stays f t s :
  st_pending s = true -> st_pending (fold_left (stop_step f) t s) = true.
Proof.
  revert s. induction t as [| ev t IH]; intros s Hs; simpl; [exact Hs |].
  apply IH. simpl. rewrite Hs. reflexivity.
Qed.

Lemma no_failure_in f t s ev :
  st_pending (fold_left (stop_step f) t s) = false ->
  In ev t -> exists bf, f bf ev = false.
Proof.
  revert s. induction t as [| ev0 t IH]; intros s Hs Hin; [destruct Hin |].
  simpl in Hs. destruct Hin as [-> | Hin]; [| eapply IH; eauto].
  exists (st_before_fork s). destruct (f (st_before_fork s) ev) eqn:Hf; [| reflexivity].
  rewrite stop_pending_stays in Hs; [discriminate |].
  simpl. rewrite Hf. apply orb_true_r.
Qed.

Lemma exec_runs_of {R S : Type} (h : handler S) (p : prog R) (s : S) res :
  result_of (exec h p s) = Some res -> runs p (trace_of (exec h p s)) res.
Proof.
  destruct (exec h p s) as [[[t res'] s'] |] eqn:He; simpl; [| discriminate].
  intros [= <-]. eapply exec_runs, He.
Qed.

(** ** The calls the programs make *)

Ltac replay :=
  repeat (simpl; eexists; eexists; split; [reflexivity |]); simpl; split; reflexivity.

Lemma fork_fails_runs : runs Shm.main fork_fails (Halted (Exit (Status 1))).
Proof.
  unfold fork_fails, Shm.main, Shm.after_stat, Shm.assign_cpid, Shm.fork_and_run.
  replay.
Qed.

(** The run of [shm.c] on which the [IPC_STAT] before [fork] fails ends in
    the [return;] that carries no status. *)
Lemma stat_failure_status :
  runs Shm.main
    [Ev (Ftok "/tmp" 65) 1;
     Ev (Shmget 1 Shm.segment_size (IPC_CREAT .|. 438)) 0;
     Ev (Shmctl 0 IPC_STAT) (-1, no_stat);
     Ev (Perror "shmctl IPC_STAT failed") tt]
    (Halted (Exit StatusUnspecified)).
Proof. unfold Shm.main. replay. Qed.


(** ** Failures *)


Lemma skipped_run_runs :
  runs (Mmap.main true) (trace_of skipped_run) (Halted (Exit (Status 0))).
Proof. apply exec_runs_of. vm_compute. reflexivity. Qed.

(** C4, as stated, does not hold: "there is no path on which a syscall
    fails and the program continues".  On [skipped_run] of [mmap.c] the
    file-backed 2MB [mmap] of [test_file_mapping_hugepages] returns
    [MAP_FAILED]; the program prints that it skips the mapping and goes on
    to [close], [unlink] and [test_linear_mapping]. *)
Lemma tolerated_failure_goes_on :
  ~ (forall cs t res,
       runs (Mmap.main cs) t res \/ runs Shm.main t res ->
       stops_at (fun _ => failed) t = true).
Proof.
  intros H.
  specialize (H true _ _ (or_introl skipped_run_runs)).
  vm_compute in H. discriminate.
Qed.

(** C4, amended.  On every run of either program, whatever the kernel
    answers, a failure that the program checks ends the process at once:
    after the failure of [open], of [munmap], of an [mmap] that is neither
    fixed-address nor file-backed with huge pages, of [shmget], of the
    [IPC_STAT] before [fork], of [fork], of [shmdt] or of [IPC_RMID], no
    call but [perror] is made.  A failure of the file-backed 2MB [mmap]
    or of the fixed-address [mmap]s does not end the process: there are
    runs of [mmap.c] that end with status 0 after it. *)
Theorem checked_failure_stops :
  (forall cs t res, runs (Mmap.main cs) t res -> stops_at checked_failure t = true) /\
  (forall t res, runs Shm.main t res -> stops_at checked_failure t = true) /\
  (exists t, runs (Mmap.main true) t (Halted (Exit (Status 0))) /\
             existsb (skipped_mmap false) t = true) /\
  (exists t, runs (Mmap.main true) t (Halted (Exit (Status 0))) /\
             existsb (skipped_mmap true) t = true).
Proof.
  unfold stops_at. repeat split.
  - intros cs t res Hr. apply mmap_main_runs in Hr.
    destruct res as [[] | o]; simpl in Hr; [contradiction |].
    destruct Hr as (_ & -> & _). reflexivity.
  - intros t res Hr. apply shm_main_runs in Hr.
    destruct res as [[] | o]; simpl in Hr; [contradiction |].
    destruct Hr as (_ & -> & _). reflexivity.
  - exists (trace_of skipped_run). split; [exact skipped_run_runs |].
    vm_compute. reflexivity.
  - exists (trace_of fixed_failure_run). split; [| vm_compute; reflexivity].
    apply exec_runs_of. vm_compute. reflexivity.
Qed.

(** C5, as stated, does not hold: "on failure the exit code is 1 or the
    process is aborted".  On [skipped_run] of [mmap.c] the file-backed 2MB
    [mmap] fails, no assertion fails, and [main] returns 0. *)
Lemma skipped_mmap_exits_zero :
  ~ (forall cs t res,
       runs (Mmap.main cs) t res \/ runs Shm.main t res ->
       exists o, res = Halted o /\
         (existsb failed t = true ->
          o = Exit (Status 1) \/ o = Abort \/ o = Segv) /\
         (existsb failed t = false ->
          o = Exit (Status 0) \/ o = Abort \/ o = Segv)).
Proof.
  intros H.
  destruct (H true _ _ (or_introl skipped_run_runs)) as (o & Ho & Hfail & _).
  injection Ho as <-.
  destruct Hfail as [Hf | [Hf | Hf]]; [vm_compute; reflexivity | discriminate ..].
Qed.

(** C5, amended.  Every run of [mmap.c] ends with status 0, by a failed
    assertion or by a fault, never with status 1; it ends with status 0
    only if no checked call failed.  Every run of [shm.c] on which the
    [IPC_STAT] before [fork] does not fail ends with status 1 when
    [shmget], [fork], [shmdt] or [IPC_RMID] fails, and otherwise with
    status 0, by a failed assertion or by a fault.  Nothing is said of the
    status after a failure of the [IPC_STAT] before [fork]. *)
Theorem exit_status :
  (forall cs t res,
     runs (Mmap.main cs) t res ->
     exists o, res = Halted o /\
       (o = Exit (Status 0) /\ has_failure checked_failure t = false
        \/ o = Abort \/ o = Segv)) /\
  (forall t res,
     runs Shm.main t res ->
     exists o, res = Halted o /\
       (has_failure first_stat_failure t = false ->
        o = Exit (Status 1) /\ has_failure exit1_failure t = true
        \/ (o = Exit (Status 0) \/ o = Abort \/ o = Segv)
           /\ has_failure exit1_failure t = false)).
Proof.
  unfold has_failure. split.
  - intros cs t res Hr. apply mmap_main_runs in Hr.
    destruct res as [[] | o]; simpl in Hr; [contradiction |].
    exists o. split; [reflexivity |].
    destruct Hr as (_ & _ & _ & [[-> Hs] | H]); [left | right; exact H].
    split; [reflexivity |]. injection Hs as _ -> _. reflexivity.
  - intros t res Hr. apply shm_main_runs in Hr.
    destruct res as [[] | o]; simpl in Hr; [contradiction |].
    exists o. split; [reflexivity |]. tauto.
Qed.


Lemma batch_failure_runs :
  runs (Mmap.main true) (trace_of batch_failure_run) (Halted Abort).
Proof. apply exec_runs_of. vm_compute. reflexivity. Qed.

(** C10, as stated, does not hold: "on every execution path each region
    for which mmap succeeds is later passed to munmap".  On
    [batch_failure_run] the 4KB [mmap] of [test_batch_alloc_rw_free]
    succeeds, the 2MB [mmap] after it fails, the assertion aborts the
    process, and the 4KB region has not been unmapped. *)
Lemma abort_leaves_mapping :
  ~ (forall cs t res, runs (Mmap.main cs) t res -> outstanding t = Some []).
Proof.
  intros H. specialize (H true _ _ batch_failure_runs).
  vm_compute in H. discriminate.
Qed.

(** C10, amended.  On every run of [mmap.c] each [munmap] names, by
    address and length, a region that an [mmap] of the run returned and
    that has not been unmapped since; and on every run that reaches the
    end of [main], each region that an [mmap] returned (but for the
    fixed-address 1GB request that lands elsewhere) has been passed to
    exactly one such [munmap], and every [munmap] returned 0. *)
Theorem every_mapping_unmapped cs t res :
  runs (Mmap.main cs) t res ->
  outstanding t <> None /\
  (res = Halted (Exit (Status 0)) ->
   outstanding t = Some [] /\ forallb munmap_ok t = true).
Proof.
  intros Hr. apply mmap_main_runs in Hr.
  destruct res as [[] | o]; simpl in Hr; [contradiction |].
  destruct Hr as (_ & _ & Hsome & Hend). split; [exact Hsome |].
  intros [= ->]. destruct Hend as [[_ Hs] | [H | H]]; try discriminate.
  injection Hs as _ Hstop Hout. split; [exact Hout |].
  apply forallb_forall. intros ev Hin.
  assert (Hp : st_pending (fold_left (stop_step checked_failure) t stop_init) = false)
    by (rewrite Hstop; reflexivity).
  destruct (no_failure_in _ _ _ ev Hp Hin) as [bf Hbf].
  destruct ev as [X e r]. destruct e; try reflexivity.
  simpl in *. rewrite Hbf. reflexivity.
Qed.



(** C10, amended, at the run on which every call succeeds. *)
Lemma every_mapping_unmapped_witness :
  outstanding (trace_of full_run) <> None /\
  (@Halted unit (Exit (Status 0)) = Halted (Exit (Status 0)) ->
   outstanding (trace_of full_run) = Some [] /\
   forallb munmap_ok (trace_of full_run) = true).
Proof.
  apply (every_mapping_unmapped true (trace_of full_run) (Halted (Exit (Status 0)))).
  apply exec_runs_of. vm_compute. reflexivity.
Defined.

(** ** The two processes of [shm.c] over the kernel model *)

Lemma ended_no_step who s : ended who s = true -> step_proc who s = None.
Proof.
  unfold ended, step_proc. destruct (sel who (sy_gone s)); [reflexivity |].
  destruct (sel who (sy_prog s)); [discriminate | reflexivity].
Qed.

Lemma finished_no_step who s : finished s = true -> step_proc who s = None.
Proof.
  unfold finished. intros H. apply andb_true_iff in H as [Hp Hc].
  destruct who; apply ended_no_step; assumption.
Qed.

Lemma explore_sound n ok s :
  explore n ok s = true ->
  forall sched s', run sched s = Some s' ->
    ok s' = true /\ (length sched <= n)%nat /\
    (finished s' = false -> exists who, is_Some (step_proc who s')).
Proof.
  revert s. induction n as [| n IH]; intros s H sched s' Hrun.
  - simpl in H. apply andb_true_iff in H as [Hok Hfin].
    rewrite orb_false_r in Hfin.
    destruct sched as [| who rest]; simpl in Hrun.
    + injection Hrun as <-. split; [exact Hok |]. split; [reflexivity |].
      rewrite Hfin. discriminate.
    + rewrite (finished_no_step who s Hfin) in Hrun. discriminate.
  - simpl in H. apply andb_true_iff in H as [Hok Hnext].
    destruct sched as [| who rest]; simpl in Hrun.
    + injection Hrun as <-. split; [exact Hok |]. split; [simpl; lia |].
      intros Hfin. rewrite Hfin in Hnext. simpl in Hnext.
      destruct (step_proc Parent s) as [sp |] eqn:Hp.
      * exists Parent. rewrite Hp. eauto.
      * destruct (step_proc Child s) as [sc |] eqn:Hc; [| discriminate].
        exists Child. rewrite Hc. eauto.
    + destruct (finished s) eqn:Hfin.
      { rewrite (finished_no_step who s Hfin) in Hrun. discriminate. }
      simpl in Hnext.
      destruct (step_proc who s) as [s1 |] eqn:Hstep; [| discriminate].
      assert (Hs1 : explore n ok s1 = true).
      { destruct who; rewrite Hstep in Hnext.
        - destruct (step_proc Child s); [apply andb_true_iff in Hnext as [? _] |]; assumption.
        - destruct (step_proc Parent s); [apply andb_true_iff in Hnext as [_ ?] |]; assumption. }
      destruct (IH s1 Hs1 rest s' Hrun) as (H1 & H2 & H3).
      split; [exact H1 |]. split; [simpl; lia | exact H3].
Qed.

Lemma run_step who rest s :
  run (who :: rest) s =
  match step_proc who s with
  | Some s' => run rest s'
  | None => None
  end.
Proof. reflexivity. Qed.

Section Prologue.

Variables key ppid cpid : Z.
Hypothesis ppid_pos : 0 < ppid.
Hypothesis cpid_pos : 0 < cpid.

Lemma run_to_stat :
  run [Parent; Parent; Parent] (boot key ppid cpid) = Some (stat_done key ppid cpid).
Proof. reflexivity. Qed.

Lemma step_checks :
  step_proc Parent (stat_done key ppid cpid) = Some (checks_done key ppid cpid).
Proof.
  assert (E1 : (ppid =? 0) = false) by (apply Z.eqb_neq; lia).
  unfold step_proc, stat_done, checks_done. cbn [sel sy_prog sy_gone of_parent].
  unfold Shm.after_stat, Shm.assign_cpid, stat_of, created.
  cbn [shm_perm_key seg_key]. rewrite Z.eqb_refl.
  cbn. rewrite E1. reflexivity.
Qed.

Lemma step_fork :
  step_proc Parent (checks_done key ppid cpid) = Some (forked key ppid cpid).
Proof.
  assert (E2 : (cpid =? -1) = false) by (apply Z.eqb_neq; lia).
  assert (E3 : (cpid =? 0) = false) by (apply Z.eqb_neq; lia).
  unfold step_proc, checks_done, forked. cbn [sel sy_prog sy_gone of_parent].
  unfold Shm.fork_and_run. cbn. rewrite E2, E3. reflexivity.
Qed.

(** Up to [fork] there is one process, and one way to go. *)
Lemma boot_cases sched s :
  run sched (boot key ppid cpid) = Some s ->
  (exists n, (n < 5)%nat /\ sched = repeat Parent n) \/
  (exists rest, sched = repeat Parent 5 ++ rest /\
                run rest (forked key ppid cpid) = Some s).
Proof.
  intros H.
  destruct sched as [| [] sched]; [left; exists 0%nat; split; [lia | reflexivity] | | discriminate].
  destruct sched as [| [] sched]; [left; exists 1%nat; split; [lia | reflexivity] | | discriminate].
  destruct sched as [| [] sched]; [left; exists 2%nat; split; [lia | reflexivity] | | discriminate].
  change (run (Parent :: Parent :: Parent :: sched) (boot key ppid cpid))
    with (run sched (stat_done key ppid cpid)) in H.
  destruct sched as [| [] sched]; [left; exists 3%nat; split; [lia | reflexivity] | | discriminate].
  rewrite run_step, step_checks in H.
  destruct sched as [| [] sched]; [left; exists 4%nat; split; [lia | reflexivity] | | discriminate].
  rewrite run_step, step_fork in H.
  right. exists sched. split; [reflexivity | exact H].
Qed.

Lemma run_prologue : run (repeat Parent 5) (boot key ppid cpid) = Some (forked key ppid cpid).
Proof.
  change (repeat Parent 5) with ([Parent; Parent; Parent] ++ [Parent; Parent]).
  change (run _ _) with (run [Parent; Parent] (stat_done key ppid cpid)).
  rewrite run_step, step_checks, run_step, step_fork. reflexivity.
Qed.

End Prologue.

Lemma forked_explored key ppid cpid :
  explore 34 (fun s => data_ok s && nattch_ok s) (forked key ppid cpid) = true.
Proof. vm_compute. reflexivity. Qed.

Lemma prefix_explored key ppid cpid : 0 < ppid -> 0 < cpid ->
  forall n, (n < 5)%nat ->
  exists s, run (repeat Parent n) (boot key ppid cpid) = Some s /\
            data_ok s = true /\ nattch_ok s = true /\ finished s = false /\
            is_Some (step_proc Parent s).
Proof.
  intros Hp Hc n Hn.
  destruct n as [| [| [| [| [| n]]]]]; [ | | | | | lia].
  - eexists. split; [reflexivity |]. repeat split; eauto.
  - eexists. split; [reflexivity |]. repeat split; eauto.
  - eexists. split; [reflexivity |]. repeat split; eauto.
  - exists (stat_done key ppid cpid). split; [reflexivity |].
    rewrite step_checks by assumption. repeat split; eauto.
  - exists (checks_done key ppid cpid). split.
    + change (repeat Parent 4) with ([Parent; Parent; Parent] ++ [Parent]).
      change (run _ _) with (run [Parent] (stat_done key ppid cpid)).
      rewrite run_step, step_checks by assumption. reflexivity.
    + rewrite step_fork by assumption. repeat split; eauto.
Qed.

Lemma repeat_run_unique n key ppid cpid s s' :
  run (repeat Parent n) (boot key ppid cpid) = Some s ->
  run (repeat Parent n) (boot key ppid cpid) = Some s' -> s = s'.
Proof. congruence. Qed.

Lemma all_schedules key ppid cpid sched s :
  0 < ppid -> 0 < cpid ->
  run sched (boot key ppid cpid) = Some s ->
  (data_ok s && nattch_ok s = true) /\ (length sched <= 39)%nat /\
  (finished s = false -> exists who, is_Some (step_proc who s)).
Proof.
  intros Hp Hc Hrun.
  destruct (boot_cases key ppid cpid Hp Hc sched s Hrun) as [(n & Hn & ->) | (rest & -> & Hrest)].
  - destruct (prefix_explored key ppid cpid Hp Hc n Hn) as (s0 & Hs0 & Hd & Hna & Hfin & Hstep).
    assert (s = s0) by congruence. subst s0.
    split; [rewrite Hd, Hna; reflexivity |]. split.
    + rewrite repeat_length. lia.
    + intros _. exists Parent. exact Hstep.
  - destruct (explore_sound _ _ _ (forked_explored key ppid cpid) rest s Hrest)
      as (Hok & Hlen & Hprog).
    split; [exact Hok |]. split; [| exact Hprog].
    rewrite length_app, repeat_length. lia.
Qed.

(** C2.  Over the kernel model and on every schedule of the two
    processes: each load the parent has made returned the square of its
    index; once both processes have left, the child has stored [i * i] at
    index [i] for [i] from 0 to 9, the parent, after its [wait], has read
    these ten values back, and it has ended with status 0, so that none of
    its assertions failed.  No schedule blocks before both have left, and
    none is longer than 39 steps. *)
Theorem child_data_visible key ppid cpid sched s :
  0 < ppid -> 0 < cpid ->
  run sched (boot key ppid cpid) = Some s ->
  (let read := loads (sel Parent (sy_trace s)) in
   read = firstn (length read) squares_read) /\
  (finished s = true ->
   stores (sel Child (sy_trace s)) = squares_written /\
   loads (sel Parent (sy_trace s)) = squares_read /\
   outcome_of Parent s = Some (Exit (Status 0))) /\
  (finished s = false -> exists who, is_Some (step_proc who s)) /\
  (length sched <= 39)%nat.
Proof.
  intros Hp Hc Hrun.
  destruct (all_schedules key ppid cpid sched s Hp Hc Hrun) as (Hok & Hlen & Hprog).
  apply andb_true_iff in Hok as [Hd _]. unfold data_ok in Hd.
  apply andb_true_iff in Hd as [Hpre Hfin]. apply bool_decide_eq_true in Hpre.
  split; [exact Hpre |]. split; [| split; assumption].
  intros Hf. rewrite Hf in Hfin. simpl in Hfin.
  apply andb_true_iff in Hfin as [Hfin Hout]. apply andb_true_iff in Hfin as [Hrd Hwr].
  apply bool_decide_eq_true in Hrd, Hwr. split; [exact Hwr |]. split; [exact Hrd |].
  unfold is_exit0 in Hout.
  destruct (outcome_of Parent s) as [[[[| |] |] | | |] |]; try discriminate. reflexivity.
Qed.

(** C2 at the schedule [parent_first]. *)
Lemma child_data_visible_witness :
  exists s,
    run parent_first (boot 1090650114 100 101) = Some s /\
    ((let read := loads (sel Parent (sy_trace s)) in
      read = firstn (length read) squares_read) /\
     (finished s = true ->
      stores (sel Child (sy_trace s)) = squares_written /\
      loads (sel Parent (sy_trace s)) = squares_read /\
      outcome_of Parent s = Some (Exit (Status 0))) /\
     (finished s = false -> exists who, is_Some (step_proc who s)) /\
     (length parent_first <= 39)%nat).
Proof.
  eexists. split; [vm_compute; reflexivity |].
  apply (child_data_visible 1090650114 100 101 parent_first); [lia | lia |].
  vm_compute. reflexivity.
Defined.

(** C1, at the schedule [child_first].  The child attaches, checks,
    writes, detaches and checks again before the parent attaches.  Its
    first [IPC_STAT] reports 1 and its second, after [shmdt], reports 0:
    the assertion [shm_nattch == 1] of the child fails and the child
    aborts.  The parent then sees 0, 1, 1, 0 and ends with status 0. *)
Theorem child_first_detach_check_fails :
  option_map
    (fun s => (finished s,
               stats (sel Child (sy_trace s)), outcome_of Child s,
               stats (sel Parent (sy_trace s)), outcome_of Parent s))
    (run child_first (boot 1090650114 100 101))
  = Some (true, [1; 0], Some Abort, [0; 1; 1; 0], Some (Exit (Status 0))).
Proof. vm_compute. reflexivity. Qed.

(** When the parent attaches and checks first, every assertion holds. *)
Lemma parent_first_checks_hold :
  option_map
    (fun s => (finished s,
               stats (sel Child (sy_trace s)), outcome_of Child s,
               stats (sel Parent (sy_trace s)), outcome_of Parent s))
    (run parent_first (boot 1090650114 100 101))
  = Some (true, [2; 1], Some (Exit (Status 0)), [0; 1; 1; 0], Some (Exit (Status 0))).
Proof. vm_compute. reflexivity. Qed.

(** On every schedule the attach counts are as [nattch_ok] says: all the
    assertions of the parent hold, and so does the first one of the
    child; the last one of the child fails exactly when the child has
    detached before the parent attached. *)
Lemma nattch_on_every_schedule key ppid cpid sched s :
  0 < ppid -> 0 < cpid ->
  run sched (boot key ppid cpid) = Some s ->
  nattch_ok s = true.
Proof.
  intros Hp Hc Hrun.
  destruct (all_schedules key ppid cpid sched s Hp Hc Hrun) as (Hok & _).
  apply andb_true_iff in Hok as [_ H]. exact H.
Qed.

(** C6.  Over the kernel model, for every key that [ftok] gives and every
    pid of the caller: the segment being created by [shmget], the
    [IPC_STAT] that follows reports the key passed to [shmget], the size
    [NUM * sizeof(int)], the pid that [getpid] returns to the caller, and
    an attach count of 0; the four assertions hold, and [main] goes on to
    [fork]. *)
Theorem stat_after_create key ppid cpid :
  0 < ppid ->
  exists s,
    run (repeat Parent 4) (boot key ppid cpid) = Some s /\
    sel Parent (sy_trace s) =
      [Ev (Ftok "/tmp" 65) key;
       Ev (Shmget key (Shm.NUM * sizeof_int) (IPC_CREAT .|. 438)) 0;
       Ev (Shmctl 0 IPC_STAT) (0, mk_shmid_ds key (Shm.NUM * sizeof_int) ppid 0);
       Ev Getpid ppid] /\
    sel Parent (sy_prog s) = Some (Shm.fork_and_run 0).
Proof.
  intros Hp. exists (checks_done key ppid cpid). split; [| split; reflexivity].
  change (repeat Parent 4) with ([Parent; Parent; Parent] ++ [Parent]).
  change (run _ _) with (run [Parent] (stat_done key ppid cpid)).
  rewrite run_step, step_checks by assumption. reflexivity.
Qed.

(** C6 for the key 1090650114 and the pids 100 and 101. *)
Lemma stat_after_create_witness :
  exists s,
    run (repeat Parent 4) (boot 1090650114 100 101) = Some s /\
    sel Parent (sy_trace s) =
      [Ev (Ftok "/tmp" 65) 1090650114;
       Ev (Shmget 1090650114 (Shm.NUM * sizeof_int) (IPC_CREAT .|. 438)) 0;
       Ev (Shmctl 0 IPC_STAT) (0, mk_shmid_ds 1090650114 (Shm.NUM * sizeof_int) 100 0);
       Ev Getpid 100] /\
    sel Parent (sy_prog s) = Some (Shm.fork_and_run 0).
Proof. apply (stat_after_create 1090650114 100 101). lia. Defined.

(** ** The creator pid *)

Lemma blind_runs c {R : Type} (p : prog R) t res :
  blind c p -> runs p t res -> runs p (List.map (forge_cpid c) t) res.
Proof.
  revert t. induction p as [a | o | X e k IH]; intros t Hb Hr; simpl in *.
  - destruct Hr as [-> ->]. auto.
  - destruct Hr as [-> ->]. auto.
  - destruct Hr as (r & t' & -> & Hr). destruct (Hb r) as [Heq Hb'].
    exists (forge_resp c e r), (List.map (forge_cpid c) t'). split; [reflexivity |].
    rewrite Heq. apply IH; assumption.
Qed.

Lemma blind_bind c {A B : Type} (p : prog A) (f : A -> prog B) :
  blind c p -> (forall a, blind c (f a)) -> blind c (bind p f).
Proof.
  intros Hp Hf. induction p as [a | o | X e k IH]; simpl in *; auto.
  intros r. destruct (Hp r) as [Heq Hb]. split; [rewrite Heq; reflexivity | auto].
Qed.

Lemma blind_for_loop c fuel cond next body i :
  (forall j, blind c (body j)) -> blind c (for_loop fuel cond next body i).
Proof.
  intros Hbody. revert i. induction fuel as [| n IH]; intros i; rewrite for_loop_unfold;
    destruct (cond i); simpl; auto.
  apply blind_bind; auto.
Qed.

Ltac blind_go :=
  repeat first
    [ progress intros
    | split; [reflexivity |]
    | exact I
    | match goal with
      | |- blind _ (bind (for_loop _ _ _ _ _) _) =>
          apply blind_bind; [apply blind_for_loop |]
      | |- blind _ (if ?c then _ else _) => destruct c
      | |- blind _ (bind (if ?c then _ else _) _) => destruct c
      | |- blind _ (match ?x with Some _ => _ | None => _ end) => destruct x
      | |- blind _ (bind (match ?x with Some _ => _ | None => _ end) _) => destruct x
      end
    | progress (simpl; unfold assert)
    | apply blind_bind ].

Lemma blind_child c id : blind c (Shm.child id).
Proof.
  unfold Shm.child, Shm.write_square, access. blind_go.
Qed.

Lemma blind_parent c id : blind c (Shm.parent id).
Proof.
  unfold Shm.parent, Shm.check_square, access. blind_go.
Qed.

Lemma blind_main c : blind c Shm.main.
Proof.
  unfold Shm.main, Shm.after_stat, Shm.assign_cpid, Shm.fork_and_run.
  blind_go; first [apply blind_child | apply blind_parent].
Qed.

(** C9.  The creator pid that [IPC_STAT] reports has no effect on
    [shm.c]: a run in which every [IPC_STAT] reports [c] instead is a run
    too, with the same calls, the same other answers and the same end.
    And [assert(buf.shm_cpid = getpid())] holds for every [buf] as soon as
    [getpid] returns a pid other than 0; it leaves that pid in [buf]. *)
Theorem cpid_check_vacuous :
  (forall c t res,
     runs Shm.main t res -> runs Shm.main (List.map (forge_cpid c) t) res) /\
  (forall buf pid,
     pid <> 0 ->
     runs (Shm.assign_cpid buf) [Ev Getpid pid]
       (Returned (mk_shmid_ds (shm_perm_key buf) (shm_segsz buf) pid (shm_nattch buf)))).
Proof.
  split.
  - intros c t res. apply blind_runs, blind_main.
  - intros buf pid Hpid. unfold Shm.assign_cpid. simpl.
    exists pid, []. split; [reflexivity |].
    apply Z.eqb_neq in Hpid. rewrite Hpid. simpl. auto.
Qed.

(** * Further properties *)

(** ** Executions of a sequence and of a loop *)

Lemma runs_bind {A R : Type} (p : prog A) (f : A -> prog R) t res :
  runs (bind p f) t res <->
  (exists a t1 t2, t = t1 ++ t2 /\ runs p t1 (Returned a) /\ runs (f a) t2 res) \/
  (exists o, res = Halted o /\ runs p t (Halted o)).
Proof.
  revert t. induction p as [a | o | X e k IH]; intros t; simpl.
  - split.
    + intros H. left. exists a, [], t. auto.
    + intros [(a' & t1 & t2 & -> & [-> Ha] & Hf) | (o & _ & _ & Ho)]; [| discriminate].
      injection Ha as ->. exact Hf.
  - split.
    + intros [-> ->]. right. exists o. auto.
    + intros [(a' & t1 & t2 & _ & [_ Ha] & _) | (o' & -> & -> & Ho)]; [discriminate |].
      injection Ho as ->. auto.
  - split.
    + intros (r & t' & -> & H). apply IH in H.
      destruct H as [(a & t1 & t2 & -> & H1 & H2) | (o & -> & H)].
      * left. exists a, (Ev e r :: t1), t2. split; [reflexivity |]. split; [| exact H2].
        exists r, t1. auto.
      * right. exists o. split; [reflexivity |]. exists r, t'. auto.
    + intros [(a & t1 & t2 & -> & (r & t' & -> & H1) & H2) | (o & -> & r & t' & -> & H)].
      * exists r, (t' ++ t2). split; [reflexivity |]. apply IH. left. exists a, t', t2. auto.
      * exists r, t'. split; [reflexivity |]. apply IH. right. exists o. auto.
Qed.

Lemma runs_bind_assoc {A B C : Type} (p : prog A) (f : A -> prog B) (g : B -> prog C)
    t res :
  runs (bind (bind p f) g) t res <-> runs (bind p (fun x => bind (f x) g)) t res.
Proof.
  revert t. induction p as [a | o | X e k IH]; intros t; cbn [bind runs]; try reflexivity.
  split; intros (r & t' & -> & H); exists r, t'; (split; [reflexivity | apply IH, H]).
Qed.

Lemma runs_call_unit {R : Type} (e : sys unit) (f : unit -> prog R) t res :
  runs (bind (call e) f) t res <-> exists t', t = Ev e tt :: t' /\ runs (f tt) t' res.
Proof.
  simpl. split.
  - intros ([] & t' & H). eauto.
  - intros (t' & H). eauto.
Qed.

(** The two ways through [p ;; f]. *)
Lemma runs_seq {R : Type} (p : prog unit) (f : unit -> prog R) t res (A : Prop) :
  runs (bind p f) t res ->
  (forall o, runs p t (Halted o) -> res = Halted o -> A) ->
  (forall t1 t2, t = t1 ++ t2 -> runs p t1 (Returned tt) -> runs (f tt) t2 res -> A) ->
  A.
Proof.
  intros H Hhalt Hret. apply runs_bind in H.
  destruct H as [([] & t1 & t2 & -> & H1 & H2) | (o & -> & H)]; eauto.
Qed.

Lemma same_runs_refl {R : Type} (p : prog R) : same_runs p p.
Proof. intros t res. reflexivity. Qed.

Lemma same_runs_bind {A R : Type} (p q : prog A) (f g : A -> prog R) :
  same_runs p q -> (forall a, same_runs (f a) (g a)) -> same_runs (bind p f) (bind q g).
Proof.
  intros Hp Hf t res. rewrite !runs_bind. split.
  - intros [(a & t1 & t2 & -> & H1 & H2) | (o & -> & H)].
    + left. exists a, t1, t2. split; [reflexivity |]. split; [apply Hp, H1 | apply Hf, H2].
    + right. exists o. split; [reflexivity | apply Hp, H].
  - intros [(a & t1 & t2 & -> & H1 & H2) | (o & -> & H)].
    + left. exists a, t1, t2. split; [reflexivity |]. split; [apply Hp, H1 | apply Hf, H2].
    + right. exists o. split; [reflexivity | apply Hp, H].
Qed.

Lemma same_runs_for_loop fuel cond next (body body' : Z -> prog unit) i :
  (forall j, same_runs (body j) (body' j)) ->
  same_runs (for_loop fuel cond next body i) (for_loop fuel cond next body' i).
Proof.
  intros Hb. revert i. induction fuel as [| n IH]; intros i;
    rewrite (for_loop_unfold _ cond next body i), (for_loop_unfold _ cond next body' i);
    destruct (cond i); try apply same_runs_refl.
  apply same_runs_bind; [apply Hb | intros _; apply IH].
Qed.

Lemma never_runs P {R : Type} (p : prog R) t res :
  never P p -> runs p t res -> existsb P t = false.
Proof.
  revert t. induction p as [a | o | X e k IH]; intros t Hn Hr; simpl in *.
  - destruct Hr as [-> _]. reflexivity.
  - destruct Hr as [-> _]. reflexivity.
  - destruct Hr as (r & t' & -> & Hr). destruct (Hn r) as [Hev Hk].
    simpl. rewrite Hev. simpl. eapply IH; eassumption.
Qed.

Lemma never_bind P {A B : Type} (p : prog A) (f : A -> prog B) :
  never P p -> (forall a, never P (f a)) -> never P (bind p f).
Proof.
  intros Hp Hf. induction p as [a | o | X e k IH]; simpl in *; auto.
  intros r. destruct (Hp r) as [Hev Hk]. split; [exact Hev | auto].
Qed.

Lemma never_for_loop P fuel cond next body i :
  (forall j, never P (body j)) -> never P (for_loop fuel cond next body i).
Proof.
  intros Hbody. revert i. induction fuel as [| n IH]; intros i; rewrite for_loop_unfold;
    destruct (cond i); simpl; auto.
  apply never_bind; auto.
Qed.

Lemma never_bind_call P {R X} (e : sys X) (f : X -> prog R) :
  (forall r, P (Ev e r) = false /\ never P (f r)) -> never P (bind (call e) f).
Proof. intros H. exact H. Qed.

Lemma never_call P {X} (e : sys X) :
  (forall r, P (Ev e r) = false) -> never P (call e).
Proof. intros H r. split; [apply H | exact I]. Qed.

Lemma never_assert P c : never P (assert c).
Proof. destruct c; exact I. Qed.

(* the programs of [shm.c] *)
Ltac never_go :=
  repeat first
    [ progress intros
    | split; [reflexivity |]
    | exact I
    | match goal with
      | |- never _ (bind (for_loop _ _ _ _ _) _) =>
          apply never_bind; [apply never_for_loop |]
      | |- never _ (if ?c then _ else _) => destruct c
      | |- never _ (bind (if ?c then _ else _) _) => destruct c
      | |- never _ (match ?x with Some _ => _ | None => _ end) => destruct x
      | |- never _ (bind (match ?x with Some _ => _ | None => _ end) _) => destruct x
      end
    | progress (simpl; unfold assert)
    | apply never_bind ].

(* the test functions of [mmap.c], given [rw] for [test_memory_rw] *)
Ltac never_step rw :=
  lazymatch goal with
  | |- never _ (bind (call _) _) => apply never_bind_call; intros ?; split; [reflexivity |]
  | |- never _ (call _) => apply never_call; intros ?; reflexivity
  | |- never _ (assert _) => apply never_assert
  | |- never _ (Mmap.test_memory_rw _ _ _ _) => apply rw
  | |- never _ (Halt _) => exact I
  | |- never _ (Ret _) => exact I
  | |- never _ (if ?c then _ else _) => destruct c
  | |- never _ (bind _ _) => apply never_bind; [| intros ?]
  end.

Section LoopRuns.

Variables (cond : Z -> bool) (next : Z -> Z) (body : Z -> prog unit) (bound : Z).

Hypothesis cond_iff : forall i, 0 <= i -> cond i = true <-> i < bound.
Hypothesis next_succ : forall i, 0 <= i -> cond i = true -> next i = i + 1.

Lemma rounds_nil i k : k <= i -> rounds body i k [].
Proof. intros H. unfold rounds. rewrite seqZ_nil by lia. constructor. Qed.

Lemma rounds_cons i k tj ts :
  i < k -> runs (body i) tj (Returned tt) -> rounds body (i + 1) k ts ->
  rounds body i k (tj :: ts).
Proof.
  intros H Hj Hts. unfold rounds. rewrite seqZ_cons by lia. constructor; [exact Hj |].
  replace (Z.succ i) with (i + 1) by lia.
  replace (Z.pred (k - i)) with (k - (i + 1)) by lia. exact Hts.
Qed.

Lemma rounds_inv i k ts :
  rounds body i k ts ->
  (k <= i /\ ts = []) \/
  (exists tj ts', i < k /\ ts = tj :: ts' /\ runs (body i) tj (Returned tt) /\
                  rounds body (i + 1) k ts').
Proof.
  unfold rounds. intros H. destruct (Z_le_gt_dec k i) as [Hle | Hgt].
  - left. rewrite seqZ_nil in H by lia. inversion H. auto.
  - right. rewrite seqZ_cons in H by lia. inversion H as [| j tj js ts' Hj Hts]; subst.
    exists tj, ts'. split; [lia |]. split; [reflexivity |]. split; [exact Hj |].
    replace (Z.succ i) with (i + 1) in Hts by lia.
    replace (Z.pred (k - i)) with (k - (i + 1)) in Hts by lia. exact Hts.
Qed.

Lemma cond_false_bound i : 0 <= i -> cond i = false -> bound <= i.
Proof.
  intros Hi Hc. destruct (Z_le_gt_dec bound i); [assumption |].
  assert (cond i = true) by (apply cond_iff; lia). congruence.
Qed.

(** The executions of a counted loop that come to its end: one complete
    execution of the body per value of the counter, in order. *)
Lemma runs_for_loop_returned fuel i t :
  0 <= i -> bound - i <= Z.of_nat fuel ->
  runs (for_loop fuel cond next body i) t (Returned tt) <->
  exists ts, rounds body i bound ts /\ t = concat ts.
Proof.
  revert i t. induction fuel as [| n IH]; intros i t Hi Hfuel; rewrite for_loop_unfold;
    destruct (cond i) eqn:Hc.
  - apply cond_iff in Hc; lia.
  - apply cond_false_bound in Hc; [| exact Hi]. simpl. split.
    + intros [-> _]. exists []. split; [apply rounds_nil; lia | reflexivity].
    + intros (ts & Hts & ->). apply rounds_inv in Hts.
      destruct Hts as [[_ ->] | (tj & ts' & Hlt & _)]; [auto | lia].
  - pose proof Hc as Hlt. apply cond_iff in Hlt; [| lia].
    rewrite runs_bind, next_succ by assumption. split.
    + intros [(a & t1 & t2 & -> & H1 & H2) | (o & Ho & _)]; [| discriminate].
      destruct a. apply IH in H2; [| lia | lia]. destruct H2 as (ts & Hts & ->).
      exists (t1 :: ts). split; [apply rounds_cons; assumption | reflexivity].
    + intros (ts & Hts & ->). apply rounds_inv in Hts.
      destruct Hts as [[Hle _] | (tj & ts' & _ & -> & Hj & Hts')]; [lia |].
      left. exists tt, tj, (concat ts'). split; [reflexivity |]. split; [exact Hj |].
      apply IH; [lia | lia |]. exists ts'. auto.
  - apply cond_false_bound in Hc; [| exact Hi]. simpl. split.
    + intros [-> _]. exists []. split; [apply rounds_nil; lia | reflexivity].
    + intros (ts & Hts & ->). apply rounds_inv in Hts.
      destruct Hts as [[_ ->] | (tj & ts' & Hlt & _)]; [auto | lia].
Qed.

(** The executions of a counted loop that do not: the rounds before [k]
    complete, and round [k] ends the process. *)
Lemma runs_for_loop_halted fuel i t o :
  0 <= i -> bound - i <= Z.of_nat fuel ->
  runs (for_loop fuel cond next body i) t (Halted o) <->
  exists k ts tk, i <= k < bound /\ rounds body i k ts /\
                  runs (body k) tk (Halted o) /\ t = concat ts ++ tk.
Proof.
  revert i t. induction fuel as [| n IH]; intros i t Hi Hfuel; rewrite for_loop_unfold;
    destruct (cond i) eqn:Hc.
  - apply cond_iff in Hc; lia.
  - apply cond_false_bound in Hc; [| exact Hi]. simpl. split.
    + intros [_ H]. discriminate.
    + intros (k & _ & _ & Hk & _). lia.
  - pose proof Hc as Hlt. apply cond_iff in Hlt; [| lia].
    rewrite runs_bind, next_succ by assumption. split.
    + intros [(a & t1 & t2 & -> & H1 & H2) | (o' & Ho & H)].
      * destruct a. apply IH in H2; [| lia | lia].
        destruct H2 as (k & ts & tk & Hk & Hts & Hhalt & ->).
        exists k, (t1 :: ts), tk. split; [lia |].
        split; [apply rounds_cons; [lia | |]; assumption |].
        split; [exact Hhalt |]. simpl. rewrite app_assoc. reflexivity.
      * injection Ho as <-. exists i, [], t. split; [lia |].
        split; [apply rounds_nil; lia |]. auto.
    + intros (k & ts & tk & Hk & Hts & Hhalt & ->). apply rounds_inv in Hts.
      destruct Hts as [[Hle ->] | (tj & ts' & Hik & -> & Hj & Hts')].
      * assert (k = i) by lia. subst k. right. exists o. auto.
      * left. exists tt, tj, (concat ts' ++ tk).
        split; [simpl; rewrite app_assoc; reflexivity |].
        split; [exact Hj |]. apply IH; [lia | lia |].
        exists k, ts', tk. split; [lia |]. auto.
  - apply cond_false_bound in Hc; [| exact Hi]. simpl. split.
    + intros [_ H]. discriminate.
    + intros (k & _ & _ & Hk & _). lia.
Qed.

End LoopRuns.

(** ** Every execution of [test_memory_rw] *)

Lemma to_char_eqb cs a b : (to_char cs a =? to_char cs b) = (a mod 256 =? b mod 256).
Proof.
  unfold to_char. destruct cs; [| reflexivity].
  destruct (a mod 256 =? b mod 256) eqn:H.
  - apply Z.eqb_eq in H. apply Z.eqb_eq.
    rewrite (Z.add_mod a), (Z.add_mod b), H by lia. reflexivity.
  - apply Z.eqb_neq in H. apply Z.eqb_neq. intros H'. apply H.
    assert (H2 : (a + 128) mod 256 = (b + 128) mod 256) by lia.
    assert (H3 : ((a + 128) + 128) mod 256 = ((b + 128) + 128) mod 256)
      by (rewrite (Z.add_mod (a + 128)), (Z.add_mod (b + 128)), H2 by lia; reflexivity).
    replace (a + 128 + 128) with (a + 1 * 256) in H3 by lia.
    replace (b + 128 + 128) with (b + 1 * 256) in H3 by lia.
    rewrite !Z.mod_add in H3 by lia. exact H3.
Qed.

Lemma runs_rw_write cs ptr j t res :
  runs (Mmap.rw_write cs ptr j) t res <->
  (res = Returned tt /\ t = [Ev (Store8 (ptr + j) (j mod 256)) (Some tt)]) \/
  (res = Halted Segv /\ t = [Ev (Store8 (ptr + j) (j mod 256)) None]).
Proof.
  unfold Mmap.rw_write, access. rewrite to_char_byte, Zmod_mod. simpl. split.
  - intros ([[] |] & t' & -> & [-> ->]); auto.
  - intros [[-> ->] | [-> ->]]; [exists (Some tt), [] | exists None, []]; simpl; auto.
Qed.

Lemma runs_rw_check cs ptr j t res :
  runs (Mmap.rw_check cs ptr j) t res <->
  (exists b, res = Returned tt /\ b mod 256 = j mod 256 /\
             t = [Ev (Load8 (ptr + j)) (Some b)]) \/
  (exists b, res = Halted Abort /\ b mod 256 <> j mod 256 /\
             t = [Ev (Load8 (ptr + j)) (Some b)]) \/
  (res = Halted Segv /\ t = [Ev (Load8 (ptr + j)) None]).
Proof.
  unfold Mmap.rw_check, access, assert. simpl. split.
  - intros ([b |] & t' & -> & H); simpl in H.
    + rewrite to_char_eqb, Zmod_mod in H.
      destruct (b mod 256 =? j mod 256) eqn:Hb; destruct H as [-> ->].
      * left. exists b. apply Z.eqb_eq in Hb. auto.
      * right. left. exists b. apply Z.eqb_neq in Hb. auto.
    + destruct H as [-> ->]. auto.
  - intros [(b & -> & Hb & ->) | [(b & -> & Hb & ->) | [-> ->]]].
    + exists (Some b), []. split; [reflexivity |]. simpl.
      rewrite to_char_eqb, Zmod_mod. apply Z.eqb_eq in Hb. rewrite Hb. simpl. auto.
    + exists (Some b), []. split; [reflexivity |]. simpl.
      rewrite to_char_eqb, Zmod_mod. apply Z.eqb_neq in Hb. rewrite Hb. simpl. auto.
    + exists None, []. simpl. auto.
Qed.

Lemma rounds_write cs ptr i k ts :
  rounds (Mmap.rw_write cs ptr) i k ts <->
  ts = List.map (fun j => [Ev (Store8 (ptr + j) (j mod 256)) (Some tt)]) (seqZ i (k - i)).
Proof.
  unfold rounds. generalize (seqZ i (k - i)) as js. intros js. revert ts.
  induction js as [| j js IH]; intros ts; simpl.
  - split; [intros H; inversion H; reflexivity | intros ->; constructor].
  - split.
    + intros H. inversion H as [| ? tj ? ts' Hj Hts]; subst.
      apply IH in Hts. subst ts'. apply runs_rw_write in Hj.
      destruct Hj as [[_ ->] | [Hj _]]; [reflexivity | discriminate].
    + intros ->. constructor; [| apply IH; reflexivity].
      apply runs_rw_write. auto.
Qed.

Lemma concat_singletons {A B : Type} (f : A -> B) js :
  concat (List.map (fun j => [f j]) js) = List.map f js.
Proof. induction js as [| j js IH]; simpl; [| rewrite IH]; reflexivity. Qed.

Lemma rounds_check_concat cs ptr i k t :
  (exists ts, rounds (Mmap.rw_check cs ptr) i k ts /\ t = concat ts) <->
  exists bs, pattern_bytes (seqZ i (k - i)) bs /\ t = read_back ptr (seqZ i (k - i)) bs.
Proof.
  unfold rounds, pattern_bytes, read_back. generalize (seqZ i (k - i)) as js. intros js.
  revert t. induction js as [| j js IH]; intros t.
  - split.
    + intros (ts & H & ->). inversion H. exists []. split; [constructor | reflexivity].
    + intros (bs & H & ->). inversion H. exists []. split; [constructor | reflexivity].
  - split.
    + intros (ts & H & ->). inversion H as [| ? tj ? ts' Hj Hts]; subst.
      destruct (proj1 (IH (concat ts'))) as (bs & Hbs & Heq); [eauto |].
      apply runs_rw_check in Hj.
      destruct Hj as [(b & _ & Hb & ->) | [(b & Hj & _) | [Hj _]]]; try discriminate.
      exists (b :: bs). split; [constructor; assumption |]. simpl. rewrite Heq. reflexivity.
    + intros (bs & H & ->). inversion H as [| ? b ? bs' Hb Hbs]; subst.
      destruct (proj2 (IH (zip_with (fun j b => Ev (Load8 (ptr + j)) (Some b)) js bs')))
        as (ts & Hts & Heq); [eauto |].
      exists ([Ev (Load8 (ptr + j)) (Some b)] :: ts). split.
      * constructor; [| exact Hts]. apply runs_rw_check. left. exists b. auto.
      * simpl. rewrite Heq. reflexivity.
Qed.

Lemma rw_cond_iff size i : 0 <= i -> Mmap.rw_cond size i = true <-> i < Z.min size 1024.
Proof. intros _. apply rw_cond_spec. Qed.

Lemma rw_next_succ size i :
  0 <= i -> Mmap.rw_cond size i = true -> Mmap.rw_next i = i + 1.
Proof. intros Hi Hc. apply rw_cond_spec in Hc. apply rw_next_small. lia. Qed.

Lemma rw_write_loop_returned cs ptr size t :
  runs (for_loop 1024 (Mmap.rw_cond size) Mmap.rw_next (Mmap.rw_write cs ptr) 0) t
       (Returned tt) <->
  t = pattern_stores ptr (seqZ 0 (Z.min size 1024)).
Proof.
  rewrite (runs_for_loop_returned _ _ _ (Z.min size 1024) (rw_cond_iff size) (rw_next_succ size))
    by (simpl; lia).
  unfold pattern_stores. split.
  - intros (ts & Hts & ->). apply rounds_write in Hts. subst ts.
    rewrite Z.sub_0_r. apply concat_singletons.
  - intros ->. eexists. split; [apply rounds_write; reflexivity |].
    rewrite Z.sub_0_r. symmetry. apply concat_singletons.
Qed.

Lemma rw_check_loop_returned cs ptr size t :
  runs (for_loop 1024 (Mmap.rw_cond size) Mmap.rw_next (Mmap.rw_check cs ptr) 0) t
       (Returned tt) <->
  exists bs, pattern_bytes (seqZ 0 (Z.min size 1024)) bs /\
             t = read_back ptr (seqZ 0 (Z.min size 1024)) bs.
Proof.
  rewrite (runs_for_loop_returned _ _ _ (Z.min size 1024) (rw_cond_iff size) (rw_next_succ size))
    by (simpl; lia).
  rewrite rounds_check_concat, Z.sub_0_r. reflexivity.
Qed.

Lemma rw_write_loop_halted cs ptr size t o :
  runs (for_loop 1024 (Mmap.rw_cond size) Mmap.rw_next (Mmap.rw_write cs ptr) 0) t
       (Halted o) <->
  exists k, 0 <= k < Z.min size 1024 /\ o = Segv /\
            t = pattern_stores ptr (seqZ 0 k) ++ [Ev (Store8 (ptr + k) (k mod 256)) None].
Proof.
  rewrite (runs_for_loop_halted _ _ _ (Z.min size 1024) (rw_cond_iff size) (rw_next_succ size))
    by (simpl; lia).
  unfold pattern_stores. split.
  - intros (k & ts & tk & Hk & Hts & Hhalt & ->). apply rounds_write in Hts. subst ts.
    apply runs_rw_write in Hhalt. destruct Hhalt as [[Hres _] | [Hres ->]]; [discriminate |].
    injection Hres as ->. exists k. rewrite Z.sub_0_r, concat_singletons. auto.
  - intros (k & Hk & -> & ->). eexists k, _, _. split; [exact Hk |].
    split; [apply rounds_write; reflexivity |].
    split; [apply runs_rw_write; right; split; reflexivity |].
    rewrite Z.sub_0_r, concat_singletons. reflexivity.
Qed.

Lemma rw_check_loop_halted cs ptr size t o :
  runs (for_loop 1024 (Mmap.rw_cond size) Mmap.rw_next (Mmap.rw_check cs ptr) 0) t
       (Halted o) <->
  exists k bs r, 0 <= k < Z.min size 1024 /\ pattern_bytes (seqZ 0 k) bs /\
                 bad_load k r o /\
                 t = read_back ptr (seqZ 0 k) bs ++ [Ev (Load8 (ptr + k)) r].
Proof.
  rewrite (runs_for_loop_halted _ _ _ (Z.min size 1024) (rw_cond_iff size) (rw_next_succ size))
    by (simpl; lia).
  split.
  - intros (k & ts & tk & Hk & Hts & Hhalt & ->).
    destruct (proj1 (rounds_check_concat cs ptr 0 k (concat ts))) as (bs & Hbs & Heq);
      [eauto |].
    rewrite Z.sub_0_r in Hbs, Heq. rewrite Heq.
    apply runs_rw_check in Hhalt.
    destruct Hhalt as [(b & Hres & _) | [(b & Hres & Hb & ->) | [Hres ->]]];
      [discriminate | |]; injection Hres as ->.
    + exists k, bs, (Some b). simpl. auto.
    + exists k, bs, None. simpl. auto.
  - intros (k & bs & r & Hk & Hbs & Hr & ->).
    destruct (proj2 (rounds_check_concat cs ptr 0 k (read_back ptr (seqZ 0 k) bs)))
      as (ts & Hts & Heq); [rewrite Z.sub_0_r; eauto |].
    exists k, ts, [Ev (Load8 (ptr + k)) r]. split; [exact Hk |]. split; [exact Hts |].
    split; [| rewrite Heq; reflexivity].
    apply runs_rw_check. destruct r as [b |]; simpl in Hr.
    + destruct Hr as [Hb ->]. right. left. exists b. auto.
    + subst o. auto.
Qed.

(** X1.  The executions of [test_memory_rw] that return are exactly
    these: the first [printf]; one store per offset below
    [min size 1024], in increasing order, of the byte of
    [(char)(i % 256)], none of which faults; then one load per offset, in
    the same order, each returning a byte equal to that of the pattern
    modulo 256; then the second [printf].  With [size] 0 there is no
    access at all. *)
Theorem test_memory_rw_returns cs ptr size pt t :
  runs (Mmap.test_memory_rw cs ptr size pt) t (Returned tt) <->
  exists bs,
    pattern_bytes (seqZ 0 (Z.min size 1024)) bs /\
    t = Ev (Printf "Testing %s memory read/write...\n" [AStr pt]) tt
        :: pattern_stores ptr (seqZ 0 (Z.min size 1024))
        ++ read_back ptr (seqZ 0 (Z.min size 1024)) bs
        ++ [Ev (Printf "%s memory read/write test passed\n" [AStr pt]) tt].
Proof.
  unfold Mmap.test_memory_rw. rewrite runs_call_unit. split.
  - intros (t' & -> & H). apply runs_bind in H.
    destruct H as [(a & t1 & t2 & -> & H1 & H2) | (o & Ho & _)]; [| discriminate].
    destruct a. apply rw_write_loop_returned in H1. subst t1.
    apply runs_bind in H2.
    destruct H2 as [(a & t3 & t4 & -> & H3 & H4) | (o & Ho & _)]; [| discriminate].
    destruct a. apply rw_check_loop_returned in H3. destruct H3 as (bs & Hbs & ->).
    simpl in H4. destruct H4 as ([] & t5 & -> & -> & _).
    exists bs. auto.
  - intros (bs & Hbs & ->). eexists. split; [reflexivity |].
    apply runs_bind. left. eexists tt, _, _. split; [reflexivity |].
    split; [apply rw_write_loop_returned; reflexivity |].
    apply runs_bind. left. eexists tt, _, _. split; [reflexivity |].
    split; [apply rw_check_loop_returned; eauto |].
    exists tt, []. simpl. auto.
Qed.

(** X2.  The executions of [test_memory_rw] that do not return are
    exactly these: a store faults at some offset [k] below
    [min size 1024], after the stores at the offsets below [k], and
    nothing has been loaded; or all the stores are done and the load at
    some offset [k] faults or returns a byte that is not the one of the
    pattern, after the loads at the offsets below [k] returned theirs.  The
    process is killed in the first two cases and aborts in the third; the
    access at [k] is its last event, and the second [printf] is not
    reached. *)
Theorem test_memory_rw_halts cs ptr size pt t o :
  runs (Mmap.test_memory_rw cs ptr size pt) t (Halted o) <->
  exists k, 0 <= k < Z.min size 1024 /\
    ((o = Segv /\
      t = Ev (Printf "Testing %s memory read/write...\n" [AStr pt]) tt
          :: pattern_stores ptr (seqZ 0 k)
          ++ [Ev (Store8 (ptr + k) (k mod 256)) None]) \/
     (exists bs r,
        pattern_bytes (seqZ 0 k) bs /\ bad_load k r o /\
        t = Ev (Printf "Testing %s memory read/write...\n" [AStr pt]) tt
            :: pattern_stores ptr (seqZ 0 (Z.min size 1024))
            ++ read_back ptr (seqZ 0 k) bs
            ++ [Ev (Load8 (ptr + k)) r])).
Proof.
  unfold Mmap.test_memory_rw. rewrite runs_call_unit. split.
  - intros (t' & -> & H). apply runs_bind in H.
    destruct H as [(a & t1 & t2 & -> & H1 & H2) | (o' & Ho & H)].
    + destruct a. apply rw_write_loop_returned in H1. subst t1.
      apply runs_bind in H2.
      destruct H2 as [(a & t3 & t4 & -> & H3 & H4) | (o' & Ho & H)].
      * simpl in H4. destruct H4 as (r & t5 & _ & _ & H4). discriminate.
      * injection Ho as <-. apply rw_check_loop_halted in H.
        destruct H as (k & bs & r & Hk & Hbs & Hr & ->).
        exists k. split; [exact Hk |]. right. exists bs, r. auto.
    + injection Ho as <-. apply rw_write_loop_halted in H.
      destruct H as (k & Hk & -> & ->). exists k. auto.
  - intros (k & Hk & [[-> ->] | (bs & r & Hbs & Hr & ->)]).
    + eexists. split; [reflexivity |]. apply runs_bind. right. exists Segv.
      split; [reflexivity |]. apply rw_write_loop_halted. exists k. auto.
    + eexists. split; [reflexivity |]. apply runs_bind. left.
      eexists tt, _, _. split; [reflexivity |].
      split; [apply rw_write_loop_returned; reflexivity |].
      apply runs_bind. right. exists o. split; [reflexivity |].
      apply rw_check_loop_halted. exists k, bs, r. auto.
Qed.

(** ** Signed and unsigned [char] *)

Lemma rw_write_char cs ptr i : Mmap.rw_write cs ptr i = Mmap.rw_write false ptr i.
Proof. unfold Mmap.rw_write. rewrite !to_char_byte. reflexivity. Qed.

Lemma rw_check_char cs ptr i : same_runs (Mmap.rw_check cs ptr i) (Mmap.rw_check false ptr i).
Proof.
  unfold Mmap.rw_check. apply same_runs_bind; [apply same_runs_refl |].
  intros b. rewrite !to_char_eqb. apply same_runs_refl.
Qed.

Lemma test_memory_rw_char cs ptr size pt :
  same_runs (Mmap.test_memory_rw cs ptr size pt) (Mmap.test_memory_rw false ptr size pt).
Proof.
  unfold Mmap.test_memory_rw.
  apply same_runs_bind; [apply same_runs_refl | intros _].
  apply same_runs_bind.
  { apply same_runs_for_loop. intros j. rewrite rw_write_char. apply same_runs_refl. }
  intros _. apply same_runs_bind; [| intros _; apply same_runs_refl].
  apply same_runs_for_loop. intros j. apply rw_check_char.
Qed.

Ltac same_go :=
  repeat first
    [ apply test_memory_rw_char
    | apply same_runs_bind; [| intros ?]
    | match goal with |- same_runs (if ?c then _ else _) _ => destruct c end
    | apply same_runs_refl ].

Lemma main_char cs : same_runs (Mmap.main cs) (Mmap.main false).
Proof.
  unfold Mmap.main, Mmap.test_individual_alloc_rw_free, Mmap.test_batch_alloc_rw_free,
    Mmap.test_interleaved_alloc_rw_free, Mmap.test_eager_vs_lazy_allocation,
    Mmap.alloc_round, Mmap.test_file_mapping_hugepages, Mmap.test_linear_mapping.
  same_go.
Qed.

(** X3.  [mmap.c] behaves in the same way whether plain [char] is signed
    or not: the byte stored for [(char)(i % 256)] is the same, and the
    comparison [mem[i] == (char)(i % 256)] has the same outcome for every
    byte read, so that the two programs have the same executions, with the
    same calls, the same answers and the same end. *)
Theorem char_signedness_immaterial cs cs' t res :
  runs (Mmap.main cs) t res <-> runs (Mmap.main cs') t res.
Proof.
  rewrite (main_char cs t res), (main_char cs' t res). reflexivity.
Qed.

(** ** [test_memory_rw] over mapped memory *)

Lemma seqZ_first i k : i < k -> seqZ i (k - i) = i :: seqZ (i + 1) (k - (i + 1)).
Proof.
  intros H. rewrite seqZ_cons by lia. f_equal. f_equal; lia.
Qed.

(** The write loop over a mapping that ends at offset [k]. *)
Lemma exec_write_loop_fault cs ptr size k fuel i (m : gmap Z Z) :
  0 <= i <= k -> k < Z.min size 1024 -> 1024 - i <= Z.of_nat fuel ->
  (forall j, i <= j < k -> is_Some (m !! (ptr + j))) ->
  m !! (ptr + k) = None ->
  exists m',
    exec mem_handler
      (for_loop fuel (Mmap.rw_cond size) Mmap.rw_next (Mmap.rw_write cs ptr) i) m
    = Some (pattern_stores ptr (seqZ i (k - i))
              ++ [Ev (Store8 (ptr + k) (k mod 256)) None], Halted Segv, m') /\
    (forall j, i <= j < k -> m' !! (ptr + j) = Some (j mod 256)) /\
    (forall a, ~ (ptr + i <= a < ptr + k) -> m' !! a = m !! a).
Proof.
  revert i m. induction fuel as [| n IH]; intros i m Hi Hk Hfuel Hmap Hend;
    rewrite for_loop_unfold;
    (assert (Hc : Mmap.rw_cond size i = true) by (apply rw_cond_spec; lia)); rewrite Hc.
  - simpl in Hfuel. lia.
  - rewrite exec_bind. destruct (Z.eq_dec i k) as [-> | Hne].
    + exists m. rewrite Z.sub_diag, seqZ_nil by lia. simpl.
      unfold Mmap.rw_write, access. simpl. rewrite Hend, to_char_byte, Zmod_mod. simpl.
      split; [reflexivity |]. split; [intros; lia | reflexivity].
    + destruct (Hmap i ltac:(lia)) as [old Hold].
      rewrite (exec_rw_write cs ptr i m old Hold), rw_next_small by lia.
      destruct (IH (i + 1) (<[ptr + i := i mod 256]> m)) as (m' & He & Hset & Hkeep).
      * lia.
      * lia.
      * lia.
      * intros j Hj. rewrite lookup_insert_ne by lia. apply Hmap. lia.
      * rewrite lookup_insert_ne by lia. exact Hend.
      * rewrite He. exists m'. rewrite (seqZ_first i k) by lia. simpl.
        split; [reflexivity |]. split.
        -- intros j Hj. destruct (Z.eq_dec j i) as [-> | Hji].
           ++ rewrite Hkeep by lia. apply lookup_insert_eq.
           ++ apply Hset. lia.
        -- intros a Ha. rewrite Hkeep by lia. apply lookup_insert_ne. lia.
Qed.

(** X4.  [test_memory_rw] on a mapping that is too short: when the bytes
    at the offsets below [k] are mapped, the byte at offset [k] is not,
    and [k] is below [min size 1024], the process is killed at the store
    to offset [k].  The stores before it are done, nothing is read back,
    the bytes below [k] hold the pattern and every other address holds
    what it held. *)
Theorem test_memory_rw_short_mapping cs (m : gmap Z Z) ptr size k pt :
  0 <= k < Z.min size 1024 ->
  (forall j, 0 <= j < k -> is_Some (m !! (ptr + j))) ->
  m !! (ptr + k) = None ->
  exists m',
    exec mem_handler (Mmap.test_memory_rw cs ptr size pt) m
    = Some (Ev (Printf "Testing %s memory read/write...\n" [AStr pt]) tt
              :: pattern_stores ptr (seqZ 0 k)
              ++ [Ev (Store8 (ptr + k) (k mod 256)) None],
            Halted Segv, m') /\
    (forall j, 0 <= j < k -> m' !! (ptr + j) = Some (j mod 256)) /\
    (forall a, ~ (ptr <= a < ptr + k) -> m' !! a = m !! a).
Proof.
  intros Hk Hmap Hend.
  destruct (exec_write_loop_fault cs ptr size k 1024 0 m) as (m' & He & Hset & Hkeep);
    [lia | lia | simpl; lia | exact Hmap | exact Hend |].
  rewrite Z.sub_0_r in He. exists m'.
  unfold Mmap.test_memory_rw. simpl. rewrite exec_bind, He.
  split; [reflexivity |]. split; [exact Hset |].
  intros a Ha. apply Hkeep. lia.
Qed.

(** X4 at a mapping of two bytes at address 4096, tested as a page. *)
Lemma test_memory_rw_short_mapping_witness :
  exists m',
    exec mem_handler (Mmap.test_memory_rw true 4096 4096 "4KB") (map_zero 4096 2 ∅)
    = Some (Ev (Printf "Testing %s memory read/write...\n" [AStr "4KB"]) tt
              :: pattern_stores 4096 (seqZ 0 2)
              ++ [Ev (Store8 (4096 + 2) (2 mod 256)) None],
            Halted Segv, m') /\
    (forall j, 0 <= j < 2 -> m' !! (4096 + j) = Some (j mod 256)) /\
    (forall a, ~ (4096 <= a < 4096 + 2) -> m' !! a = (map_zero 4096 2 ∅ : gmap Z Z) !! a).
Proof.
  apply (test_memory_rw_short_mapping true (map_zero 4096 2 ∅) 4096 4096 2 "4KB").
  - lia.
  - intros j Hj. assert (Hcases : j = 0 \/ j = 1) by lia.
    destruct Hcases as [-> | ->]; vm_compute; eauto.
  - reflexivity.
Defined.

(** The events of [test_memory_rw] are those of [rw_eventb]. *)
Lemma rw_events cs ptr size pt t res :
  runs (Mmap.test_memory_rw cs ptr size pt) t res ->
  forall ev, In ev t -> rw_eventb ptr size ev = true.
Proof.
  intros Hr.
  pose proof (wp_test_memory_rw cs ptr size
                (fun (ok : bool) ev => ok && rw_eventb ptr size ev) true
                (fun ev H => H) pt) as Hwp.
  rewrite wp_runs in Hwp. destruct (Hwp t res Hr) as [Hok _].
  rewrite fold_left_andb in Hok. simpl in Hok.
  intros ev Hin. eapply forallb_forall in Hok; eauto.
Qed.

Lemma exec_rw_outside cs ptr size pt (m m' : gmap Z Z) t res a :
  exec mem_handler (Mmap.test_memory_rw cs ptr size pt) m = Some (t, res, m') ->
  ~ (ptr <= a < ptr + Z.min size 1024) ->
  m' !! a = m !! a.
Proof.
  intros He Hout. eapply exec_mem_untouched; [exact He |].
  intros [X e r] Hin Ht.
  pose proof (rw_events cs ptr size pt t res (exec_runs _ _ _ _ _ _ He) _ Hin) as Hev.
  apply Hout. destruct e; simpl in Ht; try contradiction; subst;
    simpl in Hev; apply andb_true_iff in Hev; rewrite Z.leb_le, Z.ltb_lt in Hev; exact Hev.
Qed.

Lemma exec_rw_mapped cs ptr size pt (m : gmap Z Z) :
  (forall i, 0 <= i < Z.min size 1024 -> is_Some (m !! (ptr + i))) ->
  exists t m',
    exec mem_handler (Mmap.test_memory_rw cs ptr size pt) m = Some (t, Returned tt, m') /\
    forall i, 0 <= i < Z.min size 1024 -> m' !! (ptr + i) = Some (i mod 256).
Proof.
  intros Hmap.
  destruct (exec_write_loop cs ptr size 1024 0 m) as (t1 & m' & He1 & Hset & _);
    [lia | simpl; lia | intros; apply Hmap; lia |].
  destruct (exec_check_loop cs ptr size 1024 0 m') as (t2 & He2 & Hin);
    [lia | simpl; lia | intros; apply Hset; lia |].
  unfold Mmap.test_memory_rw. simpl.
  rewrite exec_bind, He1, exec_bind, He2. simpl.
  eexists _, m'. split; [reflexivity |]. intros i Hi. apply Hset. lia.
Qed.

(** X5.  [test_memory_rw] twice on the same mapping: over mapped memory a
    second call on the same [ptr] and [size] returns as the first one did
    and leaves the memory as the first one left it. *)
Theorem test_memory_rw_twice cs (m : gmap Z Z) ptr size pt pt' :
  (forall i, 0 <= i < Z.min size 1024 -> is_Some (m !! (ptr + i))) ->
  exists t t' m',
    exec mem_handler (Mmap.test_memory_rw cs ptr size pt) m = Some (t, Returned tt, m') /\
    exec mem_handler (Mmap.test_memory_rw cs ptr size pt') m' = Some (t', Returned tt, m').
Proof.
  intros Hmap.
  destruct (exec_rw_mapped cs ptr size pt m Hmap) as (t & m' & He & Hset).
  destruct (exec_rw_mapped cs ptr size pt' m') as (t' & m'' & He' & Hset').
  { intros i Hi. rewrite Hset by exact Hi. eauto. }
  exists t, t', m'. split; [exact He |].
  replace m'' with m' in He'; [exact He' |].
  apply map_eq. intros a.
  destruct (Z_le_gt_dec ptr a) as [Hlo | Hlo];
    [destruct (Z_lt_ge_dec a (ptr + Z.min size 1024)) as [Hhi | Hhi] |].
  - replace a with (ptr + (a - ptr)) by lia.
    rewrite Hset, Hset' by lia. reflexivity.
  - symmetry. eapply exec_rw_outside; [exact He' | lia].
  - symmetry. eapply exec_rw_outside; [exact He' | lia].
Qed.

(** X5 at a mapping of three bytes at address 4096. *)
Lemma test_memory_rw_twice_witness :
  exists t t' m',
    exec mem_handler (Mmap.test_memory_rw true 4096 3 "4KB") (map_zero 4096 3 ∅)
    = Some (t, Returned tt, m') /\
    exec mem_handler (Mmap.test_memory_rw true 4096 3 "4KB again") m'
    = Some (t', Returned tt, m').
Proof.
  apply (test_memory_rw_twice true (map_zero 4096 3 ∅) 4096 3 "4KB" "4KB again").
  intros i Hi. assert (Hcases : i = 0 \/ i = 1 \/ i = 2) by lia.
  destruct Hcases as [-> | [-> | ->]]; vm_compute; eauto.
Defined.

(** ** Observers of the test functions of [mmap.c] *)

(* one step through a test function, for an observer normalised by [norm]
   that the events of [test_memory_rw] leave where it is by [quiet] *)
Ltac obs_step norm quiet :=
  lazymatch goal with
  | |- wp _ (bind (call _) _) _ _ => apply wp_bind_call; intros ?; cbv beta; norm
  | |- wp _ (call _) _ _ => apply wp_last_call; intros ?; cbv beta iota; norm
  | |- wp _ (bind (assert ?c) _) _ _ =>
      apply wp_bind_assert; case_on c; cbn [negb andb]; cbv beta iota; norm
  | |- wp _ (assert ?c) _ _ =>
      apply wp_last_assert; case_on c; cbn [negb andb]; cbv beta iota; norm
  | |- wp _ (bind (Mmap.test_memory_rw _ _ _ _) _) _ _ =>
      apply wp_bind;
      eapply wp_mono; [| apply wp_test_memory_rw; quiet];
      (let H := fresh in intros ? ? [-> H]; destruct H as [-> | [-> | ->]]); cbv beta iota
  | |- wp _ (bind (if ?c then _ else _) _) _ _ =>
      case_on c; cbn [negb andb]; cbv beta iota; norm
  | |- wp _ (if ?c then _ else _) _ _ =>
      case_on c; cbn [negb andb]; cbv beta iota; norm
  | |- wp _ (bind (bind _ _) _) _ _ => apply wp_bind
  end.

Lemma peak_quiet ptr size out n b :
  (length out <= n)%nat -> held_bytes (Some out) <= b ->
  forall ev, rw_eventb ptr size ev = true ->
             peak_step (Some out, (n, b)) ev = (Some out, (n, b)).
Proof.
  intros Hn Hb ev. destruct ev as [X e r].
  destruct e; simpl; intros; try discriminate; unfold peak_step;
    cbn [fst snd track held]; repeat f_equal; lia.
Qed.

Lemma peak_event st n b X (e : sys X) (r : X) :
  peak_step (st, (n, b)) (Ev e r) =
  (track st (Ev e r),
   (Nat.max n (held (track st (Ev e r))), Z.max b (held_bytes (track st (Ev e r))))).
Proof. reflexivity. Qed.

Lemma peak_held t st x :
  fst (fold_left peak_step t (st, x)) = fold_left track t st.
Proof.
  revert st x. induction t as [| ev t IH]; intros st x; simpl; [reflexivity |].
  unfold peak_step at 2. cbn [fst snd]. apply IH.
Qed.

Ltac eval_max :=
  repeat match goal with
    | |- context [Z.max ?a ?b] =>
        closed_term a; closed_term b;
        let v := eval vm_compute in (Z.max a b) in
        change (Z.max a b) with v
    end.

Ltac pk_norm :=
  rewrite ?peak_event; simp_state; cbn [track]; simp_state;
  cbn [held held_bytes length fold_right snd Nat.max]; eval_max.

Ltac pk_leaf :=
  solve [ pk_norm; unfold peak_post; cbn [fst snd];
          split; [split; [lia | vm_compute; discriminate]
                 | intros; try discriminate; reflexivity] ].

Ltac pk_quiet := apply peak_quiet; [simpl; lia | vm_compute; discriminate].

Ltac pk_run :=
  repeat (lazymatch goal with
          | |- wp _ _ _ _ => obs_step ltac:(pk_norm) ltac:(pk_quiet)
          | |- _ => pk_leaf
          end).

Lemma test_individual_peak cs :
  wp peak_step (Mmap.test_individual_alloc_rw_free cs) peak_init (peak_post 1 SZ_1G).
Proof.
  unfold Mmap.test_individual_alloc_rw_free, Mmap.say, Mmap.say_ptr, peak_init.
  pk_run.
Qed.

Lemma test_batch_peak cs :
  wp peak_step (Mmap.test_batch_alloc_rw_free cs) peak_init
     (peak_post 3 (SZ_4K + SZ_2M + SZ_1G)).
Proof.
  unfold Mmap.test_batch_alloc_rw_free, Mmap.say, Mmap.say_ptr, peak_init.
  pk_run.
Qed.

Lemma test_interleaved_peak cs :
  wp peak_step (Mmap.test_interleaved_alloc_rw_free cs) peak_init
     (peak_post 2 (SZ_2M + SZ_1G)).
Proof.
  unfold Mmap.test_interleaved_alloc_rw_free, Mmap.say, Mmap.say_ptr, peak_init.
  pk_run.
Qed.

Lemma test_eager_vs_lazy_peak cs :
  wp peak_step (Mmap.test_eager_vs_lazy_allocation cs) peak_init (peak_post 1 SZ_1G).
Proof.
  unfold Mmap.test_eager_vs_lazy_allocation, Mmap.alloc_round, Mmap.say, peak_init.
  pk_run.
Qed.

(** From [peak_post] to the regions of a trace. *)
Lemma peak_of_runs (p : prog unit) n b t res :
  wp peak_step p peak_init (peak_post n b) ->
  runs p t res ->
  (fst (peak t) <= n)%nat /\ snd (peak t) <= b /\
  (res = Returned tt -> peak t = (n, b) /\ outstanding t = Some []).
Proof.
  intros Hwp Hr. rewrite wp_runs in Hwp. destruct (Hwp t res Hr) as [[Hn Hb] Hret].
  split; [exact Hn |]. split; [exact Hb |].
  intros Hres. specialize (Hret Hres). unfold peak, outstanding.
  rewrite <- (peak_held t (Some []) (0%nat, 0)). fold peak_init. rewrite Hret.
  split; reflexivity.
Qed.

(** X6.  [test_individual_alloc_rw_free] holds one region at a time: on
    every execution it never holds more than one region, nor more than
    1GB; when it returns it has held the 1GB region, and every region it
    mapped has been unmapped. *)
Theorem individual_holds_one cs t res :
  runs (Mmap.test_individual_alloc_rw_free cs) t res ->
  (fst (peak t) <= 1)%nat /\ snd (peak t) <= SZ_1G /\
  (res = Returned tt -> peak t = (1%nat, SZ_1G) /\ outstanding t = Some []).
Proof. apply peak_of_runs, test_individual_peak. Qed.

(** X6 at the run on which every call succeeds. *)
Lemma individual_holds_one_witness :
  (fst (peak (trace_of individual_run)) <= 1)%nat /\
  snd (peak (trace_of individual_run)) <= SZ_1G /\
  (Returned tt = Returned tt ->
   peak (trace_of individual_run) = (1%nat, SZ_1G) /\
   outstanding (trace_of individual_run) = Some []).
Proof.
  apply (individual_holds_one true (trace_of individual_run) (Returned tt)).
  apply exec_runs_of. vm_compute. reflexivity.
Defined.

(** X7.  [test_batch_alloc_rw_free] holds its three regions at once: on
    every execution it never holds more than three regions, nor more than
    4KB + 2MB + 1GB; when it returns it has held all three together, and
    every region it mapped has been unmapped. *)
Theorem batch_holds_three cs t res :
  runs (Mmap.test_batch_alloc_rw_free cs) t res ->
  (fst (peak t) <= 3)%nat /\ snd (peak t) <= SZ_4K + SZ_2M + SZ_1G /\
  (res = Returned tt ->
   peak t = (3%nat, SZ_4K + SZ_2M + SZ_1G) /\ outstanding t = Some []).
Proof. apply peak_of_runs, test_batch_peak. Qed.

(** X7 at the run on which every call succeeds. *)
Lemma batch_holds_three_witness :
  (fst (peak (trace_of batch_run)) <= 3)%nat /\
  snd (peak (trace_of batch_run)) <= SZ_4K + SZ_2M + SZ_1G /\
  (Returned tt = Returned tt ->
   peak (trace_of batch_run) = (3%nat, SZ_4K + SZ_2M + SZ_1G) /\
   outstanding (trace_of batch_run) = Some []).
Proof.
  apply (batch_holds_three true (trace_of batch_run) (Returned tt)).
  apply exec_runs_of. vm_compute. reflexivity.
Defined.

(** X8.  [test_interleaved_alloc_rw_free] holds at most two regions at
    once: the 4KB region is unmapped before the 1GB region is mapped.  On
    every execution it never holds more than two regions, nor more than
    2MB + 1GB; when it returns it has held the 2MB and the 1GB region
    together, and every region it mapped has been unmapped. *)
Theorem interleaved_holds_two cs t res :
  runs (Mmap.test_interleaved_alloc_rw_free cs) t res ->
  (fst (peak t) <= 2)%nat /\ snd (peak t) <= SZ_2M + SZ_1G /\
  (res = Returned tt ->
   peak t = (2%nat, SZ_2M + SZ_1G) /\ outstanding t = Some []).
Proof. apply peak_of_runs, test_interleaved_peak. Qed.

(** X8 at the run on which every call succeeds. *)
Lemma interleaved_holds_two_witness :
  (fst (peak (trace_of interleaved_run)) <= 2)%nat /\
  snd (peak (trace_of interleaved_run)) <= SZ_2M + SZ_1G /\
  (Returned tt = Returned tt ->
   peak (trace_of interleaved_run) = (2%nat, SZ_2M + SZ_1G) /\
   outstanding (trace_of interleaved_run) = Some []).
Proof.
  apply (interleaved_holds_two true (trace_of interleaved_run) (Returned tt)).
  apply exec_runs_of. vm_compute. reflexivity.
Defined.

(** X17.  [test_eager_vs_lazy_allocation] holds one region at a time:
    each of its six rounds unmaps its region before the next one maps.  On
    every execution it never holds more than one region, nor more than
    1GB; when it returns it has held a 1GB region, and every region it
    mapped has been unmapped. *)
Theorem eager_lazy_holds_one cs t res :
  runs (Mmap.test_eager_vs_lazy_allocation cs) t res ->
  (fst (peak t) <= 1)%nat /\ snd (peak t) <= SZ_1G /\
  (res = Returned tt -> peak t = (1%nat, SZ_1G) /\ outstanding t = Some []).
Proof. apply peak_of_runs, test_eager_vs_lazy_peak. Qed.

(** X17 at the run on which every call succeeds. *)
Lemma eager_lazy_holds_one_witness :
  (fst (peak (trace_of eager_lazy_run)) <= 1)%nat /\
  snd (peak (trace_of eager_lazy_run)) <= SZ_1G /\
  (Returned tt = Returned tt ->
   peak (trace_of eager_lazy_run) = (1%nat, SZ_1G) /\
   outstanding (trace_of eager_lazy_run) = Some []).
Proof.
  apply (eager_lazy_holds_one true (trace_of eager_lazy_run) (Returned tt)).
  apply exec_runs_of. vm_compute. reflexivity.
Defined.

(** ** [test_linear_mapping] when no address can be had *)

Ltac next_event H Hf :=
  let r := fresh "r" in
  let t := fresh "t" in
  let Hr := fresh "Hr" in
  cbn [runs bind call] in H; destruct H as (r & t & -> & H);
  cbn [forallb mmap_failed failed] in Hf;
  apply andb_true_iff in Hf; destruct Hf as [Hr Hf];
  first [ apply Z.eqb_eq in Hr; subst r;
          change (negb (MAP_FAILED =? MAP_FAILED)) with false in H;
          cbn [andb] in H; cbv iota in H
        | clear Hr; try destruct r ].

(** X9.  [test_linear_mapping] steps over the failure of each of its
    fixed-address [mmap]s: when all three fail, it reports each failure,
    makes no access to memory and no [munmap], and returns; the run is
    [linear_all_failed], event for event. *)
Theorem test_linear_mapping_all_fail cs t res :
  runs (Mmap.test_linear_mapping cs) t res ->
  forallb mmap_failed t = true ->
  t = linear_all_failed /\ res = Returned tt.
Proof.
  unfold Mmap.test_linear_mapping, Mmap.say, Mmap.say_ptr. intros H Hf.
  do 8 next_event H Hf.
  cbn [runs] in H. destruct H as [-> ->]. split; reflexivity.
Qed.

(** X9 at the run by script on which every [mmap] fails. *)
Lemma test_linear_mapping_all_fail_witness :
  trace_of linear_failed_run = linear_all_failed /\ @Returned unit tt = Returned tt.
Proof.
  apply (test_linear_mapping_all_fail true (trace_of linear_failed_run) (Returned tt)).
  - apply exec_runs_of. vm_compute. reflexivity.
  - vm_compute. reflexivity.
Defined.

(** ** The file of [test_file_mapping_hugepages] *)

Lemma file_quiet ptr size s ev : rw_eventb ptr size ev = true -> file_step s ev = s.
Proof.
  destruct ev as [X e r]. destruct e; simpl; intros; try discriminate; reflexivity.
Qed.

Ltac eval_string_eqb :=
  repeat match goal with
    | |- context [String.eqb ?a ?b] =>
        closed_term a; closed_term b;
        let v := eval vm_compute in (String.eqb a b) in
        change (String.eqb a b) with v
    end.

Ltac file_norm :=
  cbn [file_step uses opened_path fs_path fs_fd fs_close_called fs_unlink_called fs_ok];
  nonneg_fd; rewrite ?Z.eqb_refl; use_hyps; eval_closed; eval_string_eqb;
  cbn [andb orb negb].

Ltac file_leaf :=
  solve [ file_norm; unfold file_post;
          cbn [fs_path fs_fd fs_close_called fs_unlink_called fs_ok];
          repeat split; reflexivity ].

Ltac file_go :=
  repeat (lazymatch goal with
          | |- wp _ _ _ _ => obs_step ltac:(file_norm) ltac:(apply file_quiet)
          | |- _ => file_leaf
          end).

Lemma test_file_mapping_file cs :
  wp file_step (Mmap.test_file_mapping_hugepages cs) file_init file_post.
Proof.
  unfold Mmap.test_file_mapping_hugepages, Mmap.say, Mmap.say_ptr, file_init.
  file_go.
Qed.

(** X10.  The calls on the file of [test_file_mapping_hugepages]: on
    every execution the function calls [open] once; each [write], [lseek],
    file-backed [mmap] and [close] names the descriptor that [open]
    returned, that descriptor is not negative, and the call is made before
    [close] is; [unlink] is called once, after [close], on the path that
    was given to [open].  When the function returns, it has called [close]
    and then [unlink] on "/tmp/test_file"; when it does not (an assertion
    fails, or an access faults), it has called neither.  What [close] and
    [unlink] return is not looked at: that the descriptor is closed and
    the file gone is for the kernel, and not claimed. *)
Theorem file_close_and_unlink_called cs t res :
  runs (Mmap.test_file_mapping_hugepages cs) t res ->
  fs_ok (fold_left file_step t file_init) = true /\
  match res with
  | Returned _ =>
      fs_close_called (fold_left file_step t file_init) = true /\
      fs_unlink_called (fold_left file_step t file_init) = true /\
      fs_path (fold_left file_step t file_init) = Some "/tmp/test_file"%string
  | Halted _ =>
      fs_close_called (fold_left file_step t file_init) = false /\
      fs_unlink_called (fold_left file_step t file_init) = false
  end.
Proof.
  intros Hr. pose proof (test_file_mapping_file cs) as Hwp.
  rewrite wp_runs in Hwp. exact (Hwp t res Hr).
Qed.

(** X10 at the run on which the file-backed 2MB [mmap] fails. *)
Lemma file_close_and_unlink_called_witness :
  fs_ok (fold_left file_step (trace_of file_mapping_run) file_init) = true /\
  fs_close_called (fold_left file_step (trace_of file_mapping_run) file_init) = true /\
  fs_unlink_called (fold_left file_step (trace_of file_mapping_run) file_init) = true /\
  fs_path (fold_left file_step (trace_of file_mapping_run) file_init)
  = Some "/tmp/test_file"%string.
Proof.
  apply (file_close_and_unlink_called true (trace_of file_mapping_run) (Returned tt)).
  apply exec_runs_of. vm_compute. reflexivity.
Defined.

(** ** The last line of [mmap.c] *)

Lemma rw_never_completed cs ptr size pt :
  never is_completed (Mmap.test_memory_rw cs ptr size pt).
Proof.
  unfold Mmap.test_memory_rw, Mmap.rw_write, Mmap.rw_check, access.
  never_go.
Qed.

Lemma tests_never_completed cs :
  never is_completed (Mmap.test_individual_alloc_rw_free cs) /\
  never is_completed (Mmap.test_batch_alloc_rw_free cs) /\
  never is_completed (Mmap.test_interleaved_alloc_rw_free cs) /\
  never is_completed (Mmap.test_eager_vs_lazy_allocation cs) /\
  never is_completed (Mmap.test_file_mapping_hugepages cs) /\
  never is_completed (Mmap.test_linear_mapping cs).
Proof.
  unfold Mmap.test_individual_alloc_rw_free, Mmap.test_batch_alloc_rw_free,
    Mmap.test_interleaved_alloc_rw_free, Mmap.test_eager_vs_lazy_allocation,
    Mmap.alloc_round, Mmap.test_file_mapping_hugepages, Mmap.test_linear_mapping,
    Mmap.say, Mmap.say_ptr.
  repeat split; repeat never_step rw_never_completed.
Qed.

(** How a test function of [mmap.c] may end short of returning. *)
Lemma test_halts (p : prog unit) t o :
  wp mmap_obs p (mmap_obs_init []) (test_post []) ->
  runs p t (Halted o) -> o = Abort \/ o = Segv.
Proof.
  intros Hwp Hr. rewrite wp_runs in Hwp. apply Hwp in Hr. simpl in Hr. tauto.
Qed.

(* through the call of a test function in [main]: it ends the process,
   without the last line, or it returns, without the last line so far *)
Ltac through H N lem :=
  apply runs_seq with (1 := H); clear H;
  [ let o := fresh "o" in
    let Hr := fresh "Hr" in
    intros o Hr ->; rewrite ?existsb_app;
    repeat match goal with Hn : existsb is_completed _ = false |- _ => rewrite Hn end;
    rewrite (never_runs _ _ _ _ N Hr);
    destruct (test_halts _ _ _ (lem _ _) Hr) as [-> | ->];
    split; discriminate
  | let Hr := fresh "Hr" in
    let t1 := fresh "t" in
    let t2 := fresh "t" in
    intros t1 t2 -> Hr H; apply (never_runs _ _ _ _ N) in Hr ].

(** X11.  The last line of [mmap.c] tells how it ended: on every
    execution, "All hugepage tests completed successfully!" is printed
    exactly when the process ends with status 0.  No test function prints
    it, and none ends the process with a status. *)
Theorem completed_iff_status_0 cs t res :
  runs (Mmap.main cs) t res ->
  existsb is_completed t = true <-> res = Halted (Exit (Status 0)).
Proof.
  destruct (tests_never_completed cs) as (N1 & N2 & N3 & N4 & N5 & N6).
  unfold Mmap.main, Mmap.say. intros H.
  apply runs_call_unit in H. destruct H as (t0 & -> & H).
  cbn [existsb is_completed].
  change (String.eqb _ _) with false. cbn [orb].
  through H N1 test_individual_obs.
  through H N2 test_batch_obs.
  through H N3 test_interleaved_obs.
  through H N4 test_eager_vs_lazy_obs.
  through H N5 test_file_mapping_obs.
  through H N6 test_linear_obs.
  cbn [runs bind call] in H. destruct H as ([] & t' & -> & -> & ->).
  rewrite !existsb_app. cbn. repeat rewrite orb_true_r. split; reflexivity.
Qed.

(** X11 at the run on which every call succeeds. *)
Lemma completed_iff_status_0_witness :
  existsb is_completed (trace_of full_run) = true <->
  @Halted unit (Exit (Status 0)) = Halted (Exit (Status 0)).
Proof.
  apply (completed_iff_status_0 true (trace_of full_run) (Halted (Exit (Status 0)))).
  apply exec_runs_of. vm_compute. reflexivity.
Defined.

(** ** [main] of [shm.c] around [fork] *)

Lemma main_cases t res :
  runs Shm.main t res ->
  forallb before_fork t = true \/
  exists key id st pid r t',
    t = to_fork key id st pid r ++ t' /\ checks_passed key id st pid /\
    runs (after_fork id r) t' res.
Proof.
  unfold Shm.main. intros H.
  cbn [runs bind call] in H. destruct H as (key & t1 & -> & id & t2 & -> & H).
  destruct (id =? -1) eqn:Hid.
  { cbn [runs bind call] in H. destruct H as (? & ? & -> & -> & _). left. reflexivity. }
  cbn [runs bind call] in H. destruct H as (st & t3 & -> & H).
  destruct (fst st =? -1) eqn:Hst.
  { cbn [runs bind call] in H. destruct H as (? & ? & -> & -> & _). left. reflexivity. }
  unfold Shm.after_stat, Shm.assign_cpid, assert in H.
  destruct (shm_perm_key (snd st) =? key) eqn:Hkey;
    [| cbn [runs bind] in H; destruct H as [-> _]; left; reflexivity].
  cbn [runs bind call] in H. destruct H as (pid & t4 & -> & H).
  cbn [shm_cpid shm_nattch shm_segsz] in H.
  destruct (pid =? 0) eqn:Hpid;
    [cbn [runs bind negb] in H; destruct H as [-> _]; left; reflexivity |].
  cbn [negb bind shm_cpid shm_nattch shm_segsz shm_perm_key] in H.
  destruct (shm_nattch (snd st) =? 0) eqn:Hn;
    [| cbn [runs bind] in H; destruct H as [-> _]; left; reflexivity].
  cbn [bind] in H.
  destruct (shm_segsz (snd st) =? Shm.segment_size) eqn:Hsz;
    [| cbn [runs bind] in H; destruct H as [-> _]; left; reflexivity].
  cbn [bind] in H. unfold Shm.fork_and_run in H.
  cbn [runs bind call] in H. destruct H as (r & t5 & -> & H).
  right. exists key, id, st, pid, r, t5.
  split; [reflexivity |].
  rewrite Z.eqb_neq in Hid, Hst, Hpid. rewrite Z.eqb_eq in Hkey, Hn, Hsz.
  split; [repeat split; assumption | exact H].
Qed.

Lemma before_fork_none P t :
  (forall ev, before_fork ev = true -> P ev = false) ->
  forallb before_fork t = true -> existsb P t = false.
Proof.
  intros HP. induction t as [| ev t IH]; simpl; [reflexivity |].
  intros H. apply andb_true_iff in H as [Hev Ht]. rewrite (HP ev Hev), IH by exact Ht.
  reflexivity.
Qed.

Lemma before_fork_not_fork ev : before_fork ev = true -> is_fork ev = false.
Proof. destruct ev as [X e r]. destruct e; simpl; intros; try discriminate; reflexivity. Qed.

Lemma before_fork_not_passed ev : before_fork ev = true -> is_passed ev = false.
Proof. destruct ev as [X e r]. destruct e; simpl; intros; try discriminate; reflexivity. Qed.

Lemma child_no_fork id : never is_fork (Shm.child id).
Proof. unfold Shm.child, Shm.write_square, access. never_go. Qed.

Lemma parent_no_fork id : never is_fork (Shm.parent id).
Proof. unfold Shm.parent, Shm.check_square, access. never_go. Qed.



Lemma child_never_passed id : never is_passed (Shm.child id).
Proof. unfold Shm.child, Shm.write_square, access. never_go. Qed.

Lemma after_fork_no_fork id r t res :
  runs (after_fork id r) t res -> existsb is_fork t = false.
Proof.
  apply never_runs. unfold after_fork.
  destruct (r =? -1); [never_go |].
  apply never_bind; [| never_go].
  destruct (r =? 0); [apply child_no_fork | apply parent_no_fork].
Qed.


Lemma parent_run_runs :
  runs Shm.main (trace_of parent_run) (Halted (Exit (Status 0))).
Proof. apply exec_runs_of. vm_compute. reflexivity. Qed.


(** X12.  [shm.c] calls [fork] once, and only when everything before it
    went well: on every execution on which [fork] is called, the events
    before it are [ftok], [shmget], [IPC_STAT] and [getpid], in this
    order; [shmget] and [shmctl] did not return -1; the key, the attach
    count 0 and the size [NUM * sizeof(int)] that [IPC_STAT] reported
    passed their assertions; [getpid] did not return 0; and no other
    [fork] follows. *)
Theorem fork_after_checks t res :
  runs Shm.main t res ->
  existsb is_fork t = true ->
  exists key id st pid r t',
    t = to_fork key id st pid r ++ t' /\ checks_passed key id st pid /\
    existsb is_fork t' = false.
Proof.
  intros H Hf.
  destruct (main_cases t res H) as [Hb | (key & id & st & pid & r & t' & -> & Hc & Hr)].
  { rewrite (before_fork_none is_fork t before_fork_not_fork Hb) in Hf. discriminate. }
  exists key, id, st, pid, r, t'. split; [reflexivity |]. split; [exact Hc |].
  eapply after_fork_no_fork, Hr.
Qed.

(** X12 at the run on which [fork] fails. *)
Lemma fork_after_checks_witness :
  exists key id st pid r t',
    fork_fails = to_fork key id st pid r ++ t' /\ checks_passed key id st pid /\
    existsb is_fork t' = false.
Proof.
  apply (fork_after_checks fork_fails (Halted (Exit (Status 1)))).
  - exact fork_fails_runs.
  - reflexivity.
Defined.



(** ** The use of the segment *)

Lemma in_segment_elem p i : 0 <= i < 10 -> in_segment (Some p) (Shm.elem p i) = true.
Proof.
  intros Hi. unfold in_segment, Shm.elem, sizeof_int.
  change Shm.segment_size with 40000.
  apply andb_true_iff. rewrite !Z.leb_le. lia.
Qed.

Lemma write_loop_use p w :
  wp use_step (for_loop 10 Shm.loop_cond Shm.loop_next (Shm.write_square p) 0)
     (mk_use (Some p) w true) (loop_post (mk_use (Some p) w true)).
Proof.
  apply (wp_for_loop use_step _ _ _ _ 10);
    [exact shm_loop_cond | exact shm_loop_next | | lia | simpl; lia].
  intros i Hi Hc. apply shm_loop_cond in Hc.
  unfold Shm.write_square, access. cbn [wp bind call]. intros r.
  cbn [use_step us_ptr us_waited us_ok andb]. rewrite in_segment_elem by lia.
  destruct r as [[] |]; (split; [reflexivity | auto]).
Qed.

Lemma check_loop_use p :
  wp use_step (for_loop 10 Shm.loop_cond Shm.loop_next (Shm.check_square p) 0)
     (mk_use (Some p) true true) (loop_post (mk_use (Some p) true true)).
Proof.
  apply (wp_for_loop use_step _ _ _ _ 10);
    [exact shm_loop_cond | exact shm_loop_next | | lia | simpl; lia].
  intros i Hi Hc. apply shm_loop_cond in Hc.
  unfold Shm.check_square, access, assert. cbn [wp bind call]. intros r.
  cbn [use_step us_ptr us_waited us_ok andb]. rewrite in_segment_elem by lia.
  destruct r as [v |]; cbn [wp bind]; [destruct (v =? int_wrap (i * i)); cbn [wp] |];
    (split; [reflexivity | auto]).
Qed.

Lemma loop_post_cases {S : Type} (step : S -> event -> S) (s : S)
    (Q : result unit -> S -> Prop) (p : prog unit) :
  wp step p s (loop_post s) ->
  Q (Returned tt) s -> Q (Halted Abort) s -> Q (Halted Segv) s ->
  wp step p s Q.
Proof.
  intros Hp H1 H2 H3. eapply wp_mono; [| exact Hp].
  intros res s' [-> [-> | [-> | ->]]]; assumption.
Qed.

Ltac use_norm := cbn [use_step us_ptr us_waited us_ok andb].

Ltac use_go :=
  lazymatch goal with
  | |- wp _ (bind (call _) _) _ _ => apply wp_bind_call; intros ?; cbv beta zeta; use_norm
  | |- wp _ (call _) _ _ => apply wp_last_call; intros ?; cbv beta iota zeta; use_norm
  | |- wp _ (bind (assert ?c) _) _ _ =>
      apply wp_bind_assert; case_on c; cbn [negb andb orb]; cbv beta iota zeta
  | |- wp _ (assert ?c) _ _ =>
      apply wp_last_assert; case_on c; cbn [negb andb orb]; cbv beta iota zeta
  | |- wp _ (bind (for_loop _ _ _ (Shm.write_square _) _) _) _ _ =>
      apply wp_bind; apply loop_post_cases; [apply write_loop_use | | |]; cbv beta iota
  | |- wp _ (bind (for_loop _ _ _ (Shm.check_square _) _) _) _ _ =>
      apply wp_bind; apply loop_post_cases; [apply check_loop_use | | |]; cbv beta iota
  | |- wp _ (Halt _) _ _ => cbn [wp]
  | |- wp _ (Ret _) _ _ => cbn [wp]
  | |- wp _ (bind (Halt _) _) _ _ => cbn [wp bind]
  | |- wp _ (bind (Ret _) _) _ _ => cbn [bind]
  | |- wp _ (bind (if ?c then _ else _) _) _ _ =>
      case_on c; cbn [negb andb orb]; cbv beta iota
  | |- wp _ (if ?c then _ else _) _ _ =>
      case_on c; cbn [negb andb orb]; cbv beta iota
  | |- wp _ (bind (bind _ _) _) _ _ => apply wp_bind
  | |- _ => reflexivity
  end.

Lemma shm_main_use : wp use_step Shm.main use_init (fun _ s => us_ok s = true).
Proof.
  unfold Shm.main, Shm.after_stat, Shm.assign_cpid, Shm.fork_and_run, Shm.child,
    Shm.parent, use_init.
  repeat use_go.
Qed.

(** X14.  [shm.c] uses the segment in order: on every execution, whatever
    the kernel answers, each store and each load goes to an [int] that
    lies within the [NUM * sizeof(int)] bytes at the address that the
    [shmat] of the process returned; it is made after that [shmat] and
    before the [shmdt] of the process; and each load is made after [wait]
    has returned. *)
Theorem segment_used_in_order t res :
  runs Shm.main t res -> segment_use_ok t = true.
Proof.
  intros Hr. pose proof shm_main_use as Hwp. rewrite wp_runs in Hwp.
  exact (Hwp t res Hr).
Qed.

(** X14 at the run of the parent. *)
Lemma segment_used_in_order_witness : segment_use_ok (trace_of parent_run) = true.
Proof.
  apply (segment_used_in_order (trace_of parent_run) (Halted (Exit (Status 0)))).
  exact parent_run_runs.
Defined.

(** ** The success message of [shm.c] *)

Lemma runs_check_square p j t res :
  runs (Shm.check_square p j) t res ->
  (res = Returned tt /\ t = [Ev (Load32 (Shm.elem p j)) (Some (int_wrap (j * j)))]) \/
  (exists o r, res = Halted o /\ t = [Ev (Load32 (Shm.elem p j)) r]).
Proof.
  unfold Shm.check_square, access, assert. cbn [runs bind call].
  intros ([v |] & t' & -> & H); cbn [bind] in H.
  - destruct (v =? int_wrap (j * j)) eqn:Hv; destruct H as [-> ->].
    + apply Z.eqb_eq in Hv. subst v. auto.
    + right. eauto.
  - destruct H as [-> ->]. right. eauto.
Qed.

Lemma shm_loop_cond_iff i : 0 <= i -> Shm.loop_cond i = true <-> i < 10.
Proof. intros _. unfold Shm.loop_cond. apply Z.ltb_lt. Qed.

Lemma shm_check_loop_returned p t :
  runs (for_loop 10 Shm.loop_cond Shm.loop_next (Shm.check_square p) 0) t (Returned tt) ->
  t = List.map (fun i => Ev (Load32 (Shm.elem p i)) (Some (i * i))) indices.
Proof.
  intros H.
  apply (runs_for_loop_returned _ _ _ 10 shm_loop_cond_iff shm_loop_next) in H;
    [| lia | simpl; lia].
  destruct H as (ts & Hts & ->). unfold rounds in Hts.
  change (seqZ 0 (10 - 0)) with indices in Hts.
  unfold indices in *.
  repeat match goal with
         | H : Forall2 _ (_ :: _) _ |- _ =>
             let Hj := fresh "Hj" in
             inversion H as [| ? ? ? ? Hj ?]; subst; clear H;
             apply runs_check_square in Hj;
             destruct Hj as [[_ ->] | (? & ? & Hj & _)]; [| discriminate]
         | H : Forall2 _ [] _ |- _ => inversion H; subst; clear H
         end.
  reflexivity.
Qed.

Lemma check_loop_never_passed p :
  never is_passed (for_loop 10 Shm.loop_cond Shm.loop_next (Shm.check_square p) 0).
Proof.
  apply never_for_loop. intros j. unfold Shm.check_square, access. never_go.
Qed.

Lemma after_fork_passed id r t res :
  runs (after_fork id r) t res ->
  existsb is_passed t = true ->
  exists p w s1 s2 s3 s4,
    t = parent_passed id p w s1 s2 s3 s4 /\ res = Halted (Exit (Status 0)) /\
    r <> 0 /\ r <> -1 /\ Shm.nattch_1_or_2 (snd s1) = true /\
    shm_nattch (snd s2) = 1 /\ shm_nattch (snd s3) = 0 /\ fst s4 <> -1.
Proof.
  unfold after_fork. intros H Hp.
  destruct (r =? -1) eqn:Hr1.
  { cbn [runs bind call] in H. destruct H as (? & ? & -> & -> & _). discriminate. }
  destruct (r =? 0) eqn:Hr0.
  { apply runs_bind in H.
    assert (Hn : existsb is_passed t = false); [| congruence].
    destruct H as [(a & t1 & t2 & -> & H1 & [-> _]) | (o & _ & H)].
    - rewrite app_nil_r. eapply never_runs; [apply child_never_passed | exact H1].
    - eapply never_runs; [apply child_never_passed | exact H]. }
  apply Z.eqb_neq in Hr1, Hr0.
  unfold Shm.parent, assert in H. cbn [runs bind call] in H.
  destruct H as (p & ? & -> & s1 & ? & -> & H).
  destruct (Shm.nattch_1_or_2 (snd s1)) eqn:Hs1;
    [| cbn [runs bind] in H; destruct H as [-> _]; discriminate].
  cbn [runs bind call] in H. destruct H as (w & ? & -> & s2 & tl & -> & H).
  destruct (shm_nattch (snd s2) =? 1) eqn:Hs2;
    [| cbn [runs bind] in H; destruct H as [-> _]; discriminate].
  cbn [bind] in H. apply runs_bind_assoc in H. apply runs_bind in H.
  cbn [existsb is_passed orb] in Hp.
  destruct H as [([] & t1 & t2 & -> & H1 & H) | (o & _ & H)].
  2: { assert (Hn : existsb is_passed tl = false); [| congruence].
       eapply never_runs; [apply check_loop_never_passed | exact H]. }
  rewrite existsb_app, (never_runs _ _ _ _ (check_loop_never_passed p) H1) in Hp.
  apply shm_check_loop_returned in H1. subst t1.
  cbn [runs bind call orb] in H. destruct H as (d & ? & -> & H).
  destruct (d =? 0) eqn:Hd;
    [| cbn [runs bind call negb] in H; destruct H as (? & ? & -> & -> & _); discriminate].
  apply Z.eqb_eq in Hd. subst d.
  cbn [runs bind call negb] in H. destruct H as (s3 & ? & -> & H).
  destruct (shm_nattch (snd s3) =? 0) eqn:Hs3;
    [| cbn [runs bind] in H; destruct H as [-> _]; discriminate].
  cbn [runs bind call] in H. destruct H as (s4 & ? & -> & H).
  destruct (fst s4 =? -1) eqn:Hs4.
  { cbn [runs bind call] in H. destruct H as (? & ? & -> & -> & _). discriminate. }
  cbn [runs bind call] in H. destruct H as ([] & ? & -> & -> & ->).
  exists p, w, s1, s2, s3, s4.
  apply Z.eqb_eq in Hs2, Hs3. apply Z.eqb_neq in Hs4.
  repeat split; assumption.
Qed.

(** X15.  What "shm check passed!" stands for: an execution of [shm.c]
    prints it only as its last event and ends with status 0; it is then
    the execution of the parent ([fork] returned neither 0 nor -1), every
    test before [fork] held, the attach counts reported to the parent
    were 1 or 2 after [shmat], 1 after [wait] and 0 after [shmdt], the ten
    loads came after [wait] and returned the squares 0, 1, 4, ..., 81 in
    order, [shmdt] returned 0 and [IPC_RMID] did not return -1. *)
Theorem passed_certifies t res :
  runs Shm.main t res ->
  existsb is_passed t = true ->
  exists key id st pid r p w s1 s2 s3 s4,
    t = to_fork key id st pid r ++ parent_passed id p w s1 s2 s3 s4 /\
    res = Halted (Exit (Status 0)) /\
    checks_passed key id st pid /\ r <> 0 /\ r <> -1 /\
    Shm.nattch_1_or_2 (snd s1) = true /\
    shm_nattch (snd s2) = 1 /\ shm_nattch (snd s3) = 0 /\ fst s4 <> -1.
Proof.
  intros H Hp.
  destruct (main_cases t res H) as [Hb | (key & id & st & pid & r & t' & -> & Hc & Hr)].
  { rewrite (before_fork_none is_passed t before_fork_not_passed Hb) in Hp. discriminate. }
  rewrite existsb_app in Hp. cbn [to_fork existsb is_passed orb] in Hp.
  destruct (after_fork_passed id r t' res Hr Hp)
    as (p & w & s1 & s2 & s3 & s4 & -> & -> & H0 & H1 & Hs1 & Hs2 & Hs3 & Hs4).
  exists key, id, st, pid, r, p, w, s1, s2, s3, s4. repeat split; try assumption.
  all: apply Hc.
Qed.

(** X15 at the run of the parent. *)
Lemma passed_certifies_witness :
  exists key id st pid r p w s1 s2 s3 s4,
    trace_of parent_run = to_fork key id st pid r ++ parent_passed id p w s1 s2 s3 s4 /\
    @Halted unit (Exit (Status 0)) = Halted (Exit (Status 0)) /\
    checks_passed key id st pid /\ r <> 0 /\ r <> -1 /\
    Shm.nattch_1_or_2 (snd s1) = true /\
    shm_nattch (snd s2) = 1 /\ shm_nattch (snd s3) = 0 /\ fst s4 <> -1.
Proof.
  apply (passed_certifies (trace_of parent_run) (Halted (Exit (Status 0)))).
  - exact parent_run_runs.
  - vm_compute. reflexivity.
Defined.

(** ** What [shm.c] leaves in the kernel model *)

Lemma forked_cleaned key ppid cpid :
  explore 34 cleaned_up (forked key ppid cpid) = true.
Proof. vm_compute. reflexivity. Qed.

Lemma nothing_left_spec k :
  nothing_left k = true ->
  k_segs k = ∅ /\ k_att k = mk_per_proc [] [] /\ k_child k = Reaped.
Proof.
  unfold nothing_left. destruct k as [f p segs [ap ac] c]. simpl.
  destruct (map_to_list segs) eqn:Hs; [| discriminate].
  destruct ap; [| discriminate]. destruct ac; [| discriminate].
  destruct c; try discriminate. intros _.
  apply map_to_list_empty_iff in Hs. auto.
Qed.

(** X16.  Over the kernel model, [shm.c] leaves nothing behind: on every
    schedule of the two processes, once both have left, the kernel holds
    no segment and no attachment, and the child has been reaped; also on
    the schedules on which the last assertion of the child fails. *)
Theorem shm_leaves_nothing key ppid cpid sched s :
  0 < ppid -> 0 < cpid ->
  run sched (boot key ppid cpid) = Some s ->
  finished s = true ->
  k_segs (sy_kernel s) = ∅ /\
  k_att (sy_kernel s) = mk_per_proc [] [] /\
  k_child (sy_kernel s) = Reaped.
Proof.
  intros Hp Hc Hrun Hfin. apply nothing_left_spec.
  destruct (boot_cases key ppid cpid Hp Hc sched s Hrun) as [(n & Hn & ->) | (rest & -> & Hrest)].
  - destruct (prefix_explored key ppid cpid Hp Hc n Hn) as (s0 & Hs0 & _ & _ & Hnf & _).
    assert (s = s0) by congruence. subst s0. congruence.
  - destruct (explore_sound _ _ _ (forked_cleaned key ppid cpid) rest s Hrest) as (Hok & _).
    unfold cleaned_up in Hok. rewrite Hfin in Hok. exact Hok.
Qed.

(** X16 at the schedule [child_first], on which the child aborts. *)
Lemma shm_leaves_nothing_witness :
  exists s,
    run child_first (boot 1090650114 100 101) = Some s /\
    k_segs (sy_kernel s) = ∅ /\
    k_att (sy_kernel s) = mk_per_proc [] [] /\
    k_child (sy_kernel s) = Reaped.
Proof.
  eexists. split; [vm_compute; reflexivity |].
  apply (shm_leaves_nothing 1090650114 100 101 child_first);
    [lia | lia | vm_compute; reflexivity | vm_compute; reflexivity].
Defined.

(** ** Results that are not looked at *)

Lemma deaf_runs (forge : forall X : Type, sys X -> X -> X) {R : Type} (p : prog R) t res :
  deaf forge p -> runs p t res -> runs p (List.map (forge_event forge) t) res.
Proof.
  revert t. induction p as [a | o | X e k IH]; intros t Hb Hr; simpl in *.
  - destruct Hr as [-> ->]. auto.
  - destruct Hr as [-> ->]. auto.
  - destruct Hr as (r & t' & -> & Hr). destruct (Hb r) as [Heq Hb'].
    exists (forge _ e r), (List.map (forge_event forge) t'). split; [reflexivity |].
    rewrite Heq. apply IH; assumption.
Qed.

Lemma deaf_bind (forge : forall X : Type, sys X -> X -> X) {A B : Type}
    (p : prog A) (f : A -> prog B) :
  deaf forge p -> (forall a, deaf forge (f a)) -> deaf forge (bind p f).
Proof.
  intros Hp Hf. induction p as [a | o | X e k IH]; simpl in *; auto.
  intros r. destruct (Hp r) as [Heq Hb]. split; [rewrite Heq; reflexivity | auto].
Qed.

Lemma deaf_for_loop (forge : forall X : Type, sys X -> X -> X) fuel cond next body i :
  (forall j, deaf forge (body j)) -> deaf forge (for_loop fuel cond next body i).
Proof.
  intros Hbody. revert i. induction fuel as [| n IH]; intros i; rewrite for_loop_unfold;
    destruct (cond i); simpl; auto.
  apply deaf_bind; auto.
Qed.

Lemma deaf_bind_call (forge : forall X : Type, sys X -> X -> X) {R X}
    (e : sys X) (f : X -> prog R) :
  (forall r, f (forge _ e r) = f r /\ deaf forge (f r)) -> deaf forge (bind (call e) f).
Proof. intros H. exact H. Qed.

Lemma deaf_assert (forge : forall X : Type, sys X -> X -> X) c : deaf forge (assert c).
Proof. destruct c; exact I. Qed.

Lemma deaf_access (forge : forall X : Type, sys X -> X -> X) {A} (e : sys (option A)) :
  (forall r, forge _ e r = r) -> deaf forge (access e).
Proof.
  intros H. unfold access. apply deaf_bind_call. intros r. rewrite H.
  split; [reflexivity |]. destruct r; exact I.
Qed.

Lemma rw_deaf v cs ptr size pt :
  deaf (@forge_unchecked v) (Mmap.test_memory_rw cs ptr size pt).
Proof.
  unfold Mmap.test_memory_rw.
  apply deaf_bind_call. intros r. split; [reflexivity |].
  apply deaf_bind; [apply deaf_for_loop; intros j; apply deaf_access; reflexivity | intros _].
  apply deaf_bind.
  - apply deaf_for_loop. intros j. unfold Mmap.rw_check.
    apply deaf_bind; [apply deaf_access; reflexivity | intros; apply deaf_assert].
  - intros _. intros r'. split; [reflexivity | exact I].
Qed.

(* the test functions of [mmap.c], given [rw] for [test_memory_rw] *)
Ltac deaf_step rw :=
  lazymatch goal with
  | |- deaf _ (bind (call _) _) => apply deaf_bind_call; intros ?; split; [reflexivity |]
  | |- deaf _ (call _) => intros ?; split; [reflexivity | exact I]
  | |- deaf _ (assert _) => apply deaf_assert
  | |- deaf _ (Mmap.test_memory_rw _ _ _ _) => apply rw
  | |- deaf _ (Halt _) => exact I
  | |- deaf _ (Ret _) => exact I
  | |- deaf _ (if ?c then _ else _) => destruct c
  | |- deaf _ (bind _ _) => apply deaf_bind; [| intros ?]
  end.

(* the programs of [shm.c] *)
Ltac deaf_go :=
  repeat first
    [ progress intros
    | split; [reflexivity |]
    | exact I
    | match goal with
      | |- deaf _ (bind (for_loop _ _ _ _ _) _) =>
          apply deaf_bind; [apply deaf_for_loop |]
      | |- deaf _ (if ?c then _ else _) => destruct c
      | |- deaf _ (bind (if ?c then _ else _) _) => destruct c
      | |- deaf _ (match ?x with Some _ => _ | None => _ end) => destruct x
      | |- deaf _ (bind (match ?x with Some _ => _ | None => _ end) _) => destruct x
      end
    | progress (simpl; unfold assert)
    | apply deaf_bind ].

Lemma mmap_main_deaf v cs : deaf (@forge_unchecked v) (Mmap.main cs).
Proof.
  unfold Mmap.main, Mmap.test_individual_alloc_rw_free, Mmap.test_batch_alloc_rw_free,
    Mmap.test_interleaved_alloc_rw_free, Mmap.test_eager_vs_lazy_allocation,
    Mmap.alloc_round, Mmap.test_file_mapping_hugepages, Mmap.test_linear_mapping,
    Mmap.say, Mmap.say_ptr.
  repeat deaf_step (rw_deaf v).
Qed.

Lemma shm_main_deaf v : deaf (@forge_unchecked v) Shm.main.
Proof.
  unfold Shm.main, Shm.after_stat, Shm.assign_cpid, Shm.fork_and_run, Shm.child,
    Shm.parent, Shm.write_square, Shm.check_square, access.
  deaf_go.
Qed.

(** X18.  [mmap.c] does not look at what [write], [lseek], [close] and
    [unlink] return: an execution in which each of these calls returns
    [v] instead (-1, say: all of them fail) is an execution too, with the
    same calls, the same other answers and the same end. *)
Theorem unchecked_results_mmap v cs t res :
  runs (Mmap.main cs) t res ->
  runs (Mmap.main cs) (List.map (forge_event (@forge_unchecked v)) t) res.
Proof. apply deaf_runs, mmap_main_deaf. Qed.

(** X18 at the run on which every call succeeds, with -1 for [v]. *)
Lemma unchecked_results_mmap_witness :
  runs (Mmap.main true)
    (List.map (forge_event (@forge_unchecked (-1))) (trace_of full_run))
    (Halted (Exit (Status 0))).
Proof.
  apply (unchecked_results_mmap (-1) true (trace_of full_run) (Halted (Exit (Status 0)))).
  apply exec_runs_of. vm_compute. reflexivity.
Defined.

(** X19.  [shm.c] does not look at what [wait] returns: an execution in
    which [wait] returns [v] instead (-1, say: there was no child to wait
    for) is an execution too, with the same calls, the same other answers
    and the same end. *)
Theorem unchecked_wait_shm v t res :
  runs Shm.main t res ->
  runs Shm.main (List.map (forge_event (@forge_unchecked v)) t) res.
Proof. apply deaf_runs, shm_main_deaf. Qed.

(** X19 at the run of the parent, with -1 for [v]. *)
Lemma unchecked_wait_shm_witness :
  runs Shm.main
    (List.map (forge_event (@forge_unchecked (-1))) (trace_of parent_run))
    (Halted (Exit (Status 0))).
Proof.
  apply (unchecked_wait_shm (-1) (trace_of parent_run) (Halted (Exit (Status 0)))).
  exact parent_run_runs.
Defined.

(** X20.  [shm.c] does not look at what [shmat] returns either, and uses
    it: whatever address [p] the [shmat] of the child returns ([(void * )-1]
    on failure), as soon as the attach count that [IPC_STAT] then reports
    is 1 or 2, the child stores [0] to [p[0]]; when that store faults, the
    process is killed. *)
Theorem shmat_result_unchecked key id st pid p s1 :
  checks_passed key id st pid ->
  Shm.nattch_1_or_2 (snd s1) = true ->
  runs Shm.main
    (to_fork key id st pid 0
     ++ [Ev (Shmat id NULL 0) p; Ev (Shmctl id IPC_STAT) s1;
         Ev (Store32 (Shm.elem p 0) 0) None])
    (Halted Segv).
Proof.
  intros (Hid & Hst & Hkey & Hpid & Hn & Hsz) Hs1.
  apply Z.eqb_neq in Hid, Hst, Hpid. apply Z.eqb_eq in Hkey, Hn, Hsz.
  unfold Shm.main, to_fork. cbn [runs bind call app].
  eexists _, _. split; [reflexivity |]. eexists _, _. split; [reflexivity |].
  rewrite Hid. cbn [runs bind call].
  eexists _, _. split; [reflexivity |]. rewrite Hst.
  unfold Shm.after_stat, Shm.assign_cpid, assert. rewrite Hkey.
  cbn [runs bind call]. eexists _, _. split; [reflexivity |].
  cbn [shm_cpid shm_nattch shm_segsz]. rewrite Hpid. cbn [negb bind shm_nattch shm_segsz].
  rewrite Hn. cbn [bind]. rewrite Hsz. cbn [bind].
  unfold Shm.fork_and_run. cbn [runs bind call].
  eexists _, _. split; [reflexivity |].
  change (0 =? -1) with false. change (0 =? 0) with true. cbv iota.
  unfold Shm.child. cbn [runs bind call].
  eexists _, _. split; [reflexivity |]. eexists _, _. split; [reflexivity |].
  unfold assert. rewrite Hs1. cbn [bind]. rewrite for_loop_unfold.
  change (Shm.loop_cond 0) with true. cbv iota.
  unfold Shm.write_square, access. cbn [runs bind call].
  exists None, []. split; [reflexivity |]. cbn [runs bind]. auto.
Qed.

(** X20 when [shmat] returns -1. *)
Lemma shmat_result_unchecked_witness :
  runs Shm.main
    (to_fork 1090650114 0 (0, mk_shmid_ds 1090650114 Shm.segment_size 100 0) 100 0
     ++ [Ev (Shmat 0 NULL 0) (-1);
         Ev (Shmctl 0 IPC_STAT) (0, mk_shmid_ds 1090650114 Shm.segment_size 100 1);
         Ev (Store32 (Shm.elem (-1) 0) 0) None])
    (Halted Segv).
Proof.
  apply (shmat_result_unchecked 1090650114 0
           (0, mk_shmid_ds 1090650114 Shm.segment_size 100 0) 100 (-1)
           (0, mk_shmid_ds 1090650114 Shm.segment_size 100 1)).
  - repeat split; simpl; lia.
  - reflexivity.
Defined.

(** ** The calls the programs make, by name *)










